(** * FastRead: the reading position engine, embedded in Rocq

    Shallow embedding of the parts of the FastRead sources that drive the
    reading cursor:

    - [TextProcessor]: [processBookText] (tokenizer and chapter scan);
    - [Headlines]: [updateWindow] and [containerStyle] of the
      [HeadlinesRenderer] component;
    - [Reader]: the shared values and handlers of [ReaderScreen]
      (frame callback, pan responder, play, seek, chapter jump);
    - [ReaderTTS]: [startSpeaking] and its [onBoundary] callback, from the
      narrated variant of the reader screen;
    - [Reader64]: the frame callback of [ReaderScreen] over binary64
      numbers.

    Conventions.  A JavaScript number is an IEEE-754 double; the embedding
    computes with exact rationals ([Q]), and with [Z] where the source only
    ever stores integers (word indices, array lengths).  Rounding is
    outside these modules: a sum such as 625 times 0.08 is exactly 50 in
    [Reader].  Where rounding decides a property, the accumulated sum of
    the ticker autoplay, [Reader64] embeds the frame callback over binary64
    numbers (Rocq's primitive floats).
    A JavaScript string is its sequence of UTF-16 code units ([list N]).
    State updates posted to the JavaScript thread ([runOnJS]) are applied
    at once. *)

From Stdlib Require Import ZArith NArith QArith Qminmax Qround Qabs.
From Stdlib Require Import List Bool Lia Lqa String Ascii Sorted.
From Stdlib Require Floats.PrimFloat Floats.SpecFloat Floats.FloatOps.
Import ListNotations.

(* ================================================================== *)
(** * JavaScript values used by the sources *)

Module JS.

(** Strings are sequences of UTF-16 code units. *)
Definition jsstring := list N.

(** A literal written in ASCII. *)
Definition lit (s : string) : jsstring :=
map N_of_ascii (list_ascii_of_string s).

Fixpoint eqb (a b : jsstring) : bool :=
match a, b with
| [], [] => true
| x :: a', y :: b' => N.eqb x y && eqb a' b'
| _, _ => false
end.

(** [s.length] *)
Definition len (s : jsstring) : Z := Z.of_nat (List.length s).

(** The regular-expression class [\s]: WhiteSpace and LineTerminator. *)
Definition isSpace (c : N) : bool :=
((9 <=? c) && (c <=? 13) || (c =? 32) || (c =? 160) || (c =? 5760)
 || (8192 <=? c) && (c <=? 8202) || (c =? 8232) || (c =? 8233)
 || (c =? 8239) || (c =? 8287) || (c =? 12288) || (c =? 65279))%N.

(** What [.] refuses without the [s] flag. *)
Definition isLineTerminator (c : N) : bool :=
((c =? 10) || (c =? 13) || (c =? 8232) || (c =? 8233))%N.

(** [s.split(/\s+/)]: [inSep] says that the scan is inside a run of
    whitespace, [tok] is the token read so far.  The last token is always
    emitted, empty or not, as the engine does. *)
Fixpoint splitWs (inSep : bool) (tok : jsstring) (s : jsstring)
  : list jsstring :=
match s with
| [] => [tok]
| c :: r =>
    if isSpace c
    then (if inSep then splitWs true [] r else tok :: splitWs true [] r)
    else splitWs false (tok ++ [c]) r
end.

Definition split (s : jsstring) : list jsstring := splitWs false [] s.

(** [ws.join(" ")] *)
Fixpoint join (ws : list jsstring) : jsstring :=
match ws with
| [] => []
| [w] => w
| w :: r => w ++ 32%N :: join r
end.

(** Relative index of [Array.prototype.slice] and [String.prototype.slice]. *)
Definition relIndex (n k : Z) : Z :=
if (k <? 0)%Z then Z.max (n + k) 0 else Z.min k n.

(** [l.slice(s, e)] *)
Definition slice {A : Type} (l : list A) (s e : Z) : list A :=
let n := Z.of_nat (List.length l) in
let k := relIndex n s in
let f := relIndex n e in
firstn (Z.to_nat (Z.max (f - k) 0)) (skipn (Z.to_nat k) l).

(** [l.slice(s)] *)
Definition sliceFrom {A : Type} (l : list A) (s : Z) : list A :=
slice l s (Z.of_nat (List.length l)).

(** [s.substring(0, e)] *)
Definition substring0 (s : jsstring) (e : Z) : jsstring :=
firstn (Z.to_nat (Z.min (Z.max e 0) (len s))) s.

(** Array read; [None] is [undefined]. *)
Definition get {A : Type} (l : list A) (i : Z) : option A :=
if (i <? 0)%Z then None else nth_error l (Z.to_nat i).

(** Comparisons of numbers. *)
Definition ltb (x y : Q) : bool :=
match x ?= y with Lt => true | _ => false end.

Definition leb (x y : Q) : bool :=
match x ?= y with Gt => false | _ => true end.

(** [x === 0] *)
Definition isZero (x : Q) : bool := Qeq_bool x 0.

(** [Math.floor], [Math.round] (ties go up), [Math.abs], [Math.min],
    [Math.max]. *)
Definition Math_floor (x : Q) : Z := Qfloor x.
Definition Math_round (x : Q) : Z := Qfloor (x + (1 # 2)).
Definition Math_abs (x : Q) : Q := Qabs x.
Definition Math_min (x y : Q) : Q := if leb x y then x else y.
Definition Math_max (x y : Q) : Q := if leb x y then y else x.

(** [x || d] on numbers: [d] replaces a missing value and zero. *)
Definition orElse (x : option Q) (d : Q) : Q :=
match x with
| Some v => if isZero v then d else v
| None => d
end.

End JS.

(* ================================================================== *)
(** * utils/textProcessor: [processBookText] *)

Module TextProcessor.
Import JS.

Record Chapter := mkChapter { title : jsstring; index : nat }.

Record BookStructure := mkBook { words : list jsstring; chapters : list Chapter }.

(** [text.replace(/\r\n/g, '\n')] *)
Fixpoint replaceCRLF (s : jsstring) : jsstring :=
match s with
| [] => []
| c :: t =>
    match t with
    | d :: r =>
        if ((c =? 13) && (d =? 10))%N then 10%N :: replaceCRLF r
        else c :: replaceCRLF t
    | [] => [c]
    end
end.

(** Canonicalisation of the [i] flag on a pattern of ASCII characters: a
    code unit above 127 never folds onto an ASCII one. *)
Definition foldCase (c : N) : N :=
if ((97 <=? c) && (c <=? 122))%N then (c - 32)%N else c.

(** A literal of the pattern matched at the head of [s] under the [i] flag;
    the result is what follows the match. *)
Fixpoint litCI (pat s : jsstring) : option jsstring :=
match pat with
| [] => Some s
| p :: pat' =>
    match s with
    | c :: s' => if (foldCase p =? foldCase c)%N then litCI pat' s' else None
    | [] => None
    end
end.

(** [.*?\*\*\*]: the lazy star gives up one character at a time and stops
    at the first place where the three stars match. *)
Fixpoint lazyToStars (s : jsstring) : option jsstring :=
match litCI (lit "***") s with
| Some r => Some r
| None =>
    match s with
    | c :: t => if isLineTerminator c then None else lazyToStars t
    | [] => None
    end
end.

Definition orTry {A : Type} (a b : option A) : option A :=
match a with Some _ => a | None => b end.

Definition andThen {A B : Type} (a : option A) (k : A -> option B) : option B :=
match a with Some x => k x | None => None end.

(** [/\*\*\* ?<word> OF (THIS|THE) PROJECT GUTENBERG EBOOK.*?\*\*\*/i]
    matched at the head of [s]; [word] is [START] or [END].  Alternatives
    are tried in the order of the backtracking matcher: the optional space
    first taken, then left; [THIS] before [THE]. *)
Definition markerAt (word : string) (s : jsstring) : option jsstring :=
andThen (litCI (lit "***") s) (fun s1 =>
  let body (s2 : jsstring) :=
    andThen (litCI (lit word) s2) (fun s3 =>
    andThen (litCI (lit " OF ") s3) (fun s4 =>
      let tail (s5 : jsstring) :=
        andThen (litCI (lit " PROJECT GUTENBERG EBOOK") s5) lazyToStars in
      orTry (andThen (litCI (lit "THIS") s4) tail)
            (andThen (litCI (lit "THE") s4) tail))) in
  orTry (andThen (litCI (lit " ") s1) body) (body s1)).

(** The result of [String.prototype.match] without the [g] flag. *)
Record RegExpMatch := mkMatch { matchIndex : nat; matched : jsstring }.

(** Leftmost match: positions are tried from left to right. *)
Fixpoint search (m : jsstring -> option jsstring) (i : nat) (s : jsstring)
  : option RegExpMatch :=
match m s with
| Some r => Some (mkMatch i (firstn (List.length s - List.length r) s))
| None =>
    match s with
    | _ :: t => search m (S i) t
    | [] => None
    end
end.

(** Steps 1 to 3 of [processBookText]: line endings, header, footer.
    Step 4 of the source only computes [firstChapterMatch], which nothing
    reads, and [chapterRegex] is never run. *)
Definition cleanText (text : jsstring) : jsstring :=
let t1 := replaceCRLF text in
let t2 :=
  match search (markerAt "START") 0 t1 with
  | Some m =>
      sliceFrom t1 (Z.of_nat (matchIndex m) + len (matched m))
  | None => t1
  end in
match search (markerAt "END") 0 t2 with
| Some m => slice t2 0 (Z.of_nat (matchIndex m))
| None => t2
end.

(** [cleanText.split(/\s+/).filter(w => w.length > 0)] *)
Definition tokenize (text : jsstring) : list jsstring :=
filter (fun w => (0 <? len w)%Z) (split (cleanText text)).

(** [w === 'CHAPTER' || w === 'CHAPITRE'] *)
Definition isChapterKeyword (w : jsstring) : bool :=
eqb w (lit "CHAPTER") || eqb w (lit "CHAPITRE").

Definition isDigit (c : N) : bool := ((48 <=? c) && (c <=? 57))%N.

(** [[IVXLCDM]] *)
Definition isRoman (c : N) : bool :=
((c =? 73) || (c =? 86) || (c =? 88) || (c =? 76) || (c =? 67)
 || (c =? 68) || (c =? 77))%N.

(** What is left after the longest run of [cls]. *)
Fixpoint afterRun (cls : N -> bool) (s : jsstring) : jsstring :=
match s with
| c :: t => if cls c then afterRun cls t else s
| [] => []
end.

(** [[\.:]?$] *)
Definition punctThenEnd (r : jsstring) : bool :=
match r with
| [] => true
| [c] => ((c =? 46) || (c =? 58))%N
| _ => false
end.

(** [/^(\d+|[IVXLCDM]+)[\.:]?$/.test(s)] *)
Definition numeralTest (s : jsstring) : bool :=
match s with
| c :: t =>
    isDigit c && punctThenEnd (afterRun isDigit t)
    || isRoman c && punctThenEnd (afterRun isRoman t)
| [] => false
end.

Section ChapterScan.

(** [String.prototype.toUpperCase] is the engine's Unicode case mapping; it
    is not code of this repository and is taken as a parameter. *)
Variable toUpperCase : jsstring -> jsstring.

(** The loop [for (let i = 0; i < words.length - 1; i++)] of
    [processBookText], from index [i] on the remaining words [ws]: a match
    pushes a chapter and steps over the numeral ([i++] twice). *)
Fixpoint scanChapters (i : nat) (ws : list jsstring) : list Chapter :=
match ws with
| w :: rest =>
    match rest with
    | next :: rest' =>
        if isChapterKeyword (toUpperCase w) && numeralTest (toUpperCase next)
        then mkChapter (w ++ 32%N :: next) i :: scanChapters (S (S i)) rest'
        else scanChapters (S i) rest
    | [] => []
    end
| [] => []
end.

(** ['Début'] *)
Definition debut : jsstring := [68; 233; 98; 117; 116]%N.

Definition detectChapters (ws : list jsstring) : list Chapter :=
match scanChapters 0 ws with
| [] => [mkChapter debut 0]
| cs => cs
end.

Definition processBookText (text : jsstring) : BookStructure :=
let ws := tokenize text in
mkBook ws (detectChapters ws).

End ChapterScan.

(** The case mapping on texts whose letters are ASCII. *)
Definition asciiToUpperCase (s : jsstring) : jsstring := map foldCase s.

End TextProcessor.

(* ================================================================== *)
(** * components/HeadlinesRenderer: the render window *)

Module Headlines.
Import JS.

Definition WINDOW_WORDS : Z := 400.
Definition WINDOW_BACK : Z := 150.
Definition CHAR_W_MULTIPLIER : Q := 65 # 100.

(** What [updateWindow] publishes: the two shared values read by the
    animated style, and the text of the window. *)
Record Window := mkWindow {
  windowWordOffsets : list Z;
  activeWindowStartWord : Z;
  windowText : jsstring
}.

(** Before the first [updateWindow]. *)
Definition noWindow : Window := mkWindow [] 0 [].

(** The loop that fills [localOffsets]: [acc] is the offset of the next
    word, [acc += wordsSlice[i].length + 1]. *)
Fixpoint localOffsets (acc : Z) (wordsSlice : list jsstring) : list Z :=
match wordsSlice with
| [] => []
| w :: r => acc :: localOffsets (acc + len w + 1) r
end.

Definition updateWindow (content : list jsstring) (centerWord : Z) (w : Window)
  : Window :=
match content with
| [] => w
| _ =>
    let start := Z.max 0 (centerWord - WINDOW_BACK) in
    let end_ := Z.min (Z.of_nat (List.length content)) (start + WINDOW_WORDS) in
    let wordsSlice := slice content start end_ in
    mkWindow (localOffsets 0 wordsSlice) start (join wordsSlice)
end.

(** The [translateX] computed by [containerStyle].  Array reads go through
    [JS.get]; the result is [None] if one of them reads outside the table
    (the source would then compute with [undefined]). *)
Definition containerStyle (w : Window) (screenW charWidth progress : Q)
  : option Q :=
let offsets := windowWordOffsets w in
let offsetStartWord := activeWindowStartWord w in
let n := Z.of_nat (List.length offsets) in
if (n =? 0)%Z || (len (windowText w) =? 0)%Z then Some 0
else
  let idx := progress in
  let floorIdx := Math_floor idx in
  let localIdx := (floorIdx - offsetStartWord)%Z in
  if (localIdx <? 0)%Z || (n <=? localIdx)%Z then Some (screenW / 2)
  else
    let fraction := idx - inject_Z floorIdx in
    match get offsets localIdx with
    | None => None
    | Some baseChar =>
        let wordLen : option Q :=
          if (localIdx <? n - 1)%Z then
            match get offsets (localIdx + 1) with
            | Some nextChar =>
                Some (Math_max 1 (inject_Z (nextChar - baseChar - 1)))
            | None => None
            end
          else Some 5 in
        match wordLen with
        | None => None
        | Some wl =>
            let globalCharPos := inject_Z baseChar + wl * fraction in
            Some (screenW / 2 - globalCharPos * charWidth)
        end
    end.

End Headlines.

(* ================================================================== *)
(** * screens/ReaderScreen: shared values and handlers *)

Module Reader.
Import JS.

(** The fields of a pan responder's [gestureState] that the handlers read. *)
Record GestureState := mkGesture { dx : Q; dy : Q; vx : Q; vy : Q }.

(** [frameInfo.timeSincePreviousFrame] is [null] on the first frame. *)
Record FrameInfo := mkFrame { timeSincePreviousFrame : option Q }.

(** The animation that currently drives [progress], if any.  Only two are
    ever started: the timing of [snapToNearest] and the decay of a fast
    release. *)
Inductive Animation : Type :=
| SnapTiming (startValue : Q) (nearest : Z) (runtime : Q)
| ReleaseDecay (velocity lo hi : Q).

Record State := mkState {
  progress : Q;
  animation : option Animation;
  isInteracting : bool;
  contentLength : Z;
  waitTimer : Q;
  targetIndex : Z;
  wpm : Q;
  savedWpm : Q;
  isTickerMode : bool;
  baseIndex : Z;
  startProgressRef : Q;
  isManualTransition : bool
}.

(** State of the screen once a book of [n] words is loaded. *)
Definition initial (n : Z) (initialIndex : Z) : State :=
mkState (inject_Z initialIndex) None false n 0 initialIndex 0 300 false
        initialIndex 0 false.

(** [progress.value = v]: a plain assignment also ends a running animation. *)
Definition setProgress (v : Q) (s : State) : State :=
mkState v None (isInteracting s) (contentLength s) (waitTimer s)
        (targetIndex s) (wpm s) (savedWpm s) (isTickerMode s) (baseIndex s)
        (startProgressRef s) (isManualTransition s).

(** A frame of a running animation writes the value and keeps animating. *)
Definition animate (v : Q) (a : option Animation) (s : State) : State :=
mkState v a (isInteracting s) (contentLength s) (waitTimer s)
        (targetIndex s) (wpm s) (savedWpm s) (isTickerMode s) (baseIndex s)
        (startProgressRef s) (isManualTransition s).

Definition setInteracting (b : bool) (s : State) : State :=
mkState (progress s) (animation s) b (contentLength s) (waitTimer s)
        (targetIndex s) (wpm s) (savedWpm s) (isTickerMode s) (baseIndex s)
        (startProgressRef s) (isManualTransition s).

Definition setWaitTimer (t : Q) (s : State) : State :=
mkState (progress s) (animation s) (isInteracting s) (contentLength s) t
        (targetIndex s) (wpm s) (savedWpm s) (isTickerMode s) (baseIndex s)
        (startProgressRef s) (isManualTransition s).

Definition setTargetIndex (i : Z) (s : State) : State :=
mkState (progress s) (animation s) (isInteracting s) (contentLength s)
        (waitTimer s) i (wpm s) (savedWpm s) (isTickerMode s) (baseIndex s)
        (startProgressRef s) (isManualTransition s).

Definition setWpm (w : Q) (s : State) : State :=
mkState (progress s) (animation s) (isInteracting s) (contentLength s)
        (waitTimer s) (targetIndex s) w (savedWpm s) (isTickerMode s)
        (baseIndex s) (startProgressRef s) (isManualTransition s).

Definition setSavedWpm (w : Q) (s : State) : State :=
mkState (progress s) (animation s) (isInteracting s) (contentLength s)
        (waitTimer s) (targetIndex s) (wpm s) w (isTickerMode s)
        (baseIndex s) (startProgressRef s) (isManualTransition s).

Definition setIsTickerMode (b : bool) (s : State) : State :=
mkState (progress s) (animation s) (isInteracting s) (contentLength s)
        (waitTimer s) (targetIndex s) (wpm s) (savedWpm s) b
        (baseIndex s) (startProgressRef s) (isManualTransition s).

Definition setBaseIndex (i : Z) (s : State) : State :=
mkState (progress s) (animation s) (isInteracting s) (contentLength s)
        (waitTimer s) (targetIndex s) (wpm s) (savedWpm s) (isTickerMode s)
        i (startProgressRef s) (isManualTransition s).

Definition setStartProgressRef (v : Q) (s : State) : State :=
mkState (progress s) (animation s) (isInteracting s) (contentLength s)
        (waitTimer s) (targetIndex s) (wpm s) (savedWpm s) (isTickerMode s)
        (baseIndex s) v (isManualTransition s).

Definition setIsManualTransition (b : bool) (s : State) : State :=
mkState (progress s) (animation s) (isInteracting s) (contentLength s)
        (waitTimer s) (targetIndex s) (wpm s) (savedWpm s) (isTickerMode s)
        (baseIndex s) (startProgressRef s) b.

(** [cancelAnimation(progress)] *)
Definition cancelAnimation (s : State) : State := animate (progress s) None s.

(** ** The animation loop: [useFrameCallback] *)

Definition tickerFrame (frameInfo : FrameInfo) (s : State) : State :=
let dt := orElse (timeSincePreviousFrame frameInfo) 16 in
let safeDt := Math_min dt 50 in
let increment := (wpm s / 60000) * safeDt in
(* [increment === increment && isFinite(increment)] holds of every rational *)
let s1 := setProgress (progress s + increment) s in
let s2 := if ltb (progress s1) 0 then setProgress 0 s1 else s1 in
let last := inject_Z (contentLength s - 1) in
let s3 := if leb last (progress s2)
          then setWpm 0 (setProgress last s2) else s2 in
setTargetIndex (Math_floor (progress s3)) s3.

Definition rsvpFrame (frameInfo : FrameInfo) (s : State) : State :=
let avgCycle := 60000 / (if isZero (wpm s) then 300 else wpm s) in
if ltb (waitTimer s) avgCycle then
  let s1 := setProgress (inject_Z (targetIndex s)) s in
  setWaitTimer (waitTimer s1 + orElse (timeSincePreviousFrame frameInfo) 16) s1
else
  let s1 := setWaitTimer 0 s in
  let s2 := setTargetIndex (targetIndex s1 + 1) s1 in
  let s3 := setProgress (inject_Z (targetIndex s2)) s2 in
  if (contentLength s3 <=? targetIndex s3)%Z then setWpm 0 s3 else s3.

Definition useFrameCallback (frameInfo : FrameInfo) (s : State) : State :=
if isZero (wpm s) || isInteracting s then s
else if isTickerMode s then tickerFrame frameInfo s
else rsvpFrame frameInfo s.

(** ** The pan responder *)

Definition snapToNearest (s : State) : State :=
let nearest := Math_round (progress s) in
animate (progress s) (Some (SnapTiming (progress s) nearest 0)) s.

(** The completion callback given to [withTiming] by [snapToNearest]. *)
Definition snapFinished (nearest : Z) (s : State) : State :=
setTargetIndex nearest (setBaseIndex nearest (setInteracting false s)).

Definition onPanResponderGrant (s : State) : State :=
let s1 := setInteracting true s in
let s2 := setWpm 0 s1 in
let s3 := cancelAnimation s2 in
setStartProgressRef (progress s3) s3.

Definition onPanResponderMove (g : GestureState) (s : State) : State :=
let sensitivity := 2 # 100 in
let delta := if isTickerMode s
             then - dx g * sensitivity * (2 # 10)
             else - dy g * sensitivity in
let newVal := startProgressRef s + delta in
let newVal1 := if ltb newVal 0 then 0 else newVal in
let last := inject_Z (contentLength s - 1) in
let newVal2 := if ltb last newVal1 then last else newVal1 in
setProgress newVal2 s.

(** The velocity computed by [onPanResponderRelease]. *)
Definition releaseVelocity (g : GestureState) (s : State) : Q :=
if isTickerMode s then - vx g * 20 else - vy g * 20.

Definition onPanResponderRelease (g : GestureState) (s : State) : State :=
let velocity := releaseVelocity g s in
let s1 :=
  if ltb (Math_abs velocity) (5 # 10) then snapToNearest s
  else animate (progress s)
         (Some (ReleaseDecay velocity 0 (inject_Z (contentLength s - 1)))) s in
let finalPosition := Math_round (progress s1) in
setBaseIndex finalPosition (setTargetIndex finalPosition s1).

Definition onPanResponderTerminate (s : State) : State :=
snapToNearest (setInteracting false s).

(** ** Controls *)

Definition togglePlay (s : State) : State :=
if ltb 0 (wpm s) then setWpm 0 s
else setWpm (if ltb 0 (savedWpm s) then savedWpm s else 300) s.

Definition toggleTickerMode (s : State) : State :=
setIsTickerMode (negb (isTickerMode s)) s.

Definition onArrowClick (down : bool) (s : State) : State :=
let s1 := setWpm 0 s in
let current := Math_round (progress s1) in
let next := if down then (current + 1)%Z else (current - 1)%Z in
let next1 := if (next <? 0)%Z then 0%Z else next in
let next2 := if (contentLength s1 <=? next1)%Z
             then (contentLength s1 - 1)%Z else next1 in
if (next2 =? current)%Z then s1
else setIsManualTransition true (setTargetIndex next2 s1).

Definition jumpToChapter (index : Z) (s : State) : State :=
let s1 := cancelAnimation (setWpm 0 s) in
setBaseIndex index (setTargetIndex index (setProgress (inject_Z index) s1)).

(** [onValueChange] of the position slider. *)
Definition onSeek (val : Q) (s : State) : State :=
let s1 := setWpm 0 s in
let clamped :=
  Z.max 0 (Z.min (Math_floor val) (contentLength s1 - 1)) in
setBaseIndex clamped
  (setTargetIndex clamped (setProgress (inject_Z clamped) s1)).

(** [onValueChange] of the speed slider. *)
Definition onSpeed (val : Q) (s : State) : State :=
setSavedWpm val (if ltb 0 (wpm s) then setWpm val s else s).

(** ** Animations of the shared value *)

(** [Easing.out(Easing.quad)] *)
Definition easeOutQuad (t : Q) : Q := 1 - (1 - t) * (1 - t).

Definition SNAP_DURATION : Q := 150.

Section Frames.

(** One frame of [withDecay]: from the velocity, the clamp, the current
    value and the elapsed time, the new value, the new velocity and whether
    the decay has finished.  It is code of the animation library and stays
    a parameter. *)
Variable decayFrame : Q -> Q * Q -> Q -> Q -> Q * Q * bool.

(** Modelled from the spec: [withTiming] is code of the animation library,
    not of this repository.  The cursor is eased to the target "over a
    fixed duration (~150 ms) using an ease-out curve": while the run time
    is below the duration the value follows the easing curve, and the frame
    that reaches the duration writes the target itself and runs the
    completion callback. *)
Definition animationFrame (dt : Q) (s : State) : State :=
match animation s with
| None => s
| Some (SnapTiming v0 nearest runtime) =>
    let runtime' := runtime + dt in
    if leb SNAP_DURATION runtime'
    then snapFinished nearest (animate (inject_Z nearest) None s)
    else animate
           (v0 + (inject_Z nearest - v0) * easeOutQuad (runtime' / SNAP_DURATION))
           (Some (SnapTiming v0 nearest runtime')) s
| Some (ReleaseDecay v lo hi) =>
    let '(x, v', finished) := decayFrame v (lo, hi) (progress s) dt in
    if finished then snapToNearest (animate x None s)
    else animate x (Some (ReleaseDecay v' lo hi)) s
end.

(** What one display frame does: the running animation first, then the
    frame callback. *)
Definition frame (frameInfo : FrameInfo) (s : State) : State :=
let dt := match timeSincePreviousFrame frameInfo with
          | Some d => d
          | None => 0
          end in
useFrameCallback frameInfo (animationFrame dt s).

Inductive Event : Type :=
| Frame (frameInfo : FrameInfo)
| TogglePlay
| ToggleTickerMode
| Grant
| Move (g : GestureState)
| Release (g : GestureState)
| Terminate
| ArrowClick (down : bool)
| JumpToChapter (index : Z)
| Seek (val : Q)
| Speed (val : Q).

Definition step (s : State) (e : Event) : State :=
match e with
| Frame fi => frame fi s
| TogglePlay => togglePlay s
| ToggleTickerMode => toggleTickerMode s
| Grant => onPanResponderGrant s
| Move g => onPanResponderMove g s
| Release g => onPanResponderRelease g s
| Terminate => onPanResponderTerminate s
| ArrowClick d => onArrowClick d s
| JumpToChapter i => jumpToChapter i s
| Seek v => onSeek v s
| Speed v => onSpeed v s
end.

Definition run (s : State) (es : list Event) : State := fold_left step es s.

End Frames.

End Reader.

(* ================================================================== *)
(** * The narrated reader screen: [startSpeaking] and [onBoundary] *)

Module ReaderTTS.
Import JS.

(** What [startSpeaking] and its callbacks read and write. *)
Record State := mkState {
  progress : Q;
  isInteracting : bool;
  content : list jsstring;
  ttsEnabled : bool
}.

(** What the callbacks of one [Speech.speak] close over. *)
Record Utterance := mkUtterance { startIndex : Z; textToRead : jsstring }.

Definition chunkSize : Z := 100.

(** The chunk that [startSpeaking] hands to [Speech.speak]; [None] when it
    returns without speaking. *)
Definition startSpeaking (s : State) : option Utterance :=
if (Z.of_nat (List.length (content s)) =? 0)%Z || negb (ttsEnabled s) then None
else
  let startIndex := Math_round (progress s) in
  if (Z.of_nat (List.length (content s)) <=? startIndex)%Z then None
  else
    Some (mkUtterance startIndex
            (join (slice (content s) startIndex (startIndex + chunkSize)))).

(** [onBoundary: (ev) => ...] with [charIndex = ev.charIndex]. *)
Definition onBoundary (u : Utterance) (charIndex : Z) (s : State) : State :=
if isInteracting s then s
else
  let chunkText := substring0 (textToRead u) charIndex in
  let wordOffset := (Z.of_nat (List.length (split chunkText)) - 1)%Z in
  let globalIndex := (startIndex u + wordOffset)%Z in
  mkState (inject_Z globalIndex) (isInteracting s) (content s) (ttsEnabled s).

(** The words of the chunk spoken by [u]. *)
Definition chunkWords (s : State) (u : Utterance) : list jsstring :=
slice (content s) (startIndex u) (startIndex u + chunkSize).

(** The specification's mapping, for comparison with [onBoundary]: scan
    the chunk's per-word cumulative character offsets and keep the last
    word whose offset is not beyond [charIndex].  [i] is the index of the
    head of [offsets], [idx] the answer so far. *)
Fixpoint scanOffsets (charIndex : Z) (i idx : nat) (offsets : list Z) : nat :=
match offsets with
| [] => idx
| o :: r => if (charIndex <? o)%Z then idx else scanOffsets charIndex (S i) i r
end.

Definition specWordOffset (chunk : list jsstring) (charIndex : Z) : Z :=
Z.of_nat (scanOffsets charIndex 0 0 (Headlines.localOffsets 0 chunk)).

End ReaderTTS.

(* ================================================================== *)
(** * Vocabulary of the properties *)

Module Props.
Import JS.

(** A token as the reader expects it: not empty, no whitespace inside. *)
Definition goodWord (w : jsstring) : Prop :=
w <> [] /\ Forall (fun c => isSpace c = false) w.

(** A chapter keyword, once in upper case. *)
Definition isKeywordToken (s : jsstring) : Prop :=
s = lit "CHAPTER" \/ s = lit "CHAPITRE".

(** A numeral, once in upper case: decimal digits or Roman-numeral
    letters, at least one, then at most one ["."] or [":"]. *)
Definition isNumeralToken (s : jsstring) : Prop :=
exists body punct,
  s = body ++ punct /\ body <> [] /\
  (Forall (fun c => TextProcessor.isDigit c = true) body \/
   Forall (fun c => TextProcessor.isRoman c = true) body) /\
  (punct = [] \/ punct = lit "." \/ punct = lit ":").

(** [c] is the marker of a heading of [ws]: a chapter keyword at its index,
    a numeral right after it, and the two tokens as its title. *)
Definition headingAt (up : jsstring -> jsstring) (ws : list jsstring)
  (c : TextProcessor.Chapter) : Prop :=
exists w n,
  nth_error ws (TextProcessor.index c) = Some w /\
  nth_error ws (S (TextProcessor.index c)) = Some n /\
  isKeywordToken (up w) /\
  isNumeralToken (up n) /\
  TextProcessor.title c = w ++ lit " " ++ n.

(** [clamp x lo hi]: [x] brought back under [hi] after it is brought back
    over [lo]. *)
Definition clamp (x lo hi : Q) : Q := Qmin (Qmax x lo) hi.

(** The last word index, [N - 1], of the loaded content. *)
Definition lastIndex (s : Reader.State) : Q :=
inject_Z (Reader.contentLength s - 1).

(** Autoplay is running: a rate is set and no gesture holds the cursor. *)
Definition autoplaying (ticker : bool) (s : Reader.State) : Prop :=
~ Reader.wpm s == 0 /\ Reader.isInteracting s = false /\
Reader.isTickerMode s = ticker.

(** [n] consecutive frame ticks with the same frame information. *)
Definition ticks (n : nat) (fi : Reader.FrameInfo) (s : Reader.State)
  : Reader.State :=
Nat.iter n (Reader.useFrameCallback fi) s.

(** A frame tick [dt] milliseconds after the previous one. *)
Definition tick (dt : Q) : Reader.FrameInfo := Reader.mkFrame (Some dt).

(** The axis of the drag that the active mode follows, and the extra factor
    of the ticker mode. *)
Definition translation (g : Reader.GestureState) (s : Reader.State) : Q :=
if Reader.isTickerMode s then Reader.dx g else Reader.dy g.

Definition modeFactor (s : Reader.State) : Q :=
if Reader.isTickerMode s then 1 # 5 else 1.

(** Time that a frame adds to a running animation. *)
Definition elapsed (fi : Reader.FrameInfo) : Q :=
match Reader.timeSincePreviousFrame fi with Some d => d | None => 0 end.

Fixpoint totalElapsed (fis : list Reader.FrameInfo) : Q :=
match fis with
| [] => 0
| fi :: r => elapsed fi + totalElapsed r
end.

(** A drag: the grant, then any number of moves. *)
Definition drag (moves : list Reader.GestureState) (s : Reader.State)
  : Reader.State :=
fold_left (fun st g => Reader.onPanResponderMove g st) moves
          (Reader.onPanResponderGrant s).

(** The local index of the cursor in the window is outside the table. *)
Definition outsideWindow (w : Headlines.Window) (progress : Q) : Prop :=
let localIdx := (Math_floor progress - Headlines.activeWindowStartWord w)%Z in
(localIdx < 0 \/
 Z.of_nat (List.length (Headlines.windowWordOffsets w)) <= localIdx)%Z.

(** A decay that stops at once, for running concrete traces. *)
Definition stillDecay (v : Q) (c : Q * Q) (x dt : Q) : Q * Q * bool :=
(x, v, true).

(** Sample data of the concrete cases. *)
Definition foxWords : list jsstring :=
[lit "the"; lit "quick"; lit "brown"; lit "fox"].

Definition foxState (interacting : bool) : ReaderTTS.State :=
ReaderTTS.mkState 0 interacting foxWords true.

Definition foxUtterance : ReaderTTS.Utterance :=
ReaderTTS.mkUtterance 0 (lit "the quick brown fox").

End Props.

(* ================================================================== *)
(** * services/storage and context/AppContext: the list of books *)

Module Library.
Import JS.

(** [progressPercentage] is [None] when the source computes it as a
    quotient by zero, which is not a finite number (and is stored as
    [null]). *)
Record BookProgress := mkBookProgress {
  bookId : Z;
  title : jsstring;
  author : jsstring;
  txtUrl : jsstring;
  totalWords : Z;
  currentWordIndex : Z;
  progressPercentage : option Q;
  lastRead : Z
}.

(** [books.findIndex(b => b.bookId === id)], counting from [i]; [-1] when
    no book has the identifier. *)
Fixpoint findIndexFrom (i : Z) (id : Z) (books : list BookProgress) : Z :=
match books with
| [] => (-1)%Z
| b :: r => if (bookId b =? id)%Z then i else findIndexFrom (i + 1) id r
end.

Definition findIndex (id : Z) (books : list BookProgress) : Z :=
findIndexFrom 0 id books.

(** [books.find(b => b.bookId === id)] *)
Definition findBook (id : Z) (books : list BookProgress) : option BookProgress :=
find (fun b => (bookId b =? id)%Z) books.

(** [books[index] = progress] for an index inside the array, the only case
    in which the callers write. *)
Fixpoint setAt (books : list BookProgress) (index : nat) (progress : BookProgress)
  : list BookProgress :=
match books, index with
| [], _ => []
| _ :: r, O => progress :: r
| b :: r, S k => b :: setAt r k progress
end.

(** The list written by [saveBookProgress], and the state computed by the
    updater of [updateBookProgress]: replace the book with the same
    identifier, or add the book at the end. *)
Definition saveBookProgress (books : list BookProgress) (progress : BookProgress)
  : list BookProgress :=
let index := findIndex (bookId progress) books in
if (0 <=? index)%Z then setAt books (Z.to_nat index) progress
else books ++ [progress].

(** [books.filter(b => b.bookId !== bookId)], of [removeBook] and
    [deleteBook]. *)
Definition removeBook (books : list BookProgress) (id : Z) : list BookProgress :=
filter (fun b => negb (bookId b =? id)%Z) books.

End Library.

(* ================================================================== *)
(** * screens/ReaderScreen: derived values and reactions *)

Module ReaderDerived.
Import JS.

(** The reaction to [Math.round(progress.value)]: the mirror [baseIndex]
    follows only when it is further away than the threshold of the mode. *)
Definition progressReaction (current : Z) (previous : option Z) (s : Reader.State)
  : Reader.State :=
let changed := match previous with
               | Some p => negb (current =? p)%Z
               | None => true
               end in
if changed then
  let diff := Z.abs (current - Reader.baseIndex s) in
  if ((if Reader.isTickerMode s then 50 else 1) <? diff)%Z
  then Reader.setBaseIndex current s else s
else s.

(** The loop of [activeWindowIndices] from [i], for [count] iterations. *)
Fixpoint indicesFrom (i : Z) (count : nat) (contentLength : Z) : list Z :=
match count with
| O => []
| S k =>
    (if (0 <=? i)%Z && (i <? contentLength)%Z then [i] else [])
    ++ indicesFrom (i + 1) k contentLength
end.

Definition activeWindowIndices (baseIndex contentLength : Z) (isTickerMode : bool)
  : list Z :=
let range := if isTickerMode then 60%Z else 5%Z in
indicesFrom (baseIndex - range) (Z.to_nat (2 * range + 1)) contentLength.

(** The loop of [currentChapter], which stops at the first chapter that
    starts after [baseIndex]. *)
Fixpoint currentChapterFrom (current : option TextProcessor.Chapter)
  (chapters : list TextProcessor.Chapter) (baseIndex : Z)
  : option TextProcessor.Chapter :=
match chapters with
| [] => current
| c :: r =>
    if (Z.of_nat (TextProcessor.index c) <=? baseIndex)%Z
    then currentChapterFrom (Some c) r baseIndex
    else current
end.

Definition currentChapter (baseIndex : Z) (chapters : list TextProcessor.Chapter)
  : option TextProcessor.Chapter :=
match chapters with
| [] => None
| _ => currentChapterFrom None chapters baseIndex
end.

(** The record that [saveCurrentProgress] hands to [updateBookProgress];
    [now] is [Date.now()]. *)
Definition saveCurrentProgress (bookId : Z) (title txtUrl : jsstring) (now : Z)
  (s : Reader.State) : Library.BookProgress :=
let currentIndex := Math_round (Reader.progress s) in
Library.mkBookProgress bookId title (lit "Unknown") txtUrl
  (Reader.contentLength s) currentIndex
  (if (Reader.contentLength s =? 0)%Z then None
   else Some (inject_Z currentIndex / inject_Z (Reader.contentLength s) * 100))
  now.

End ReaderDerived.

(* ================================================================== *)
(** * components/HeadlinesRenderer: window updates and its own gesture *)

Module HeadlinesDrive.
Import JS.

(** The test of the reaction to [Math.floor(progress.value)]: the index has
    left the inner part of the window that starts at [lastWindowStart]. *)
Definition leavesSafeWindow (idx lastWindowStart : Z) : bool :=
let start := lastWindowStart in
let end_ := (start + Headlines.WINDOW_WORDS)%Z in
ltb (inject_Z idx) (inject_Z start + inject_Z Headlines.WINDOW_BACK * (5 # 10))
|| ltb (inject_Z end_ - inject_Z Headlines.WINDOW_BACK * (5 # 10)) (inject_Z idx).

Record Renderer := mkRenderer {
  window : Headlines.Window;
  lastWindowStart : Z
}.

Definition windowReaction (content : list jsstring) (idx : Z) (r : Renderer)
  : Renderer :=
if leavesSafeWindow idx (lastWindowStart r)
then mkRenderer (Headlines.updateWindow content idx (window r))
                (Z.max 0 (idx - Headlines.WINDOW_BACK))
else r.

(** [onPanResponderMove] of the renderer, with the [onScroll] callback that
    the reader screen passes to it. *)
Definition onPanResponderMove (dx charWidth : Q) (s : Reader.State)
  : Reader.State :=
let deltaChars := - dx / charWidth in
let newProgress :=
  Math_max 0 (Math_min (Reader.progress s + deltaChars)
                       (inject_Z (Reader.contentLength s - 1))) in
let index := Math_floor newProgress in
Reader.setTargetIndex index
  (Reader.setBaseIndex index (Reader.setProgress newProgress s)).

End HeadlinesDrive.

(* ================================================================== *)
(** * The narrated reader screen: voice, rate and chaining of chunks *)

Module TTSVoice.
Import JS.

Record Voice := mkVoice {
  identifier : jsstring;
  name : jsstring;
  language : jsstring
}.

Inductive Gender : Type := Female | Male.

Fixpoint startsWith (sub s : jsstring) : bool :=
match sub with
| [] => true
| p :: sub' =>
    match s with
    | c :: s' => (p =? c)%N && startsWith sub' s'
    | [] => false
    end
end.

(** [s.includes(sub)] *)
Fixpoint includes (s sub : jsstring) : bool :=
startsWith sub s
|| match s with
   | _ :: t => includes t sub
   | [] => false
   end.

(** [v.language.includes('fr') || v.name.includes('French')] *)
Definition isFrench (v : Voice) : bool :=
includes (language v) (lit "fr") || includes (name v) (lit "French").

(** [a || b] on values that may be [undefined]. *)
Definition orUndefined {A : Type} (a b : option A) : option A :=
match a with Some _ => a | None => b end.

(** ['aurélie'] *)
Definition aurelie : jsstring := [97; 117; 114; 233; 108; 105; 101]%N.

Section Voices.

(** [String.prototype.toLowerCase], the engine's case mapping. *)
Variable toLowerCase : jsstring -> jsstring.

Definition nameHas (v : Voice) (fragment : jsstring) : bool :=
includes (toLowerCase (name v)) fragment.

Definition getVoice (systemVoices : list Voice) (voiceGender : Gender)
  : option Voice :=
let candidates := filter isFrench systemVoices in
let pool := match candidates with [] => systemVoices | _ => candidates end in
match voiceGender with
| Female =>
    orUndefined
      (find (fun v => nameHas v (lit "amelie") || nameHas v (lit "marie")
                      || nameHas v aurelie || nameHas v (lit "siri")) pool)
      (hd_error pool)
| Male =>
    orUndefined
      (find (fun v => nameHas v (lit "thomas") || nameHas v (lit "nicolas")
                      || nameHas v (lit "daniel")) pool)
      (orUndefined (find (fun v => negb (nameHas v (lit "siri"))) pool)
                   (hd_error pool))
end.

End Voices.

(** [Math.max(0.5, Math.min(2.0, effectiveWpm / 200))] with
    [effectiveWpm = wpm > 0 ? wpm : savedWpm]. *)
Definition speechRate (wpm savedWpm : Q) : Q :=
let effectiveWpm := if ltb 0 wpm then wpm else savedWpm in
Math_max (5 # 10) (Math_min 2 (effectiveWpm / 200)).

(** Whether [onDone] asks for the next chunk. *)
Definition onDoneRestarts (u : ReaderTTS.Utterance) (s : ReaderTTS.State) : bool :=
ReaderTTS.ttsEnabled s
&& (ReaderTTS.startIndex u + ReaderTTS.chunkSize
    <? Z.of_nat (List.length (ReaderTTS.content s)))%Z.

End TTSVoice.

(* ================================================================== *)
(** * The narrated reader screen: animation loop and arrows *)

Module TTSPlayback.
Import JS.

Record FrameInfo := mkFrame {
  timestamp : Q;
  timeSincePreviousFrame : option Q
}.

Record State := mkState {
  progress : Q;
  isInteracting : bool;
  isManualTransition : bool;
  isPlaying : bool;
  contentLength : Z;
  waitTimer : Q;
  targetIndex : Z;
  moveStartTimestamp : Q;
  startPosition : Q;
  wpm : Q
}.

Definition setProgress (v : Q) (s : State) : State :=
mkState v (isInteracting s) (isManualTransition s) (isPlaying s)
        (contentLength s) (waitTimer s) (targetIndex s)
        (moveStartTimestamp s) (startPosition s) (wpm s).

Definition setManual (b : bool) (stamp : Q) (s : State) : State :=
mkState (progress s) (isInteracting s) b (isPlaying s)
        (contentLength s) (waitTimer s) (targetIndex s)
        stamp (startPosition s) (wpm s).

Definition setTargetIndex (i : Z) (s : State) : State :=
mkState (progress s) (isInteracting s) (isManualTransition s) (isPlaying s)
        (contentLength s) (waitTimer s) i
        (moveStartTimestamp s) (startPosition s) (wpm s).

Definition setWaitTimer (t : Q) (s : State) : State :=
mkState (progress s) (isInteracting s) (isManualTransition s) (isPlaying s)
        (contentLength s) t (targetIndex s)
        (moveStartTimestamp s) (startPosition s) (wpm s).

(** [isPlaying.value = false; runOnJS(setWpm)(0)] *)
Definition stop (s : State) : State :=
mkState (progress s) (isInteracting s) (isManualTransition s) false
        (contentLength s) (waitTimer s) (targetIndex s)
        (moveStartTimestamp s) (startPosition s) 0.

Definition startMove (stamp : Q) (s : State) : State :=
mkState (progress s) (isInteracting s) (isManualTransition s) (isPlaying s)
        (contentLength s) (waitTimer s) (targetIndex s)
        stamp (progress s) (wpm s).

Definition MOVE_DURATION : Q := 160.

Section Loop.

(** [t => -(Math.cos(Math.PI * t) - 1) / 2], which is not a rational
    function and stays a parameter. *)
Variable easeInOut : Q -> Q.

Definition tickerFrame (frameInfo : FrameInfo) (s : State) : State :=
let dt := orElse (timeSincePreviousFrame frameInfo) 16 in
let increment := (wpm s / 60000) * dt in
let s1 := setProgress (progress s + increment) s in
let s2 := setTargetIndex (Math_floor (progress s1)) s1 in
if leb (inject_Z (contentLength s2)) (progress s2) then stop s2 else s2.

(** [60000 / wpm] is infinite when [wpm] is 0, and every wait timer is
    below it. *)
Definition rsvpFrame (frameInfo : FrameInfo) (s : State) : State :=
let s0 := if (targetIndex s <? Math_floor (progress s))%Z
          then setTargetIndex (Math_floor (progress s) + 1) s else s in
if isZero (wpm s0) || ltb (waitTimer s0) (60000 / wpm s0) then
  let s1 := setProgress (inject_Z (targetIndex s0)) s0 in
  setWaitTimer (waitTimer s1 + orElse (timeSincePreviousFrame frameInfo) 16) s1
else
  let s1 := setWaitTimer 0 s0 in
  let s2 := setTargetIndex (targetIndex s1 + 1) s1 in
  let s3 := setProgress (inject_Z (targetIndex s2)) s2 in
  if (contentLength s3 <=? targetIndex s3)%Z then stop s3 else s3.

Definition manualFrame (frameInfo : FrameInfo) (s : State) : State :=
let s1 := if Qeq_bool (moveStartTimestamp s) (- (1))
          then startMove (timestamp frameInfo) s else s in
let elapsed := timestamp frameInfo - moveStartTimestamp s1 in
let t := elapsed / MOVE_DURATION in
if leb 1 t then
  setManual false (- (1)) (setProgress (inject_Z (targetIndex s1)) s1)
else
  setProgress
    (startPosition s1
     + (inject_Z (targetIndex s1) - startPosition s1) * easeInOut t) s1.

Definition useFrameCallback (isTickerMode : bool) (frameInfo : FrameInfo)
  (s : State) : State :=
if isPlaying s && negb (isInteracting s) then
  (if isTickerMode then tickerFrame frameInfo s else rsvpFrame frameInfo s)
else if isManualTransition s && negb (isInteracting s) then
  manualFrame frameInfo s
else s.

End Loop.

Definition onArrowClick (down : bool) (s : State) : State :=
let s1 := stop s in
let current := Math_round (progress s1) in
let next := if down then (current + 1)%Z else (current - 1)%Z in
let next1 := if (next <? 0)%Z then 0%Z else next in
let next2 := if (contentLength s1 <=? next1)%Z
             then (contentLength s1 - 1)%Z else next1 in
if (next2 =? current)%Z then s1
else setManual true (- (1)) (setTargetIndex next2 s1).

End TTSPlayback.

(* ================================================================== *)
(** * The first narrated reader screen: offset table and autoplay *)

Module EarlyReader.
Import JS.

Record State := mkState {
  progress : Q;
  isInteracting : bool;
  contentLength : Z;
  wpm : Q;
  ttsEnabled : bool;
  content : list jsstring;
  sliceMap : list Z
}.

Definition setProgress (v : Q) (s : State) : State :=
mkState v (isInteracting s) (contentLength s) (wpm s) (ttsEnabled s)
        (content s) (sliceMap s).

Definition setWpm (w : Q) (s : State) : State :=
mkState (progress s) (isInteracting s) (contentLength s) w (ttsEnabled s)
        (content s) (sliceMap s).

Definition setSliceMap (m : list Z) (s : State) : State :=
mkState (progress s) (isInteracting s) (contentLength s) (wpm s)
        (ttsEnabled s) (content s) m.

(** [startSpeaking]: the new state and, when it speaks, the start index
    that its callbacks close over.  The offset table lives in the shared
    [sliceMap] ref, which every later call overwrites. *)
Definition startSpeaking (s : State) : State * option Z :=
match content s with
| [] => (s, None)
| _ =>
    let startIndex := Math_floor (progress s) in
    if (Z.of_nat (List.length (content s)) <=? startIndex)%Z
    then (setWpm 0 s, None)
    else
      let words := sliceFrom (content s) startIndex in
      (setSliceMap (Headlines.localOffsets 0 words) s, Some startIndex)
end.

(** The loop of [onBoundary] over [sliceMap.current]. *)
Definition onBoundary (startIndex charIdx : Z) (s : State) : State :=
if isInteracting s then s
else
  let idx := ReaderTTS.scanOffsets charIdx 0 0 (sliceMap s) in
  setProgress (inject_Z (startIndex + Z.of_nat idx)) s.

Definition useFrameCallback (timeSincePreviousFrame : option Q) (s : State)
  : State :=
if ltb 0 (wpm s) && (0 <? contentLength s)%Z && negb (isInteracting s)
   && negb (ttsEnabled s)
then
  let dt := orElse timeSincePreviousFrame 16 in
  let increment := (wpm s / 60000) * dt in
  if ltb (progress s + increment) (inject_Z (contentLength s - 1))
  then setProgress (progress s + increment) s
  else setWpm 0 s
else s.

End EarlyReader.

(* ================================================================== *)
(** * Vocabulary of the further properties *)

Module MoreProps.
Import JS.

(** Chapters in the order of their word indices, without repetition. *)
Definition ascending (cs : list TextProcessor.Chapter) : Prop :=
StronglySorted
  (fun a b => (TextProcessor.index a < TextProcessor.index b)%nat) cs.

(** No asterisk, no carriage return, no character that ends a line. *)
Definition starFree (s : jsstring) : Prop := Forall (fun c => c <> 42%N) s.
Definition crFree (s : jsstring) : Prop := Forall (fun c => c <> 13%N) s.
Definition oneLine (s : jsstring) : Prop :=
Forall (fun c => isLineTerminator c = false) s.

(** The marker lines of a Project Gutenberg file, around a title. *)
Definition startMarker (bookTitle : jsstring) : jsstring :=
lit "*** START OF THE PROJECT GUTENBERG EBOOK" ++ bookTitle ++ lit "***".

Definition endMarker (bookTitle : jsstring) : jsstring :=
lit "*** END OF THE PROJECT GUTENBERG EBOOK" ++ bookTitle ++ lit "***".

(** The words that [updateWindow] puts in the window around [centerWord]. *)
Definition windowStart (centerWord : Z) : Z :=
Z.max 0 (centerWord - Headlines.WINDOW_BACK).

Definition windowWords (content : list jsstring) (centerWord : Z)
  : list jsstring :=
slice content (windowStart centerWord)
      (Z.min (Z.of_nat (List.length content))
             (windowStart centerWord + Headlines.WINDOW_WORDS)).

(** The course of a decay over the frames [fis], from the value [x] and
    the velocity [v]: the value on which it finishes and the frames that
    are left, or [None] if it is still running after the last frame. *)
Fixpoint decayEnds (decayFrame : Q -> Q * Q -> Q -> Q -> Q * Q * bool)
  (v lo hi x : Q) (fis : list Reader.FrameInfo)
  : option (Q * list Reader.FrameInfo) :=
match fis with
| [] => None
| fi :: r =>
    let '(x', v', finished) := decayFrame v (lo, hi) x (Props.elapsed fi) in
    if finished then Some (x', r) else decayEnds decayFrame v' lo hi x' r
end.

(** Frames of the narrated screen, in order. *)
Definition playFrames (ease : Q -> Q) (isTickerMode : bool)
  (fis : list TTSPlayback.FrameInfo) (s : TTSPlayback.State)
  : TTSPlayback.State :=
fold_left (fun st fi => TTSPlayback.useFrameCallback ease isTickerMode fi st)
          fis s.

End MoreProps.

(* ================================================================== *)
(** * screens/ReaderScreen: the animation loop in binary64 *)

(** The numbers of the engine are binary64 floating-point numbers.  [Reader]
    computes with exact rationals, which agrees with the engine wherever no
    operation rounds.  The ticker branch adds [(wpm / 60000) * dt] on every
    frame, and these operations do round: this module embeds the frame
    callback over binary64 numbers, every operation rounded as the engine
    rounds it. *)
Module Reader64.
Import PrimFloat SpecFloat FloatOps.
Local Open Scope float_scope.

(** [x || d] on a number that may be [undefined]: [0], [-0] and [NaN] are
    falsy. *)
Definition orElse (x : option float) (d : float) : float :=
match x with
| Some v => if is_nan v || is_zero v then d else v
| None => d
end.

(** [Math.min(x, y)] *)
Definition Math_min (x y : float) : float :=
if is_nan x || is_nan y then nan
else if x <? y then x
else if y <? x then y
else if is_zero x && get_sign x then x else y.

(** The binary64 number of an integer. *)
Definition ofZ (z : Z) : float :=
SF2Prim (binary_normalize prec emax z 0 false).

(** The greatest integer not above [(-1)^s * m * 2^e]. *)
Definition floorSF (s : bool) (m : positive) (e : Z) : Z :=
let n := if s then Zneg m else Zpos m in
if (0 <=? e)%Z then (n * 2 ^ e)%Z else (n / 2 ^ (- e))%Z.

(** [Math.floor(x)]: zeros, infinities and [NaN] are returned as they
    are. *)
Definition Math_floor (x : float) : float :=
match Prim2SF x with
| S754_finite s m e => ofZ (floorSF s m e)
| _ => x
end.

Record FrameInfo := mkFrame { timeSincePreviousFrame : option float }.

Record State := mkState {
  progress : float;
  isInteracting : bool;
  contentLength : float;
  waitTimer : float;
  targetIndex : float;
  wpm : float;
  isTickerMode : bool
}.

Definition setProgress (v : float) (s : State) : State :=
mkState v (isInteracting s) (contentLength s) (waitTimer s) (targetIndex s)
        (wpm s) (isTickerMode s).

Definition setWaitTimer (v : float) (s : State) : State :=
mkState (progress s) (isInteracting s) (contentLength s) v (targetIndex s)
        (wpm s) (isTickerMode s).

Definition setTargetIndex (v : float) (s : State) : State :=
mkState (progress s) (isInteracting s) (contentLength s) (waitTimer s) v
        (wpm s) (isTickerMode s).

Definition setWpm (v : float) (s : State) : State :=
mkState (progress s) (isInteracting s) (contentLength s) (waitTimer s)
        (targetIndex s) v (isTickerMode s).

Definition tickerFrame (frameInfo : FrameInfo) (s : State) : State :=
let dt := orElse (timeSincePreviousFrame frameInfo) 16 in
let safeDt := Math_min dt 50 in
let increment := (wpm s / 60000) * safeDt in
if (increment =? increment) && is_finite increment then
  let s1 := setProgress (progress s + increment) s in
  let s2 := if progress s1 <? 0 then setProgress 0 s1 else s1 in
  let s3 := if contentLength s2 - 1 <=? progress s2
            then setWpm 0 (setProgress (contentLength s2 - 1) s2) else s2 in
  setTargetIndex (Math_floor (progress s3)) s3
else s.

Definition rsvpFrame (frameInfo : FrameInfo) (s : State) : State :=
let avgCycle := 60000 / orElse (Some (wpm s)) 300 in
if waitTimer s <? avgCycle then
  let s1 := setProgress (targetIndex s) s in
  setWaitTimer (waitTimer s1 + orElse (timeSincePreviousFrame frameInfo) 16) s1
else
  let s1 := setWaitTimer 0 s in
  let s2 := setTargetIndex (targetIndex s1 + 1) s1 in
  let s3 := setProgress (targetIndex s2) s2 in
  if contentLength s3 <=? targetIndex s3 then setWpm 0 s3 else s3.

Definition useFrameCallback (frameInfo : FrameInfo) (s : State) : State :=
if (wpm s =? 0) || isInteracting s then s
else if isTickerMode s then tickerFrame frameInfo s
else rsvpFrame frameInfo s.

End Reader64.

(* ================================================================== *)
(** * Vocabulary of the properties in binary64 *)

Module Props64.
Import PrimFloat.
Local Open Scope float_scope.

(** [x] brought up to [lo], then down to [hi], as the handlers write it. *)
Definition clamp (x lo hi : float) : float :=
let x1 := if x <? lo then lo else x in
if hi <=? x1 then hi else x1.

(** The ticker autoplay is running. *)
Definition autoplaying (s : Reader64.State) : Prop :=
(Reader64.wpm s =? 0) = false /\
Reader64.isInteracting s = false /\
Reader64.isTickerMode s = true.

(** A frame tick that reports [dt] milliseconds. *)
Definition tick (dt : float) : Reader64.FrameInfo :=
Reader64.mkFrame (Some dt).

(** [n] frame ticks in a row. *)
Definition ticks (n : nat) (fi : Reader64.FrameInfo) (s : Reader64.State)
  : Reader64.State :=
Nat.iter n (Reader64.useFrameCallback fi) s.

(** Ticker autoplay at 300 words a minute from the first of [n] words. *)
Definition sample (n : float) : Reader64.State :=
Reader64.mkState 0 false n 0 0 300 true.

End Props64.

(* ================================================================== *)
(** * Facts about the JavaScript layer *)

Import JS Props.

Lemma ltb_true_iff (x y : Q) : ltb x y = true <-> x < y.
Proof.
  unfold ltb. rewrite Qlt_alt. destruct (x ?= y); split; congruence.
Qed.

Lemma ltb_false_iff (x y : Q) : ltb x y = false <-> y <= x.
Proof.
  unfold ltb. rewrite Qle_alt, <- (Qcompare_antisym x y).
  destruct (x ?= y); simpl; split; congruence.
Qed.

Lemma leb_true_iff (x y : Q) : leb x y = true <-> x <= y.
Proof.
  unfold leb. rewrite Qle_alt. destruct (x ?= y); split; congruence.
Qed.

Lemma leb_false_iff (x y : Q) : leb x y = false <-> y < x.
Proof.
  unfold leb. rewrite Qlt_alt, <- (Qcompare_antisym x y).
  destruct (x ?= y); simpl; split; congruence.
Qed.

Lemma isZero_true_iff (x : Q) : isZero x = true <-> x == 0.
Proof. apply Qeq_bool_iff. Qed.

Lemma isZero_false_iff (x : Q) : isZero x = false <-> ~ x == 0.
Proof.
  rewrite <- isZero_true_iff. destruct (isZero x); split; congruence.
Qed.

Lemma Math_min_Qmin (x y : Q) : Math_min x y == Qmin x y.
Proof.
  unfold Math_min. destruct (leb x y) eqn:E.
  - apply leb_true_iff in E. symmetry. now apply Q.min_l.
  - apply leb_false_iff in E. symmetry. apply Q.min_r. lra.
Qed.

Lemma eqb_eq (a b : jsstring) : eqb a b = true <-> a = b.
Proof.
  revert b. induction a as [|x a IH]; intros [|y b]; simpl;
    try (split; congruence).
  rewrite andb_true_iff, N.eqb_eq, IH. split.
  - intros [-> ->]. reflexivity.
  - intros H. injection H as -> ->. auto.
Qed.

Lemma Forall_firstn_keep {A : Type} (P : A -> Prop) (n : nat) (l : list A) :
  Forall P l -> Forall P (firstn n l).
Proof.
  revert l. induction n as [|n IH]; intros [|x l] H; simpl; auto.
  inversion H; subst. constructor; auto.
Qed.

Lemma Forall_skipn_keep {A : Type} (P : A -> Prop) (n : nat) (l : list A) :
  Forall P l -> Forall P (skipn n l).
Proof.
  revert l. induction n as [|n IH]; intros [|x l] H; simpl; auto.
  inversion H; subst. auto.
Qed.

Lemma Forall_slice {A : Type} (P : A -> Prop) (l : list A) (s e : Z) :
  Forall P l -> Forall P (slice l s e).
Proof.
  intros H. unfold slice. now apply Forall_firstn_keep, Forall_skipn_keep.
Qed.

(* ------------------------------------------------------------------ *)
(** ** The tokenizer *)

Lemma splitWs_spacefree (s : jsstring) :
  forall inSep tok,
    Forall (fun c => isSpace c = false) tok ->
    Forall (Forall (fun c => isSpace c = false)) (splitWs inSep tok s).
Proof.
  induction s as [|c r IH]; intros inSep tok Htok; simpl.
  - constructor; auto.
  - destruct (isSpace c) eqn:Ec.
    + destruct inSep.
      * apply IH. constructor.
      * constructor; auto.
    + apply IH. apply Forall_app. split; auto.
Qed.

Lemma tokenize_good (text : jsstring) :
  Forall goodWord (TextProcessor.tokenize text).
Proof.
  unfold TextProcessor.tokenize, split.
  assert (H := splitWs_spacefree (TextProcessor.cleanText text) false
                 [] (Forall_nil _)).
  induction H as [|w l Hw Hl IH]; simpl.
  - constructor.
  - destruct (0 <? len w)%Z eqn:E; auto.
    constructor; auto. split; auto.
    intros ->. discriminate E.
Qed.

Lemma localOffsets_step (ws : list jsstring) :
  Forall goodWord ws ->
  forall acc i a b,
    nth_error (Headlines.localOffsets acc ws) i = Some a ->
    nth_error (Headlines.localOffsets acc ws) (S i) = Some b ->
    (a + 2 <= b)%Z.
Proof.
  induction 1 as [|w r [Hne _] Hr IH]; intros acc i a b Ha Hb.
  - destruct i; discriminate.
  - destruct i as [|i]; simpl in Ha, Hb.
    + injection Ha as <-.
      destruct r as [|w' r']; simpl in Hb; [discriminate|].
      injection Hb as <-.
      unfold len. destruct w; [congruence|]. simpl List.length. lia.
    + eapply IH; eauto.
Qed.

(* ------------------------------------------------------------------ *)
(** ** The chapter scan *)

Lemma isChapterKeyword_spec (s : jsstring) :
  TextProcessor.isChapterKeyword s = true <-> isKeywordToken s.
Proof.
  unfold TextProcessor.isChapterKeyword, isKeywordToken.
  now rewrite orb_true_iff, !eqb_eq.
Qed.

Lemma afterRun_split (cls : N -> bool) (t : jsstring) :
  exists run,
    t = run ++ TextProcessor.afterRun cls t /\
    Forall (fun c => cls c = true) run.
Proof.
  induction t as [|c t (run & E & F)]; simpl.
  - exists []. auto.
  - destruct (cls c) eqn:Ec.
    + exists (c :: run). simpl. split; [congruence|]. constructor; auto.
    + exists []. auto.
Qed.

Lemma afterRun_app (cls : N -> bool) (run rest : jsstring) :
  Forall (fun c => cls c = true) run ->
  match rest with x :: _ => cls x = false | [] => True end ->
  TextProcessor.afterRun cls (run ++ rest) = rest.
Proof.
  intros F Hr. induction F as [|c run Hc F IH]; simpl.
  - destruct rest as [|x r]; simpl; [reflexivity|]. now rewrite Hr.
  - now rewrite Hc.
Qed.

Lemma punctThenEnd_spec (r : jsstring) :
  TextProcessor.punctThenEnd r = true <->
  r = [] \/ r = lit "." \/ r = lit ":".
Proof.
  unfold TextProcessor.punctThenEnd.
  destruct r as [|c [|d r]].
  - split; auto.
  - rewrite orb_true_iff, !N.eqb_eq. split.
    + intros [-> | ->]; auto.
    + intros [H|[H|H]]; inversion H; auto.
  - split; [discriminate|]. intros [H|[H|H]]; discriminate H.
Qed.

Lemma numeral_run (cls : N -> bool) (c : N) (t : jsstring) :
  (forall x, x = 46%N \/ x = 58%N -> cls x = false) ->
  (cls c = true /\
   TextProcessor.punctThenEnd (TextProcessor.afterRun cls t) = true) <->
  exists body punct,
    c :: t = body ++ punct /\ body <> [] /\
    Forall (fun x => cls x = true) body /\
    (punct = [] \/ punct = lit "." \/ punct = lit ":").
Proof.
  intros Hp. split.
  - intros [Hc Ht]. destruct (afterRun_split cls t) as (run & E & F).
    exists (c :: run), (TextProcessor.afterRun cls t). repeat split.
    + simpl. congruence.
    + discriminate.
    + constructor; auto.
    + now apply punctThenEnd_spec.
  - intros (body & punct & E & Hne & F & P).
    destruct body as [|b body]; [congruence|].
    simpl in E. injection E as -> ->. inversion F; subst. split; auto.
    rewrite afterRun_app; auto.
    + now apply punctThenEnd_spec.
    + destruct P as [->|[->| ->]]; simpl; auto.
Qed.

Lemma numeralTest_spec (s : jsstring) :
  TextProcessor.numeralTest s = true <-> isNumeralToken s.
Proof.
  unfold isNumeralToken. destruct s as [|c t]; simpl.
  - split; [discriminate|].
    intros (body & punct & E & Hne & _). destruct body; [congruence|].
    discriminate E.
  - rewrite orb_true_iff, !andb_true_iff.
    rewrite (numeral_run TextProcessor.isDigit c t),
            (numeral_run TextProcessor.isRoman c t).
    + split.
      * intros [(b & p & E & Hn & F & P)|(b & p & E & Hn & F & P)];
          exists b, p; auto.
      * intros (b & p & E & Hn & [F|F] & P); [left|right]; exists b, p; auto.
    + intros x [-> | ->]; reflexivity.
    + intros x [-> | ->]; reflexivity.
Qed.

Lemma numeral_not_keyword (s : jsstring) :
  TextProcessor.numeralTest s = true ->
  TextProcessor.isChapterKeyword s = false.
Proof.
  intros Hn. destruct (TextProcessor.isChapterKeyword s) eqn:Hk; auto.
  unfold TextProcessor.isChapterKeyword in Hk.
  apply orb_true_iff in Hk.
  destruct Hk as [Hk|Hk]; apply eqb_eq in Hk; subst s; discriminate Hn.
Qed.

Section ScanFacts.

Variable up : jsstring -> jsstring.

Let hit (w n : jsstring) : bool :=
  TextProcessor.isChapterKeyword (up w) && TextProcessor.numeralTest (up n).

Lemma scanChapters_spec (m : nat) :
  forall ws i c,
    (List.length ws <= m)%nat ->
    (In c (TextProcessor.scanChapters up i ws) <->
     exists k w n,
       nth_error ws k = Some w /\ nth_error ws (S k) = Some n /\
       hit w n = true /\
       c = TextProcessor.mkChapter (w ++ 32%N :: n) (i + k)).
Proof.
  induction m as [|m IH]; intros ws i c Hlen.
  - destruct ws; [|simpl in Hlen; lia]. simpl. split; [tauto|].
    intros (k & w & n & Hk & _). destruct k; discriminate.
  - destruct ws as [|w [|n rest]].
    + simpl. split; [tauto|].
      intros (k & w & n & Hk & _). destruct k; discriminate.
    + simpl. split; [tauto|].
      intros (k & w' & n & Hk & Hk' & _).
      destruct k as [|[|k]]; discriminate.
    + cbn [TextProcessor.scanChapters]. fold (hit w n).
      destruct (hit w n) eqn:Hh.
      * simpl In. rewrite (IH rest (S (S i)) c) by (simpl in Hlen; lia).
        split.
        -- intros [<- | (k & w' & n' & Hk & Hk' & Hh' & ->)].
           ++ exists 0%nat, w, n. rewrite Nat.add_0_r. auto.
           ++ exists (S (S k)), w', n'. simpl.
              repeat split; auto; f_equal; lia.
        -- intros (k & w' & n' & Hk & Hk' & Hh' & ->).
           destruct k as [|[|k]].
           ++ simpl in Hk, Hk'. injection Hk as <-. injection Hk' as <-.
              left. now rewrite Nat.add_0_r.
           ++ exfalso. simpl in Hk. injection Hk as <-.
              unfold hit in Hh, Hh'.
              apply andb_true_iff in Hh as [_ Hnum].
              apply andb_true_iff in Hh' as [Hkw _].
              rewrite (numeral_not_keyword _ Hnum) in Hkw. discriminate.
           ++ right. exists k, w', n'. simpl in Hk, Hk'.
              repeat split; auto; f_equal; lia.
      * rewrite (IH (n :: rest) (S i) c) by (simpl in Hlen; simpl; lia).
        split.
        -- intros (k & w' & n' & Hk & Hk' & Hh' & ->).
           exists (S k), w', n'. simpl. repeat split; auto; f_equal; lia.
        -- intros (k & w' & n' & Hk & Hk' & Hh' & ->).
           destruct k as [|k].
           ++ simpl in Hk, Hk'. injection Hk as <-. injection Hk' as <-.
              congruence.
           ++ exists k, w', n'. simpl in Hk, Hk'.
              repeat split; auto; f_equal; lia.
Qed.

Lemma scanChapters_headings (ws : list jsstring) (c : TextProcessor.Chapter) :
  In c (TextProcessor.scanChapters up 0 ws) <-> headingAt up ws c.
Proof.
  rewrite (scanChapters_spec (List.length ws)) by lia.
  unfold headingAt. split.
  - intros (k & w & n & Hk & Hk' & Hh & ->). simpl.
    apply andb_true_iff in Hh as [Hkw Hnum].
    apply isChapterKeyword_spec in Hkw. apply numeralTest_spec in Hnum.
    exists w, n. auto.
  - intros (w & n & Hk & Hk' & Hkw & Hnum & Ht).
    apply isChapterKeyword_spec in Hkw. apply numeralTest_spec in Hnum.
    exists (TextProcessor.index c), w, n. repeat split; auto.
    + unfold hit. now rewrite Hkw, Hnum.
    + destruct c as [t i]. simpl in *. now subst t.
Qed.

End ScanFacts.

Lemma detectChapters_some (up : jsstring -> jsstring) (ws : list jsstring)
  (c : TextProcessor.Chapter) :
  In c (TextProcessor.scanChapters up 0 ws) ->
  TextProcessor.detectChapters up ws = TextProcessor.scanChapters up 0 ws.
Proof.
  unfold TextProcessor.detectChapters.
  destruct (TextProcessor.scanChapters up 0 ws); simpl; tauto.
Qed.

Lemma detectChapters_none (up : jsstring -> jsstring) (ws : list jsstring) :
  (forall c, ~ In c (TextProcessor.scanChapters up 0 ws)) ->
  TextProcessor.detectChapters up ws
  = [TextProcessor.mkChapter TextProcessor.debut 0].
Proof.
  unfold TextProcessor.detectChapters.
  destruct (TextProcessor.scanChapters up 0 ws) as [|c l]; auto.
  intros H. destruct (H c). now left.
Qed.

(* ------------------------------------------------------------------ *)
(** ** The render window *)

Lemma get_in_range {A : Type} (l : list A) (i : Z) :
  (0 <= i < Z.of_nat (List.length l))%Z -> exists x, get l i = Some x.
Proof.
  intros [H0 H1]. unfold get.
  destruct (i <? 0)%Z eqn:E; [apply Z.ltb_lt in E; lia|].
  destruct (nth_error l (Z.to_nat i)) as [x|] eqn:Hn; [eauto|].
  apply nth_error_None in Hn. lia.
Qed.

Lemma containerStyle_total (w : Headlines.Window) (screenW charWidth p : Q) :
  exists x, Headlines.containerStyle w screenW charWidth p = Some x.
Proof.
  unfold Headlines.containerStyle.
  destruct (_ || _); [eauto|].
  set (n := Z.of_nat (List.length (Headlines.windowWordOffsets w))).
  set (localIdx := (Math_floor p - Headlines.activeWindowStartWord w)%Z).
  destruct ((localIdx <? 0)%Z || (n <=? localIdx)%Z) eqn:E; [eauto|].
  apply orb_false_iff in E as [E1 E2].
  apply Z.ltb_ge in E1. apply Z.leb_gt in E2.
  destruct (get_in_range (Headlines.windowWordOffsets w) localIdx)
    as [b ->]; [fold n; lia|].
  destruct (localIdx <? n - 1)%Z eqn:E3; [|eauto].
  apply Z.ltb_lt in E3.
  destruct (get_in_range (Headlines.windowWordOffsets w) (localIdx + 1))
    as [b' ->]; [fold n; lia|].
  eauto.
Qed.

(* ================================================================== *)
(** * The claims *)

(** C10.  For every input text, the words returned by [processBookText]
    are non-empty and free of whitespace, and in every offset table that
    [updateWindow] builds from them each offset exceeds the one before it
    by at least 2. *)
Theorem C10_tokens_nonempty_offsets_grow :
  forall (up : jsstring -> jsstring) (text : jsstring),
    let ws := TextProcessor.words (TextProcessor.processBookText up text) in
    Forall goodWord ws /\
    forall (centerWord : Z) (i : nat) (a b : Z),
      let offsets :=
        Headlines.windowWordOffsets
          (Headlines.updateWindow ws centerWord Headlines.noWindow) in
      nth_error offsets i = Some a ->
      nth_error offsets (S i) = Some b ->
      (a + 2 <= b)%Z.
Proof.
  intros up text ws.
  assert (Hws : Forall goodWord ws) by apply tokenize_good.
  split; [exact Hws|].
  intros centerWord i a b offsets Ha Hb.
  subst offsets. unfold Headlines.updateWindow in Ha, Hb.
  destruct ws as [|w0 r0] eqn:Ews.
  - destruct i; discriminate Ha.
  - simpl Headlines.windowWordOffsets in Ha, Hb.
    eapply localOffsets_step; [|exact Ha|exact Hb].
    now apply Forall_slice.
Qed.

Lemma C10_tokens_nonempty_offsets_grow_witness : (0 + 2 <= 4)%Z.
Proof.
  apply (proj2 (C10_tokens_nonempty_offsets_grow
                  TextProcessor.asciiToUpperCase (lit "the quick brown fox"))
               0%Z 0%nat 0%Z 4%Z); reflexivity.
Defined.

(** C7.  For every word stream (and whatever the engine's case mapping
    is): if the stream has a heading, the chapter list holds a marker
    exactly for the headings, that is a token whose upper case is a chapter
    keyword followed by a token whose upper case is a numeral, with the two
    tokens as title and the keyword's index; without a heading the list is
    the single default marker at index 0; and ["CHAPTER"] followed by ["1"]
    at word index 57 gives the marker ["CHAPTER 1"] at 57. *)
Theorem C7_chapter_markers :
  forall (up : jsstring -> jsstring) (ws : list jsstring),
    ((exists c, headingAt up ws c) ->
     forall c, In c (TextProcessor.detectChapters up ws) <-> headingAt up ws c)
    /\
    ((~ exists c, headingAt up ws c) ->
     TextProcessor.detectChapters up ws
     = [TextProcessor.mkChapter TextProcessor.debut 0])
    /\
    (forall pre post,
       ws = pre ++ lit "CHAPTER" :: lit "1" :: post ->
       List.length pre = 57%nat ->
       up (lit "CHAPTER") = lit "CHAPTER" ->
       up (lit "1") = lit "1" ->
       In (TextProcessor.mkChapter (lit "CHAPTER 1") 57)
          (TextProcessor.detectChapters up ws)).
Proof.
  intros up ws. repeat split.
  - destruct H as [c0 H0]. apply scanChapters_headings in H0.
    rewrite (detectChapters_some _ _ _ H0). apply scanChapters_headings.
  - destruct H as [c0 H0]. apply scanChapters_headings in H0.
    rewrite (detectChapters_some _ _ _ H0). apply scanChapters_headings.
  - intros Hno. apply detectChapters_none.
    intros c Hc. apply Hno. exists c. now apply scanChapters_headings.
  - intros pre post -> Hlen Hk Hn.
    assert (Hin : In (TextProcessor.mkChapter (lit "CHAPTER 1") 57)
                     (TextProcessor.scanChapters up 0
                        (pre ++ lit "CHAPTER" :: lit "1" :: post))).
    { apply scanChapters_headings.
      exists (lit "CHAPTER"), (lit "1"). simpl TextProcessor.index.
      rewrite <- Hlen.
      rewrite nth_error_app2 by lia. rewrite Nat.sub_diag.
      replace (S (List.length pre)) with (List.length pre + 1)%nat by lia.
      rewrite nth_error_app2 by lia.
      replace (List.length pre + 1 - List.length pre)%nat with 1%nat by lia.
      rewrite Hk, Hn. repeat split.
      - now left.
      - exists (lit "1"), []. split; [reflexivity|].
        split; [discriminate|]. split; [|now left].
        left. repeat constructor. }
    now rewrite (detectChapters_some _ _ _ Hin).
Qed.

Lemma C7_chapter_markers_witness :
  In (TextProcessor.mkChapter (lit "CHAPTER 1") 57)
     (TextProcessor.detectChapters TextProcessor.asciiToUpperCase
        (repeat (lit "word") 57 ++ [lit "CHAPTER"; lit "1"; lit "Loomings."])).
Proof.
  apply (proj2 (proj2 (C7_chapter_markers TextProcessor.asciiToUpperCase _))
           (repeat (lit "word") 57) [lit "Loomings."]); reflexivity.
Defined.

(** C9 as stated fails: with an empty offset table every local index is
    outside the table, and the renderer answers translation 0, not the
    centre of a screen 400 wide. *)
Lemma C9_counterexample_empty_window :
  ~ (forall (w : Headlines.Window) (screenW charWidth progress : Q),
       outsideWindow w progress ->
       exists x, Headlines.containerStyle w screenW charWidth progress = Some x
                 /\ x == screenW / 2).
Proof.
  intros H.
  destruct (H Headlines.noWindow 400 13 5) as (x & Hx & Hq).
  - right. vm_compute. discriminate.
  - vm_compute in Hx. injection Hx as <-. vm_compute in Hq. discriminate.
Qed.

(** C9, amended.  The renderer never reads its offset table out of range.
    When the table and the window text are not empty and the local index
    [floor(cursor) - windowStart] is outside the table, the translation is
    the screen centre; when the table or the text is empty it is 0. *)
Theorem C9_window_fallback :
  forall (w : Headlines.Window) (screenW charWidth progress : Q),
    (exists x, Headlines.containerStyle w screenW charWidth progress = Some x)
    /\
    (Headlines.windowWordOffsets w <> [] ->
     Headlines.windowText w <> [] ->
     outsideWindow w progress ->
     Headlines.containerStyle w screenW charWidth progress
     = Some (screenW / 2))
    /\
    (Headlines.windowWordOffsets w = [] \/ Headlines.windowText w = [] ->
     Headlines.containerStyle w screenW charWidth progress = Some 0).
Proof.
  intros w screenW charWidth p. split; [apply containerStyle_total|].
  unfold Headlines.containerStyle, outsideWindow, len. split.
  - intros Ho Ht Hout.
    destruct (Headlines.windowWordOffsets w) as [|o os]; [congruence|].
    destruct (Headlines.windowText w) as [|c cs]; [congruence|].
    cbn [List.length]. rewrite !Nat2Z.inj_succ.
    destruct (_ =? 0)%Z eqn:E1; [apply Z.eqb_eq in E1; lia|].
    destruct (Z.succ (Z.of_nat (List.length cs)) =? 0)%Z eqn:E2;
      [apply Z.eqb_eq in E2; lia|].
    cbn [orb]. cbn [List.length] in Hout. rewrite Nat2Z.inj_succ in Hout.
    destruct Hout as [Hl|Hr].
    + apply Z.ltb_lt in Hl. now rewrite Hl.
    + apply Z.leb_le in Hr. rewrite Hr. now rewrite orb_true_r.
  - intros [-> | ->]; simpl; [reflexivity|].
    now rewrite orb_true_r.
Qed.

Lemma C9_window_fallback_witness :
  Headlines.containerStyle
    (Headlines.updateWindow foxWords 0 Headlines.noWindow) 400 13 7
  = Some (400 / 2).
Proof.
  apply (proj1 (proj2 (C9_window_fallback
           (Headlines.updateWindow foxWords 0 Headlines.noWindow) 400 13 7))).
  - discriminate.
  - discriminate.
  - right. vm_compute. discriminate.
Defined.

(** C2.  While the interacting flag is set, a frame tick of the autoplay
    loop and a boundary callback of the narration leave the whole state,
    and so the cursor, as it was; both simply return. *)
Theorem C2_interaction_blocks_drivers :
  forall (frameInfo : Reader.FrameInfo) (s : Reader.State)
         (u : ReaderTTS.Utterance) (charIndex : Z) (t : ReaderTTS.State),
    Reader.isInteracting s = true ->
    ReaderTTS.isInteracting t = true ->
    Reader.useFrameCallback frameInfo s = s /\
    ReaderTTS.onBoundary u charIndex t = t.
Proof.
  intros fi s u c t Hs Ht. split.
  - unfold Reader.useFrameCallback. rewrite Hs. now rewrite orb_true_r.
  - unfold ReaderTTS.onBoundary. now rewrite Ht.
Qed.

Lemma C2_interaction_blocks_drivers_witness :
  let s := Reader.onPanResponderGrant
             (Reader.togglePlay (Reader.initial 1000 0)) in
  Reader.useFrameCallback (tick 16) s = s /\
  ReaderTTS.onBoundary foxUtterance 10 (foxState true) = foxState true.
Proof.
  apply C2_interaction_blocks_drivers; reflexivity.
Defined.

(** Projections of an updated reader state. *)
Ltac reader_simpl :=
  cbn [Reader.progress Reader.animation Reader.isInteracting
       Reader.contentLength Reader.waitTimer Reader.targetIndex Reader.wpm
       Reader.savedWpm Reader.isTickerMode Reader.baseIndex
       Reader.startProgressRef Reader.isManualTransition
       Reader.setProgress Reader.animate Reader.setInteracting
       Reader.setWaitTimer Reader.setTargetIndex Reader.setWpm
       Reader.setSavedWpm Reader.setIsTickerMode Reader.setBaseIndex
       Reader.setStartProgressRef Reader.setIsManualTransition
       Reader.cancelAnimation Reader.snapFinished Reader.snapToNearest
       tick Reader.timeSincePreviousFrame] in *.

(* ------------------------------------------------------------------ *)
(** ** Clamping, as the handlers write it *)

Lemma Qmax_cases (x lo : Q) :
  x < lo /\ Qmax x lo == lo \/ lo <= x /\ Qmax x lo == x.
Proof.
  destruct (Q.max_spec x lo) as [[H E]|[H E]]; [left|right]; split; auto.
Qed.

Lemma clamp_cases (x lo hi : Q) :
  hi <= Qmax x lo /\ clamp x lo hi == hi \/
  Qmax x lo < hi /\ clamp x lo hi == Qmax x lo.
Proof.
  unfold clamp.
  destruct (Q.min_spec (Qmax x lo) hi) as [[H E]|[H E]]; [right|left];
    split; auto.
Qed.

(** The two-test clamp of [onPanResponderMove]. *)
Lemma clamp_by_lt (x x' lo hi : Q) :
  x == x' ->
  let v := if ltb x lo then lo else x in
  (if ltb hi v then hi else v) == clamp x' lo hi.
Proof.
  intros E v. subst v.
  destruct (clamp_cases x' lo hi) as [[H1 ->]|[H1 ->]];
    destruct (Qmax_cases x' lo) as [[H2 E2]|[H2 E2]];
    rewrite E2 in *;
    destruct (ltb x lo) eqn:A;
    try (apply ltb_true_iff in A); try (apply ltb_false_iff in A);
    match goal with |- (if ltb ?a ?b then _ else _) == _ =>
      destruct (ltb a b) eqn:B end;
    try (apply ltb_true_iff in B); try (apply ltb_false_iff in B);
    lra.
Qed.

(** The clamp of the ticker branch, which tests the upper bound with [>=]. *)
Lemma clamp_by_le (x x' lo hi : Q) :
  x == x' ->
  let v := if ltb x lo then lo else x in
  (if leb hi v then hi else v) == clamp x' lo hi.
Proof.
  intros E v. subst v.
  destruct (clamp_cases x' lo hi) as [[H1 ->]|[H1 ->]];
    destruct (Qmax_cases x' lo) as [[H2 E2]|[H2 E2]];
    rewrite E2 in *;
    destruct (ltb x lo) eqn:A;
    try (apply ltb_true_iff in A); try (apply ltb_false_iff in A);
    match goal with |- (if leb ?a ?b then _ else _) == _ =>
      destruct (leb a b) eqn:B end;
    try (apply leb_true_iff in B); try (apply leb_false_iff in B);
    lra.
Qed.

Lemma clamp_inside (x y lo hi : Q) :
  x == y -> lo <= y -> y <= hi -> clamp x lo hi == y.
Proof.
  intros E H1 H2.
  destruct (clamp_cases x lo hi) as [[H3 ->]|[H3 ->]];
    destruct (Qmax_cases x lo) as [[H4 E4]|[H4 E4]]; rewrite E4 in *; lra.
Qed.

(* ------------------------------------------------------------------ *)
(** ** The pan responder *)

Lemma move_progress (g : Reader.GestureState) (s : Reader.State) :
  Reader.progress (Reader.onPanResponderMove g s)
  == clamp (Reader.startProgressRef s
            + - translation g s * (2 # 100) * modeFactor s)
           0 (lastIndex s).
Proof.
  unfold Reader.onPanResponderMove, translation, modeFactor, lastIndex.
  cbn [Reader.progress Reader.setProgress].
  apply clamp_by_lt.
  destruct (Reader.isTickerMode s); lra.
Qed.



(* ------------------------------------------------------------------ *)
(** ** The ticker branch of the animation loop *)

Lemma autoplaying_runs (ticker : bool) (s : Reader.State)
  (fi : Reader.FrameInfo) :
  autoplaying ticker s ->
  Reader.useFrameCallback fi s
  = if ticker then Reader.tickerFrame fi s else Reader.rsvpFrame fi s.
Proof.
  intros (Hw & Hi & Hm). unfold Reader.useFrameCallback.
  apply isZero_false_iff in Hw. rewrite Hw, Hi, Hm. reflexivity.
Qed.

Lemma tickerFrame_progress (fi : Reader.FrameInfo) (s : Reader.State) :
  Reader.progress (Reader.tickerFrame fi s)
  == clamp (Reader.progress s
            + Reader.wpm s / 60000
              * Qmin (orElse (Reader.timeSincePreviousFrame fi) 16) 50)
           0 (lastIndex s).
Proof.
  unfold Reader.tickerFrame, lastIndex.
  cbn [Reader.progress Reader.setProgress Reader.setTargetIndex
       Reader.contentLength].
  set (x := Reader.progress s + _).
  set (last := inject_Z (Reader.contentLength s - 1)).
  assert (E : x == Reader.progress s
                   + Reader.wpm s / 60000
                     * Qmin (orElse (Reader.timeSincePreviousFrame fi) 16) 50).
  { subst x. now rewrite Math_min_Qmin. }
  rewrite <- (clamp_by_le x _ 0 last E).
  destruct (ltb x 0); cbn [Reader.progress Reader.setProgress];
    destruct (leb last _); reflexivity.
Qed.

Lemma tickerFrame_wpm (fi : Reader.FrameInfo) (s : Reader.State) :
  let x := Reader.progress s
           + Reader.wpm s / 60000
             * Qmin (orElse (Reader.timeSincePreviousFrame fi) 16) 50 in
  (lastIndex s <= Qmax x 0 -> Reader.wpm (Reader.tickerFrame fi s) = 0) /\
  (Qmax x 0 < lastIndex s ->
   Reader.wpm (Reader.tickerFrame fi s) = Reader.wpm s).
Proof.
  intros x. unfold Reader.tickerFrame, lastIndex.
  cbn [Reader.progress Reader.setProgress Reader.setTargetIndex
       Reader.contentLength].
  set (y := Reader.progress s + _).
  set (last := inject_Z (Reader.contentLength s - 1)).
  assert (E : y == x). { subst x y. now rewrite Math_min_Qmin. }
  destruct (Qmax_cases x 0) as [[H2 E2]|[H2 E2]]; rewrite E2;
    destruct (ltb y 0) eqn:A;
    try (apply ltb_true_iff in A); try (apply ltb_false_iff in A);
    cbn [Reader.progress Reader.setProgress];
    match goal with |- context [leb ?a ?b] => destruct (leb a b) eqn:B end;
    try (apply leb_true_iff in B); try (apply leb_false_iff in B);
    cbn [Reader.wpm Reader.setWpm Reader.setProgress Reader.setTargetIndex];
    split; intros; try reflexivity; lra.
Qed.

Lemma tickerFrame_keeps (fi : Reader.FrameInfo) (s : Reader.State) :
  Reader.isInteracting (Reader.tickerFrame fi s) = Reader.isInteracting s /\
  Reader.isTickerMode (Reader.tickerFrame fi s) = Reader.isTickerMode s /\
  Reader.contentLength (Reader.tickerFrame fi s) = Reader.contentLength s.
Proof.
  unfold Reader.tickerFrame.
  destruct (ltb _ 0); cbn [Reader.progress Reader.setProgress];
    destruct (leb _ _); repeat split.
Qed.

Lemma orElse_nonzero (dt d : Q) : ~ dt == 0 -> orElse (Some dt) d = dt.
Proof.
  intros H. unfold orElse. apply isZero_false_iff in H. now rewrite H.
Qed.

Lemma ticks_S (n : nat) (fi : Reader.FrameInfo) (s : Reader.State) :
  ticks (S n) fi s = Reader.useFrameCallback fi (ticks n fi s).
Proof. reflexivity. Qed.

Lemma ticks_0 (fi : Reader.FrameInfo) (s : Reader.State) : ticks 0 fi s = s.
Proof. reflexivity. Qed.

(* ------------------------------------------------------------------ *)
(** ** The ticker branch in binary64 *)

Section Binary64.
Import PrimFloat.
Local Open Scope float_scope.

Ltac reader64_simpl :=
  cbn [Reader64.progress Reader64.isInteracting Reader64.contentLength
       Reader64.waitTimer Reader64.targetIndex Reader64.wpm
       Reader64.isTickerMode Reader64.setProgress Reader64.setWaitTimer
       Reader64.setTargetIndex Reader64.setWpm
       Reader64.timeSincePreviousFrame Props64.tick] in *.

(** The test [increment === increment && isFinite(increment)] is the test
    [isFinite(increment)]. *)
Lemma guard_is_finite (x : float) : ((x =? x) && is_finite x) = is_finite x.
Proof.
  unfold is_finite, is_nan. destruct (x =? x); reflexivity.
Qed.




End Binary64.

(* ------------------------------------------------------------------ *)
(** ** The word-by-word branch of the animation loop *)

Lemma rsvp_cycle (s : Reader.State) :
  autoplaying false s ->
  60000 / (if isZero (Reader.wpm s) then 300 else Reader.wpm s)
  = 60000 / Reader.wpm s.
Proof.
  intros (Hw & _). apply isZero_false_iff in Hw. now rewrite Hw.
Qed.

Lemma rsvp_hold (fi : Reader.FrameInfo) (s : Reader.State) :
  autoplaying false s ->
  Reader.waitTimer s < 60000 / Reader.wpm s ->
  Reader.useFrameCallback fi s
  = Reader.setWaitTimer
      (Reader.waitTimer s + orElse (Reader.timeSincePreviousFrame fi) 16)
      (Reader.setProgress (inject_Z (Reader.targetIndex s)) s).
Proof.
  intros Ha Hlt. rewrite (autoplaying_runs false s fi Ha).
  unfold Reader.rsvpFrame. rewrite (rsvp_cycle s Ha).
  apply ltb_true_iff in Hlt. rewrite Hlt. reflexivity.
Qed.

Lemma rsvp_advance (fi : Reader.FrameInfo) (s : Reader.State) :
  autoplaying false s ->
  60000 / Reader.wpm s <= Reader.waitTimer s ->
  Reader.useFrameCallback fi s
  = let s3 := Reader.setProgress (inject_Z (Reader.targetIndex s + 1))
                (Reader.setTargetIndex (Reader.targetIndex s + 1)
                   (Reader.setWaitTimer 0 s)) in
    if (Reader.contentLength s <=? Reader.targetIndex s + 1)%Z
    then Reader.setWpm 0 s3 else s3.
Proof.
  intros Ha Hge. rewrite (autoplaying_runs false s fi Ha).
  unfold Reader.rsvpFrame. rewrite (rsvp_cycle s Ha).
  apply ltb_false_iff in Hge. rewrite Hge. reflexivity.
Qed.

(** Ticks of 16 ms at 300 words a minute, from an empty wait timer: the
    thirteenth tick brings the timer to 208 ms, past the dwell of 200 ms,
    and the fourteenth advances the target and empties the timer. *)
Lemma rsvp_ticks16 (n : nat) :
  forall s,
    autoplaying false s -> Reader.wpm s == 300 -> Reader.waitTimer s == 0 ->
    (Reader.targetIndex s + Z.of_nat n / 14 < Reader.contentLength s)%Z ->
    let s' := ticks n (tick 16) s in
    autoplaying false s' /\ Reader.wpm s' == 300 /\
    Reader.contentLength s' = Reader.contentLength s /\
    Reader.targetIndex s' = (Reader.targetIndex s + Z.of_nat n / 14)%Z /\
    Reader.waitTimer s' == inject_Z (16 * (Z.of_nat n mod 14)).
Proof.
  induction n as [|n IH]; intros s Ha Hw Ht Hb; cbv zeta.
  - rewrite ticks_0. repeat split; try apply Ha; auto;
      try (change (Z.of_nat 0 / 14)%Z with 0%Z; lia);
      try (rewrite Ht; reflexivity).
  - rewrite Nat2Z.inj_succ in *. unfold Z.succ in *.
    assert (Hm : (0 <= Z.of_nat n)%Z) by lia.
    set (m := Z.of_nat n) in *.
    destruct (IH s Ha Hw Ht) as (Ha' & Hw' & Hc' & Hi' & Hwt').
    { Z.div_mod_to_equations. lia. }
    rewrite ticks_S. set (s1 := ticks n (tick 16) s) in *.
    assert (Hd : 60000 / Reader.wpm s1 == 200) by (rewrite Hw'; reflexivity).
    destruct (Z_lt_dec (m mod 14) 13) as [Hr|Hr].
    + assert (E : ((m + 1) mod 14 = m mod 14 + 1)%Z)
        by (Z.div_mod_to_equations; lia).
      assert (E' : ((m + 1) / 14 = m / 14)%Z)
        by (Z.div_mod_to_equations; lia).
      rewrite rsvp_hold; [|exact Ha'|].
      * unfold autoplaying in *. reader_simpl.
        rewrite orElse_nonzero by discriminate.
        repeat split; try apply Ha'; auto.
        -- congruence.
        -- rewrite Hwt', E, Z.mul_add_distr_l, inject_Z_plus. reflexivity.
      * rewrite Hd, Hwt'. change 200 with (inject_Z 200).
        rewrite <- Zlt_Qlt. lia.
    + assert (E : ((m + 1) mod 14 = 0)%Z)
        by (Z.div_mod_to_equations; lia).
      assert (E' : ((m + 1) / 14 = m / 14 + 1)%Z)
        by (Z.div_mod_to_equations; lia).
      rewrite rsvp_advance; [|exact Ha'|].
      * cbv zeta.
        destruct (Reader.contentLength s1 <=? Reader.targetIndex s1 + 1)%Z
          eqn:Hend; [apply Z.leb_le in Hend; lia|].
        unfold autoplaying in *. reader_simpl.
        repeat split; try apply Ha'; auto.
        -- lia.
        -- rewrite E. reflexivity.
      * rewrite Hd, Hwt'. change 200 with (inject_Z 200).
        rewrite <- Zle_Qle. Z.div_mod_to_equations. lia.
Qed.

(** A state in which the word-by-word autoplay runs at 300 words a
    minute. *)
Lemma rsvp_sample_autoplaying :
  autoplaying false (Reader.togglePlay (Reader.initial 1000 0)).
Proof.
  repeat split. intros E. vm_compute in E. discriminate E.
Qed.




Lemma clamp_bounds (x lo hi : Q) :
  lo <= hi -> lo <= clamp x lo hi /\ clamp x lo hi <= hi.
Proof.
  intros H.
  destruct (clamp_cases x lo hi) as [[H3 ->]|[H3 ->]];
    destruct (Qmax_cases x lo) as [[H4 E4]|[H4 E4]]; rewrite E4 in *;
    split; lra.
Qed.

(** With at least one word loaded, the ticker branch, the gesture move and
    the seek slider keep the cursor between 0 and [N - 1]. *)
Lemma bounded_paths (s : Reader.State) :
  (1 <= Reader.contentLength s)%Z ->
  (forall fi, 0 <= Reader.progress (Reader.tickerFrame fi s) /\
              Reader.progress (Reader.tickerFrame fi s) <= lastIndex s) /\
  (forall g, 0 <= Reader.progress (Reader.onPanResponderMove g s) /\
             Reader.progress (Reader.onPanResponderMove g s) <= lastIndex s) /\
  (forall v, 0 <= Reader.progress (Reader.onSeek v s) /\
             Reader.progress (Reader.onSeek v s) <= lastIndex s).
Proof.
  intros HN.
  assert (Hlast : 0 <= lastIndex s).
  { unfold lastIndex. change 0 with (inject_Z 0). rewrite <- Zle_Qle. lia. }
  repeat split.
  - rewrite tickerFrame_progress. now apply clamp_bounds.
  - rewrite tickerFrame_progress. now apply clamp_bounds.
  - rewrite move_progress. now apply clamp_bounds.
  - rewrite move_progress. now apply clamp_bounds.
  - unfold Reader.onSeek. reader_simpl.
    change 0 with (inject_Z 0). rewrite <- Zle_Qle. lia.
  - unfold Reader.onSeek, lastIndex. reader_simpl.
    rewrite <- Zle_Qle. lia.
Qed.

(** Word-by-word autoplay at 300 words a minute from the first word of a
    book of 1000: the target index after 2.05 s depends on the frame rate.
    It is 9 with ticks of 16 ms (128 ticks, and still after a 129th) and of
    10 ms (205 ticks), and 10 only with ticks as short as 5 ms. *)
Lemma rsvp_frame_rates :
  let s := Reader.togglePlay (Reader.initial 1000 0) in
  Reader.targetIndex (ticks 128 (tick 16) s) = 9%Z /\
  Reader.targetIndex (ticks 129 (tick 16) s) = 9%Z /\
  Reader.targetIndex (ticks 205 (tick 10) s) = 9%Z /\
  Reader.targetIndex (ticks 410 (tick 5) s) = 10%Z.
Proof.
  vm_compute. repeat split.
Qed.

(** C1 fails on the code.  With one word loaded, play in word-by-word
    mode and fourteen frames of 16 ms leave the cursor at 1, beyond the
    last index 0; with no word loaded, play in ticker mode and one frame
    leave it at -1. *)
Theorem C1_cursor_leaves_bounds :
  forall decayFrame : Q -> Q * Q -> Q -> Q -> Q * Q * bool,
    (let s := Reader.run decayFrame (Reader.initial 1 0)
                (Reader.TogglePlay :: repeat (Reader.Frame (tick 16)) 14) in
     Reader.contentLength s = 1%Z /\ Reader.progress s == 1 /\
     ~ Reader.progress s <= Qmax 0 (lastIndex s))
    /\
    (let s := Reader.run decayFrame (Reader.initial 0 0)
                [Reader.ToggleTickerMode; Reader.TogglePlay;
                 Reader.Frame (tick 16)] in
     Reader.contentLength s = 0%Z /\ Reader.progress s == - (1) /\
     ~ 0 <= Reader.progress s).
Proof.
  intros decayFrame. split; cbv zeta; vm_compute; repeat split;
    try congruence; intros H; apply H; reflexivity.
Qed.

(* ------------------------------------------------------------------ *)
(** ** Release and settling *)

Lemma Math_round_nearest (x : Q) :
  Qabs (inject_Z (Math_round x) - x) <= 1 # 2.
Proof.
  unfold Math_round.
  pose proof (Qfloor_le (x + (1 # 2))) as Hlo.
  pose proof (Qlt_floor (x + (1 # 2))) as Hhi.
  rewrite inject_Z_plus in Hhi. change (inject_Z 1) with 1 in Hhi.
  apply Qabs_Qle_condition. split; lra.
Qed.

Lemma moves_keep_wpm (moves : list Reader.GestureState) :
  forall s,
    Reader.wpm (fold_left (fun st g => Reader.onPanResponderMove g st) moves s)
    = Reader.wpm s.
Proof.
  induction moves as [|g r IH]; intros s; simpl; [reflexivity|].
  rewrite IH. reflexivity.
Qed.

Lemma drag_pauses (moves : list Reader.GestureState) (s : Reader.State) :
  Reader.wpm (drag moves s) = 0.
Proof.
  unfold drag. rewrite moves_keep_wpm. reflexivity.
Qed.

Section Settling.

Variable decayFrame : Q -> Q * Q -> Q -> Q -> Q * Q * bool.

Lemma paused_frame_callback (fi : Reader.FrameInfo) (s : Reader.State) :
  isZero (Reader.wpm s) = true -> Reader.useFrameCallback fi s = s.
Proof.
  intros H. unfold Reader.useFrameCallback. now rewrite H.
Qed.

Lemma idle_frames (fis : list Reader.FrameInfo) :
  forall s,
    Reader.animation s = None -> isZero (Reader.wpm s) = true ->
    Reader.run decayFrame s (map Reader.Frame fis) = s.
Proof.
  induction fis as [|fi r IH]; intros s Hn Hw; [reflexivity|].
  unfold Reader.run in *. cbn [map fold_left Reader.step].
  unfold Reader.frame, Reader.animationFrame. rewrite Hn.
  rewrite paused_frame_callback by assumption. now apply IH.
Qed.

Lemma snap_frame (fi : Reader.FrameInfo) (s : Reader.State)
  (v0 : Q) (nearest : Z) (runtime : Q) :
  Reader.animation s = Some (Reader.SnapTiming v0 nearest runtime) ->
  isZero (Reader.wpm s) = true ->
  Reader.frame decayFrame fi s
  = if leb 150 (runtime + elapsed fi)
    then Reader.snapFinished nearest
           (Reader.animate (inject_Z nearest) None s)
    else Reader.animate
           (v0 + (inject_Z nearest - v0)
                 * Reader.easeOutQuad ((runtime + elapsed fi) / 150))
           (Some (Reader.SnapTiming v0 nearest (runtime + elapsed fi))) s.
Proof.
  intros Ha Hw. unfold Reader.frame, Reader.animationFrame. rewrite Ha.
  fold (elapsed fi). unfold Reader.SNAP_DURATION.
  destruct (leb 150 (runtime + elapsed fi));
    apply paused_frame_callback; reader_simpl; assumption.
Qed.

(** Frames of a running snap: once their elapsed times bring the run time
    to 150 ms the cursor is the integer that the snap aims at, and the
    gesture is over. *)
Lemma snap_settles (fis : list Reader.FrameInfo) :
  forall s v0 nearest runtime,
    Reader.animation s = Some (Reader.SnapTiming v0 nearest runtime) ->
    isZero (Reader.wpm s) = true ->
    runtime < 150 ->
    150 <= runtime + totalElapsed fis ->
    let s' := Reader.run decayFrame s (map Reader.Frame fis) in
    Reader.progress s' = inject_Z nearest /\
    Reader.isInteracting s' = false /\
    Reader.animation s' = None /\
    Reader.targetIndex s' = nearest.
Proof.
  induction fis as [|fi r IH]; intros s v0 nearest runtime Ha Hw Hr Ht;
    cbn [totalElapsed] in Ht.
  - lra.
  - cbv zeta.
    assert (Hrun : Reader.run decayFrame s (map Reader.Frame (fi :: r))
                   = Reader.run decayFrame (Reader.frame decayFrame fi s)
                       (map Reader.Frame r)) by reflexivity.
    rewrite Hrun, (snap_frame fi s v0 nearest runtime Ha Hw).
    destruct (leb 150 (runtime + elapsed fi)) eqn:E.
    + rewrite idle_frames by (reader_simpl; auto).
      reader_simpl. auto.
    + apply leb_false_iff in E.
      eapply IH.
      * reader_simpl. reflexivity.
      * reader_simpl. assumption.
      * exact E.
      * lra.
Qed.

Lemma slow_release_snaps (g : Reader.GestureState) (s : Reader.State) :
  Qabs (Reader.releaseVelocity g s) < 1 # 2 ->
  Reader.animation (Reader.onPanResponderRelease g s)
  = Some (Reader.SnapTiming (Reader.progress s)
            (Math_round (Reader.progress s)) 0) /\
  Reader.wpm (Reader.onPanResponderRelease g s) = Reader.wpm s.
Proof.
  intros Hv. unfold Reader.onPanResponderRelease, Math_abs.
  assert (E : ltb (Qabs (Reader.releaseVelocity g s)) (5 # 10) = true).
  { apply ltb_true_iff. lra. }
  rewrite E. reader_simpl. auto.
Qed.

End Settling.

(** C6.  A gesture released with an exit velocity of absolute value below
    0.5 starts the snap to the integer nearest to the cursor; once the
    frames after the release add up to the 150 ms of the snap, the cursor
    is exactly that integer, at most half a word away from where the
    gesture left it, and the interaction is over. *)
Theorem C6_slow_release_settles_on_integer :
  forall (decayFrame : Q -> Q * Q -> Q -> Q -> Q * Q * bool)
         (s0 : Reader.State) (moves : list Reader.GestureState)
         (g : Reader.GestureState) (fis : list Reader.FrameInfo),
    let s := drag moves s0 in
    Qabs (Reader.releaseVelocity g s) < 1 # 2 ->
    150 <= totalElapsed fis ->
    let s' := Reader.run decayFrame (Reader.onPanResponderRelease g s)
                (map Reader.Frame fis) in
    Reader.progress s' = inject_Z (Math_round (Reader.progress s)) /\
    Qabs (Reader.progress s' - Reader.progress s) <= 1 # 2 /\
    Reader.isInteracting s' = false /\
    Reader.animation s' = None.
Proof.
  intros decayFrame s0 moves g fis s Hv Ht s'.
  destruct (slow_release_snaps g s Hv) as [Ha Hw].
  destruct (snap_settles decayFrame fis
              (Reader.onPanResponderRelease g s) _ _ 0 Ha) as (P & I & A & _).
  - rewrite Hw. subst s. now rewrite drag_pauses.
  - lra.
  - lra.
  - fold s' in P, I, A. repeat split; auto.
    rewrite P. apply Math_round_nearest.
Qed.

Lemma C6_slow_release_settles_on_integer_witness :
  let s := drag [Reader.mkGesture 0 (- (130)) 0 0] (Reader.initial 1000 0) in
  let s' := Reader.run stillDecay
              (Reader.onPanResponderRelease (Reader.mkGesture 0 0 0 (1 # 100)) s)
              (map Reader.Frame (repeat (tick 16) 10)) in
  Reader.progress s' = inject_Z (Math_round (Reader.progress s)) /\
  Qabs (Reader.progress s' - Reader.progress s) <= 1 # 2 /\
  Reader.isInteracting s' = false /\
  Reader.animation s' = None.
Proof.
  apply (C6_slow_release_settles_on_integer stillDecay (Reader.initial 1000 0)
           [Reader.mkGesture 0 (- (130)) 0 0]
           (Reader.mkGesture 0 0 0 (1 # 100)) (repeat (tick 16) 10));
    vm_compute; congruence.
Defined.

(* ------------------------------------------------------------------ *)
(** ** Narration: from a character offset to a word offset *)

Lemma splitWs_length_tok (s : jsstring) :
  forall inSep tok tok',
    List.length (splitWs inSep tok s) = List.length (splitWs inSep tok' s).
Proof.
  induction s as [|c r IH]; intros inSep tok tok'; simpl; [reflexivity|].
  destruct (isSpace c); [destruct inSep; reflexivity|apply IH].
Qed.

Lemma splitWs_length_pos (s : jsstring) :
  forall inSep tok, (1 <= List.length (splitWs inSep tok s))%nat.
Proof.
  induction s as [|c r IH]; intros inSep tok; simpl; [lia|].
  destruct (isSpace c); [destruct inSep; simpl; auto with arith|apply IH].
Qed.

Lemma splitWs_spacefree_one (w : jsstring) :
  Forall (fun c => isSpace c = false) w ->
  forall inSep tok, List.length (splitWs inSep tok w) = 1%nat.
Proof.
  induction 1 as [|c w Hc Hw IH]; intros inSep tok; simpl; [reflexivity|].
  rewrite Hc. apply IH.
Qed.

Lemma splitWs_after_word (w : jsstring) :
  Forall (fun c => isSpace c = false) w ->
  forall tok s,
    List.length (splitWs false tok (w ++ s))
    = List.length (splitWs false [] s).
Proof.
  induction 1 as [|c w Hc Hw IH]; intros tok s; simpl.
  - apply splitWs_length_tok.
  - rewrite Hc. apply IH.
Qed.

Lemma splitWs_fresh_start (s : jsstring) :
  match s with c :: _ => isSpace c = false | [] => True end ->
  List.length (splitWs true [] s) = List.length (splitWs false [] s).
Proof.
  destruct s as [|c r]; simpl; [reflexivity|]. intros ->. reflexivity.
Qed.

Lemma join_cons2 (w w2 : jsstring) (r : list jsstring) :
  join (w :: w2 :: r) = w ++ 32%N :: join (w2 :: r).
Proof. reflexivity. Qed.

Lemma firstn_join_head (ws : list jsstring) (c : nat) :
  Forall goodWord ws ->
  match firstn c (join ws) with
  | x :: _ => isSpace x = false
  | [] => True
  end.
Proof.
  intros H. destruct H as [|w r [Hne Hsp] Hr]; [now destruct c|].
  destruct w as [|a w']; [congruence|].
  inversion Hsp; subst.
  destruct r; destruct c; simpl; auto.
Qed.

(** The count of separators before the offset, which is what [onBoundary]
    computes, is the index that the scan of the offset table finds. *)
Lemma words_offset (ws : list jsstring) :
  Forall goodWord ws ->
  forall (c : nat) (acc : Z) (i idx : nat),
    ws <> [] ->
    ReaderTTS.scanOffsets (acc + Z.of_nat c) i idx
      (Headlines.localOffsets acc ws)
    = (i + (List.length (split (firstn c (join ws))) - 1))%nat.
Proof.
  induction 1 as [|w r [Hne Hsp] Hr IH]; intros c acc i idx Hnil;
    [congruence|].
  cbn [Headlines.localOffsets ReaderTTS.scanOffsets].
  assert (E0 : (acc + Z.of_nat c <? acc)%Z = false) by (apply Z.ltb_ge; lia).
  rewrite E0. unfold split.
  destruct r as [|w2 r2].
  - cbn [Headlines.localOffsets ReaderTTS.scanOffsets join].
    rewrite splitWs_spacefree_one by now apply Forall_firstn_keep.
    lia.
  - rewrite join_cons2, firstn_app.
    destruct (le_lt_dec c (List.length w)) as [Hc|Hc].
    + cbn [Headlines.localOffsets ReaderTTS.scanOffsets].
      assert (E1 : (acc + Z.of_nat c <? acc + len w + 1)%Z = true)
        by (apply Z.ltb_lt; unfold len; lia).
      rewrite E1.
      replace (c - List.length w)%nat with 0%nat by lia.
      cbn [firstn]. rewrite app_nil_r.
      rewrite splitWs_spacefree_one by now apply Forall_firstn_keep.
      lia.
    + set (c' := (c - List.length w - 1)%nat).
      replace (acc + Z.of_nat c)%Z with (acc + len w + 1 + Z.of_nat c')%Z
        by (unfold len; lia).
      rewrite IH by discriminate.
      replace (firstn c w) with w by (symmetry; apply firstn_all2; lia).
      replace (c - List.length w)%nat with (S c') by lia.
      cbn [firstn].
      rewrite splitWs_after_word by assumption.
      cbn [splitWs]. change (isSpace 32) with true. cbv iota.
      cbn [List.length].
      rewrite splitWs_fresh_start by now apply firstn_join_head.
      unfold split.
      pose proof (splitWs_length_pos (firstn c' (join (w2 :: r2))) false []).
      lia.
Qed.

Lemma substring0_firstn (s : jsstring) (e : Z) :
  (0 <= e)%Z -> substring0 s e = firstn (Z.to_nat e) s.
Proof.
  intros He. unfold substring0, len. rewrite Z.max_l by lia.
  destruct (Z_le_dec e (Z.of_nat (List.length s))) as [H|H].
  - now rewrite Z.min_l by lia.
  - rewrite Z.min_r by lia. rewrite Nat2Z.id.
    rewrite !firstn_all2; auto; lia.
Qed.

Lemma onBoundary_refines (u : ReaderTTS.Utterance) (charIndex : Z)
  (s : ReaderTTS.State) (chunk : list jsstring) :
  Forall goodWord chunk ->
  ReaderTTS.textToRead u = join chunk ->
  ReaderTTS.isInteracting s = false ->
  ReaderTTS.progress (ReaderTTS.onBoundary u charIndex s)
  = inject_Z (ReaderTTS.startIndex u
              + ReaderTTS.specWordOffset chunk charIndex).
Proof.
  intros Hg Ht Hi. unfold ReaderTTS.onBoundary. rewrite Hi, Ht.
  cbn [ReaderTTS.progress]. do 2 f_equal.
  unfold ReaderTTS.specWordOffset.
  destruct (Z_lt_dec charIndex 0) as [Hneg|Hpos].
  - unfold substring0. rewrite Z.max_r by lia.
    rewrite Z.min_l by (unfold len; lia). cbn [Z.to_nat firstn].
    destruct chunk as [|w r]; [reflexivity|].
    cbn [Headlines.localOffsets ReaderTTS.scanOffsets].
    apply Z.ltb_lt in Hneg. rewrite Hneg. reflexivity.
  - rewrite substring0_firstn by lia.
    destruct chunk as [|w r].
    + cbn [join]. rewrite firstn_nil. reflexivity.
    + pose proof (words_offset (w :: r) Hg (Z.to_nat charIndex) 0 0 0) as E.
      rewrite Z2Nat.id in E by lia. cbn [Z.add] in E.
      rewrite E by discriminate.
      pose proof (splitWs_length_pos
                    (firstn (Z.to_nat charIndex) (join (w :: r))) false []).
      unfold split in *. lia.
Qed.

Lemma startSpeaking_chunk (s : ReaderTTS.State) (u : ReaderTTS.Utterance) :
  ReaderTTS.startSpeaking s = Some u ->
  ReaderTTS.startIndex u = Math_round (ReaderTTS.progress s) /\
  ReaderTTS.textToRead u = join (ReaderTTS.chunkWords s u).
Proof.
  unfold ReaderTTS.startSpeaking, ReaderTTS.chunkWords.
  destruct (_ || _); [discriminate|].
  destruct (_ <=? _)%Z; [discriminate|].
  intros H. injection H as <-. auto.
Qed.

(** Events leave the interaction flag as it is, so that after any boundary
    events the cursor is where the last of them put it. *)
Lemma onBoundary_flag (u : ReaderTTS.Utterance) (charIndex : Z)
  (s : ReaderTTS.State) :
  ReaderTTS.isInteracting (ReaderTTS.onBoundary u charIndex s)
  = ReaderTTS.isInteracting s.
Proof.
  unfold ReaderTTS.onBoundary.
  destruct (ReaderTTS.isInteracting s) eqn:E; [exact E|reflexivity].
Qed.

Lemma boundaries_flag (u : ReaderTTS.Utterance) (events : list Z) :
  forall s,
    ReaderTTS.isInteracting
      (fold_left (fun st c => ReaderTTS.onBoundary u c st) events s)
    = ReaderTTS.isInteracting s.
Proof.
  induction events as [|c r IH]; intros s; cbn [fold_left]; [reflexivity|].
  now rewrite IH, onBoundary_flag.
Qed.

Lemma boundaries_last (u : ReaderTTS.Utterance) (events : list Z)
  (charIndex : Z) (s : ReaderTTS.State) :
  fold_left (fun st c => ReaderTTS.onBoundary u c st) (events ++ [charIndex]) s
  = ReaderTTS.onBoundary u charIndex
      (fold_left (fun st c => ReaderTTS.onBoundary u c st) events s).
Proof. now rewrite fold_left_app. Qed.

(** C8.  The chunk that a narration speaks is the join of the words from
    the rounded cursor on.  Every boundary event of that narration that
    arrives while no gesture holds the cursor, in whatever state the
    earlier events and the other drivers have left, sets the cursor to
    [chunkStart + wordOffset], where [wordOffset] is the position found by
    scanning the per-word cumulative character offsets of the chunk; so
    does the last of any sequence of events.  For the chunk text
    ["the quick brown fox"] and [charIndex = 10] the cursor is set to
    [chunkStart + 2]. *)
Theorem C8_boundary_to_word_offset :
  forall (text : jsstring) (s0 : ReaderTTS.State) (u : ReaderTTS.Utterance),
    ReaderTTS.content s0 = TextProcessor.tokenize text ->
    ReaderTTS.startSpeaking s0 = Some u ->
    let chunk := ReaderTTS.chunkWords s0 u in
    ReaderTTS.startIndex u = Math_round (ReaderTTS.progress s0) /\
    ReaderTTS.textToRead u = join chunk /\
    (forall (s : ReaderTTS.State) (charIndex : Z),
       ReaderTTS.isInteracting s = false ->
       ReaderTTS.progress (ReaderTTS.onBoundary u charIndex s)
       = inject_Z (ReaderTTS.startIndex u
                   + ReaderTTS.specWordOffset chunk charIndex)) /\
    (forall (s : ReaderTTS.State) (events : list Z) (charIndex : Z),
       ReaderTTS.isInteracting s = false ->
       ReaderTTS.progress
         (fold_left (fun st c => ReaderTTS.onBoundary u c st)
                    (events ++ [charIndex]) s)
       = inject_Z (ReaderTTS.startIndex u
                   + ReaderTTS.specWordOffset chunk charIndex)) /\
    (ReaderTTS.textToRead u = lit "the quick brown fox" ->
     ReaderTTS.specWordOffset chunk 10 = 2%Z /\
     forall s : ReaderTTS.State,
       ReaderTTS.isInteracting s = false ->
       ReaderTTS.progress (ReaderTTS.onBoundary u 10 s)
       = inject_Z (ReaderTTS.startIndex u + 2)).
Proof.
  intros text s0 u Hc Hs chunk.
  destruct (startSpeaking_chunk s0 u Hs) as [Hstart Ht]. fold chunk in Ht.
  assert (Hgood : Forall goodWord chunk).
  { subst chunk. unfold ReaderTTS.chunkWords. apply Forall_slice.
    rewrite Hc. apply tokenize_good. }
  assert (Hone : forall (s : ReaderTTS.State) (charIndex : Z),
             ReaderTTS.isInteracting s = false ->
             ReaderTTS.progress (ReaderTTS.onBoundary u charIndex s)
             = inject_Z (ReaderTTS.startIndex u
                         + ReaderTTS.specWordOffset chunk charIndex)).
  { intros s c Hi. now apply onBoundary_refines. }
  split; [exact Hstart|]. split; [exact Ht|]. split; [exact Hone|]. split.
  - intros s events c Hi. rewrite boundaries_last.
    apply Hone. now rewrite boundaries_flag.
  - intros Hfox.
    assert (E : forall s : ReaderTTS.State,
               ReaderTTS.isInteracting s = false ->
               ReaderTTS.progress (ReaderTTS.onBoundary u 10 s)
               = inject_Z (ReaderTTS.startIndex u + 2)).
    { intros s Hi. unfold ReaderTTS.onBoundary. rewrite Hi, Hfox.
      reflexivity. }
    split; [|exact E].
    pose proof (Hone (foxState false) 10%Z eq_refl) as H1.
    rewrite (E (foxState false) eq_refl) in H1.
    unfold inject_Z in H1. injection H1 as H1. lia.
Qed.

Lemma C8_boundary_to_word_offset_witness :
  ReaderTTS.progress
    (fold_left (fun st c => ReaderTTS.onBoundary foxUtterance c st)
               ([4; 16] ++ [10])%Z (ReaderTTS.mkState 3 false [] false))
  = inject_Z (ReaderTTS.startIndex foxUtterance
              + ReaderTTS.specWordOffset
                  (ReaderTTS.chunkWords (foxState false) foxUtterance) 10).
Proof.
  apply (proj1 (proj2 (proj2 (proj2
           (C8_boundary_to_word_offset (lit "the quick brown fox")
              (foxState false) foxUtterance eq_refl eq_refl))))).
  reflexivity.
Defined.

(* ================================================================== *)
(** * Further properties of the code *)

Import MoreProps.

(* ------------------------------------------------------------------ *)
(** ** The list of books *)

Lemma findIndexFrom_shape (id : Z) (books : list Library.BookProgress) :
  forall i,
    (0 <= i)%Z ->
    (Library.findIndexFrom i id books = (-1)%Z /\
     Forall (fun b => Library.bookId b <> id) books) \/
    (exists pre b post,
       books = pre ++ b :: post /\ Library.bookId b = id /\
       Forall (fun b => Library.bookId b <> id) pre /\
       Library.findIndexFrom i id books = (i + Z.of_nat (List.length pre))%Z).
Proof.
  induction books as [|b r IH]; intros i Hi; simpl.
  - left. auto.
  - destruct (Library.bookId b =? id)%Z eqn:E.
    + apply Z.eqb_eq in E. right. exists [], b, r. simpl.
      repeat split; auto. lia.
    + apply Z.eqb_neq in E.
      destruct (IH (i + 1)%Z) as [[Hn Hf]|(pre & b' & post & -> & Hb & Hf & Hn)];
        [lia| |].
      * left. split; auto.
      * right. exists (b :: pre), b', post. simpl.
        repeat split; auto. rewrite Hn. lia.
Qed.

Lemma setAt_middle (pre post : list Library.BookProgress)
  (b p : Library.BookProgress) :
  Library.setAt (pre ++ b :: post) (List.length pre) p = pre ++ p :: post.
Proof.
  induction pre as [|x pre IH]; simpl; [reflexivity|]. now rewrite IH.
Qed.

(** What [saveBookProgress] computes: the book is added at the end when
    its identifier is new, and takes the place of the first book with its
    identifier otherwise. *)
Lemma saveBookProgress_shape (books : list Library.BookProgress)
  (p : Library.BookProgress) :
  (Forall (fun b => Library.bookId b <> Library.bookId p) books /\
   Library.saveBookProgress books p = books ++ [p]) \/
  (exists pre b post,
     books = pre ++ b :: post /\ Library.bookId b = Library.bookId p /\
     Forall (fun b => Library.bookId b <> Library.bookId p) pre /\
     Library.saveBookProgress books p = pre ++ p :: post).
Proof.
  unfold Library.saveBookProgress, Library.findIndex.
  destruct (findIndexFrom_shape (Library.bookId p) books 0)
    as [[Hn Hf]|(pre & b & post & -> & Hb & Hf & Hn)]; [lia| |].
  - left. rewrite Hn. simpl. auto.
  - right. exists pre, b, post. rewrite Hn.
    destruct (0 <=? 0 + Z.of_nat (List.length pre))%Z eqn:E;
      [|apply Z.leb_gt in E; lia].
    rewrite Z.add_0_l, Nat2Z.id, setAt_middle. auto.
Qed.

Lemma find_over_app {A : Type} (f : A -> bool) (l1 l2 : list A) :
  find f (l1 ++ l2)
  = match find f l1 with Some x => Some x | None => find f l2 end.
Proof.
  induction l1 as [|a l1 IH]; simpl; [reflexivity|].
  destruct (f a); auto.
Qed.

Lemma NoDup_snoc {A : Type} (l : list A) (x : A) :
  NoDup l -> ~ In x l -> NoDup (l ++ [x]).
Proof.
  induction 1 as [|a l Ha Hl IH]; simpl; intros Hx.
  - constructor; [intros []|constructor].
  - constructor.
    + rewrite in_app_iff. simpl. intuition congruence.
    + apply IH. intuition.
Qed.

Lemma findBook_skip (id : Z) (pre rest : list Library.BookProgress) :
  Forall (fun b => Library.bookId b <> id) pre ->
  Library.findBook id (pre ++ rest) = Library.findBook id rest.
Proof.
  unfold Library.findBook. induction 1 as [|b pre Hb Hf IH]; simpl; auto.
  apply Z.eqb_neq in Hb. now rewrite Hb.
Qed.

Lemma findBook_none (id : Z) (books : list Library.BookProgress) :
  Forall (fun b => Library.bookId b <> id) books ->
  Library.findBook id books = None.
Proof.
  intros H. rewrite <- (app_nil_r books). now rewrite findBook_skip.
Qed.

Lemma findBook_head (id : Z) (b : Library.BookProgress)
  (rest : list Library.BookProgress) :
  Library.findBook id (b :: rest)
  = if (Library.bookId b =? id)%Z then Some b else Library.findBook id rest.
Proof. reflexivity. Qed.

(** X1.  After a book's progress is saved, looking its identifier up
    returns exactly the saved record, and the lookup of every other
    identifier is unchanged. *)
Theorem X1_saved_book_is_found :
  forall (books : list Library.BookProgress) (p : Library.BookProgress),
    Library.findBook (Library.bookId p) (Library.saveBookProgress books p)
    = Some p
    /\
    forall id,
      id <> Library.bookId p ->
      Library.findBook id (Library.saveBookProgress books p)
      = Library.findBook id books.
Proof.
  intros books p.
  destruct (saveBookProgress_shape books p)
    as [[Hf ->]|(pre & b & post & -> & Hb & Hf & ->)].
  - split.
    + rewrite findBook_skip by assumption. rewrite findBook_head.
      now rewrite Z.eqb_refl.
    + intros id Hid. unfold Library.findBook. rewrite find_over_app.
      destruct (find _ books); [reflexivity|]. simpl.
      apply not_eq_sym, Z.eqb_neq in Hid. now rewrite Hid.
  - split.
    + rewrite findBook_skip by assumption. rewrite findBook_head.
      now rewrite Z.eqb_refl.
    + intros id Hid. unfold Library.findBook. rewrite !find_over_app.
      destruct (find _ pre); [reflexivity|]. simpl.
      rewrite Hb. apply not_eq_sym, Z.eqb_neq in Hid. now rewrite Hid.
Qed.

Lemma X1_saved_book_is_found_witness :
  let a := Library.mkBookProgress 7 (lit "A") (lit "U") (lit "u") 10 0 (Some 0) 1 in
  let b := Library.mkBookProgress 9 (lit "B") (lit "U") (lit "v") 20 5 (Some 25) 2 in
  let a' := Library.mkBookProgress 7 (lit "A") (lit "U") (lit "u") 10 4 (Some 40) 3 in
  Library.findBook 9 (Library.saveBookProgress [a; b] a')
  = Library.findBook 9 [a; b].
Proof.
  intros a b a'.
  apply (proj2 (X1_saved_book_is_found [a; b] a')). discriminate.
Defined.

(** X2.  Saving keeps the identifiers of the list distinct, and the list
    grows, by one book, exactly when the identifier was not in it. *)
Theorem X2_saving_keeps_identifiers_distinct :
  forall (books : list Library.BookProgress) (p : Library.BookProgress),
    NoDup (map Library.bookId books) ->
    NoDup (map Library.bookId (Library.saveBookProgress books p)) /\
    List.length (Library.saveBookProgress books p)
    = match Library.findBook (Library.bookId p) books with
      | Some _ => List.length books
      | None => S (List.length books)
      end.
Proof.
  intros books p Hnd.
  destruct (saveBookProgress_shape books p)
    as [[Hf ->]|(pre & b & post & -> & Hb & Hf & ->)].
  - rewrite (findBook_none _ _ Hf). split.
    + rewrite map_app. simpl. apply NoDup_snoc; auto.
      intros Hin. apply in_map_iff in Hin as (x & Hx & Hin).
      rewrite Forall_forall in Hf. now apply (Hf x).
    + rewrite length_app. simpl. lia.
  - rewrite findBook_skip by assumption. rewrite findBook_head.
    rewrite (proj2 (Z.eqb_eq _ _) Hb). split.
    + rewrite map_app in *. simpl in *. now rewrite <- Hb.
    + rewrite !length_app. reflexivity.
Qed.

Lemma X2_saving_keeps_identifiers_distinct_witness :
  let a := Library.mkBookProgress 7 (lit "A") (lit "U") (lit "u") 10 0 (Some 0) 1 in
  let b := Library.mkBookProgress 9 (lit "B") (lit "U") (lit "v") 20 5 (Some 25) 2 in
  NoDup (map Library.bookId (Library.saveBookProgress [a] b)) /\
  List.length (Library.saveBookProgress [a] b)
  = match Library.findBook (Library.bookId b) [a] with
    | Some _ => List.length [a]
    | None => S (List.length [a])
    end.
Proof.
  intros a b. apply (X2_saving_keeps_identifiers_distinct [a] b).
  simpl. constructor; [intros []|constructor].
Defined.

Lemma removeBook_other (id id' : Z) (books : list Library.BookProgress) :
  id' <> id ->
  Library.findBook id' (Library.removeBook books id)
  = Library.findBook id' books.
Proof.
  intros Hne. unfold Library.findBook, Library.removeBook.
  induction books as [|b r IH]; simpl; [reflexivity|].
  destruct (Library.bookId b =? id)%Z eqn:E; simpl.
  - apply Z.eqb_eq in E.
    assert (E' : (Library.bookId b =? id')%Z = false)
      by (apply Z.eqb_neq; congruence).
    now rewrite E'.
  - destruct (Library.bookId b =? id')%Z; auto.
Qed.

Lemma removeBook_absent (id : Z) (books : list Library.BookProgress) :
  Forall (fun b => Library.bookId b <> id) books ->
  Library.removeBook books id = books.
Proof.
  unfold Library.removeBook. induction 1 as [|b r Hb Hf IH]; simpl; auto.
  apply Z.eqb_neq in Hb. rewrite Hb. simpl. now rewrite IH.
Qed.

(** X3.  After a book is removed its identifier is no longer found (every
    record with it is dropped), the other books are found as before, and
    removing a book that was just added to a list without it gives the list
    back. *)
Theorem X3_removed_book_is_gone :
  forall (books : list Library.BookProgress) (id : Z),
    Library.findBook id (Library.removeBook books id) = None /\
    (forall id', id' <> id ->
       Library.findBook id' (Library.removeBook books id)
       = Library.findBook id' books) /\
    (forall p,
       Library.bookId p = id ->
       Library.findBook id books = None ->
       Library.removeBook (Library.saveBookProgress books p) id = books).
Proof.
  intros books id. repeat split.
  - apply findBook_none. unfold Library.removeBook.
    apply Forall_forall. intros b Hb. apply filter_In in Hb as [_ Hb].
    apply negb_true_iff, Z.eqb_neq in Hb. exact Hb.
  - intros id' Hne. now apply removeBook_other.
  - intros p <- Hnone.
    destruct (saveBookProgress_shape books p)
      as [[Hf ->]|(pre & b & post & -> & Hb & Hf & _)].
    + unfold Library.removeBook. rewrite filter_app. simpl.
      rewrite Z.eqb_refl. simpl. rewrite app_nil_r.
      now apply removeBook_absent.
    + rewrite findBook_skip in Hnone by assumption.
      rewrite findBook_head in Hnone.
      rewrite (proj2 (Z.eqb_eq _ _) Hb) in Hnone. discriminate.
Qed.

Lemma X3_removed_book_is_gone_witness :
  let a := Library.mkBookProgress 7 (lit "A") (lit "U") (lit "u") 10 0 (Some 0) 1 in
  let b := Library.mkBookProgress 9 (lit "B") (lit "U") (lit "v") 20 5 (Some 25) 2 in
  Library.removeBook (Library.saveBookProgress [a] b) 9 = [a].
Proof.
  intros a b.
  apply (proj2 (proj2 (X3_removed_book_is_gone [a] 9)) b); reflexivity.
Defined.

(* ------------------------------------------------------------------ *)
(** ** Chapters in order *)

Lemma scanChapters_range (up : jsstring -> jsstring) (ws : list jsstring)
  (i : nat) (c : TextProcessor.Chapter) :
  In c (TextProcessor.scanChapters up i ws) ->
  (i <= TextProcessor.index c /\
   S (TextProcessor.index c) < i + List.length ws)%nat.
Proof.
  intros H.
  apply (scanChapters_spec up (List.length ws)) in H; [|lia].
  destruct H as (k & w & n & _ & Hn & _ & ->). simpl.
  assert (S k < List.length ws)%nat
    by (apply nth_error_Some; congruence).
  lia.
Qed.

Lemma scanChapters_step (up : jsstring -> jsstring) (i : nat)
  (w n : jsstring) (rest : list jsstring) :
  TextProcessor.scanChapters up i (w :: n :: rest)
  = if TextProcessor.isChapterKeyword (up w)
       && TextProcessor.numeralTest (up n)
    then TextProcessor.mkChapter (w ++ 32%N :: n) i
         :: TextProcessor.scanChapters up (S (S i)) rest
    else TextProcessor.scanChapters up (S i) (n :: rest).
Proof. reflexivity. Qed.

Lemma scanChapters_ascending (up : jsstring -> jsstring) (m : nat) :
  forall ws i,
    (List.length ws <= m)%nat ->
    ascending (TextProcessor.scanChapters up i ws).
Proof.
  unfold ascending.
  induction m as [|m IH]; intros ws i Hlen.
  - destruct ws; [constructor|simpl in Hlen; lia].
  - destruct ws as [|w [|n rest]]; try constructor.
    rewrite scanChapters_step.
    destruct (_ && _).
    + constructor.
      * apply IH. simpl in Hlen. lia.
      * apply Forall_forall. intros c Hc.
        apply scanChapters_range in Hc. simpl. lia.
    + apply IH. simpl in *. lia.
Qed.

Lemma detectChapters_ordered (up : jsstring -> jsstring) (ws : list jsstring) :
  let cs := TextProcessor.detectChapters up ws in
  cs <> [] /\ ascending cs /\
  forall c, In c cs ->
    (TextProcessor.index c < Nat.max 1 (List.length ws))%nat.
Proof.
  intros cs. subst cs. unfold TextProcessor.detectChapters.
  destruct (TextProcessor.scanChapters up 0 ws) as [|c0 l] eqn:E.
  - split; [discriminate|]. split.
    + repeat constructor.
    + intros c [<-|[]]. cbn [TextProcessor.index]. lia.
  - split; [discriminate|]. split.
    + rewrite <- E. now apply (scanChapters_ascending up (List.length ws)).
    + intros c Hc. rewrite <- E in Hc. apply scanChapters_range in Hc. lia.
Qed.

(** X4.  The chapter list of every word stream is not empty, its markers
    come in strictly increasing order of word index, and every marker
    points at a word of the stream as soon as the stream has one. *)
Theorem X4_chapters_ascending_in_range :
  forall (up : jsstring -> jsstring) (ws : list jsstring),
    let cs := TextProcessor.detectChapters up ws in
    cs <> [] /\ ascending cs /\
    forall c, In c cs ->
      (TextProcessor.index c < Nat.max 1 (List.length ws))%nat.
Proof.
  intros up ws. apply detectChapters_ordered.
Qed.

Lemma currentChapterFrom_spec (base : Z) (cs : list TextProcessor.Chapter) :
  ascending cs ->
  forall cur,
    (ReaderDerived.currentChapterFrom cur cs base = cur /\
     forall c', In c' cs -> (base < Z.of_nat (TextProcessor.index c'))%Z)
    \/
    (exists c,
       ReaderDerived.currentChapterFrom cur cs base = Some c /\
       In c cs /\ (Z.of_nat (TextProcessor.index c) <= base)%Z /\
       forall c', In c' cs ->
         (Z.of_nat (TextProcessor.index c') <= base)%Z ->
         (TextProcessor.index c' <= TextProcessor.index c)%nat).
Proof.
  unfold ascending. induction 1 as [|c l Hl IH Hc]; intros cur; simpl.
  - left. split; auto. intros c' [].
  - rewrite Forall_forall in Hc.
    destruct (Z.of_nat (TextProcessor.index c) <=? base)%Z eqn:E.
    + apply Z.leb_le in E. right.
      destruct (IH (Some c)) as [[Hr Hall]|(d & Hr & Hd & Hle & Hmax)].
      * exists c. repeat split; auto.
        intros c' [<-|Hin] Hle'; [lia|]. specialize (Hall c' Hin). lia.
      * exists d. repeat split; auto.
        intros c' [<-|Hin] Hle'; [|auto].
        specialize (Hc d Hd). lia.
    + apply Z.leb_gt in E. left. split; auto.
      intros c' [<-|Hin]; [lia|]. specialize (Hc c' Hin). lia.
Qed.

(** X5.  On the chapter list of a word stream, [currentChapter] returns the
    last chapter that starts at or before the mirror index: a chapter of
    the list, not after the index, and no chapter between it and the index;
    it returns nothing exactly when every chapter starts after the index. *)
Theorem X5_current_chapter_is_last_started :
  forall (up : jsstring -> jsstring) (ws : list jsstring) (baseIndex : Z),
    let cs := TextProcessor.detectChapters up ws in
    match ReaderDerived.currentChapter baseIndex cs with
    | Some c =>
        In c cs /\ (Z.of_nat (TextProcessor.index c) <= baseIndex)%Z /\
        forall c', In c' cs ->
          (Z.of_nat (TextProcessor.index c') <= baseIndex)%Z ->
          (TextProcessor.index c' <= TextProcessor.index c)%nat
    | None =>
        forall c', In c' cs ->
          (baseIndex < Z.of_nat (TextProcessor.index c'))%Z
    end.
Proof.
  intros up ws base cs.
  destruct (detectChapters_ordered up ws) as (Hne & Hasc & _).
  fold cs in Hne, Hasc.
  pose proof (currentChapterFrom_spec base cs Hasc None) as H.
  unfold ReaderDerived.currentChapter.
  destruct cs as [|c0 l]; [congruence|].
  destruct H as [[-> Hall]|(c & -> & Hin & Hle & Hmax)]; auto.
Qed.

(* ------------------------------------------------------------------ *)
(** ** Header, footer and tokens *)

Lemma foldCase_star (c : N) :
  (TextProcessor.foldCase 42 =? TextProcessor.foldCase c)%N = true ->
  c = 42%N.
Proof.
  unfold TextProcessor.foldCase. change ((97 <=? 42) && (42 <=? 122))%N with false.
  cbv iota. destruct ((97 <=? c) && (c <=? 122))%N eqn:E; intros H;
    apply N.eqb_eq in H.
  - apply andb_true_iff in E as [E1 E2]. apply N.leb_le in E1, E2. lia.
  - congruence.
Qed.

Lemma stars_need_star (c : N) (s : jsstring) :
  c <> 42%N -> TextProcessor.litCI (lit "***") (c :: s) = None.
Proof.
  intros Hc. change (lit "***") with [42; 42; 42]%N.
  cbn [TextProcessor.litCI].
  destruct (TextProcessor.foldCase 42 =? TextProcessor.foldCase c)%N eqn:E;
    [|reflexivity].
  apply foldCase_star in E. congruence.
Qed.

Lemma markerAt_needs_star (word : string) (c : N) (s : jsstring) :
  c <> 42%N -> TextProcessor.markerAt word (c :: s) = None.
Proof.
  intros Hc. unfold TextProcessor.markerAt.
  now rewrite stars_need_star.
Qed.

Lemma search_starFree (word : string) (s : jsstring) :
  starFree s ->
  forall i, TextProcessor.search (TextProcessor.markerAt word) i s = None.
Proof.
  induction 1 as [|c s Hc Hs IH]; intros i; cbn [TextProcessor.search].
  - reflexivity.
  - rewrite markerAt_needs_star by assumption. apply IH.
Qed.

Lemma search_found (word : string) (pre s r : jsstring) :
  starFree pre ->
  TextProcessor.markerAt word s = Some r ->
  forall i,
    TextProcessor.search (TextProcessor.markerAt word) i (pre ++ s)
    = Some (TextProcessor.mkMatch (i + List.length pre)
              (firstn (List.length s - List.length r) s)).
Proof.
  intros Hpre Hm. induction Hpre as [|c pre Hc Hp IH]; intros i.
  - cbn [app List.length].
    destruct s as [|x s']; cbn [TextProcessor.search]; rewrite Hm;
      now rewrite Nat.add_0_r.
  - cbn [app List.length TextProcessor.search].
    rewrite markerAt_needs_star by assumption.
    rewrite IH. do 2 f_equal. lia.
Qed.

Lemma replaceCRLF_step (c d : N) (r : jsstring) :
  TextProcessor.replaceCRLF (c :: d :: r)
  = if ((c =? 13) && (d =? 10))%N then 10%N :: TextProcessor.replaceCRLF r
    else c :: TextProcessor.replaceCRLF (d :: r).
Proof. reflexivity. Qed.

Lemma replaceCRLF_crFree (s : jsstring) : crFree s -> TextProcessor.replaceCRLF s = s.
Proof.
  induction 1 as [|c t Hc Ht IH]; [reflexivity|].
  destruct t as [|d r]; [reflexivity|]. rewrite replaceCRLF_step.
  apply N.eqb_neq in Hc. rewrite Hc. cbn [andb]. now rewrite IH.
Qed.

Lemma replaceCRLF_keeps (P : N -> Prop) (n : nat) :
  P 10%N ->
  forall s, (List.length s <= n)%nat -> Forall P s ->
            Forall P (TextProcessor.replaceCRLF s).
Proof.
  intros H10. induction n as [|n IH]; intros s Hlen Hs.
  - destruct s; [constructor|simpl in Hlen; lia].
  - destruct s as [|c [|d r]]; auto. rewrite replaceCRLF_step.
    inversion Hs as [|? ? Hc Ht]; subst.
    inversion Ht as [|? ? Hd Hr]; subst.
    destruct ((c =? 13) && (d =? 10))%N.
    + constructor; auto. apply IH; auto. simpl in Hlen. lia.
    + constructor; auto. apply IH; auto. simpl in *. lia.
Qed.

Lemma cleanText_starFree (text : jsstring) :
  starFree text ->
  TextProcessor.cleanText text = TextProcessor.replaceCRLF text /\
  (crFree text -> TextProcessor.cleanText text = text).
Proof.
  intros Hs.
  assert (Hs' : starFree (TextProcessor.replaceCRLF text)).
  { apply (replaceCRLF_keeps (fun c => c <> 42%N) (List.length text));
      auto. discriminate. }
  assert (E : TextProcessor.cleanText text = TextProcessor.replaceCRLF text).
  { unfold TextProcessor.cleanText.
    rewrite (search_starFree "START" _ Hs').
    now rewrite (search_starFree "END" _ Hs'). }
  split; [exact E|]. intros Hc. rewrite E. now apply replaceCRLF_crFree.
Qed.

(** X6.  A text without an asterisk has no header or footer to strip:
    only its line endings are normalised, and a text that also has no
    carriage return is tokenized as it is. *)
Theorem X6_text_without_markers_is_kept :
  forall text : jsstring,
    starFree text ->
    TextProcessor.cleanText text = TextProcessor.replaceCRLF text /\
    (crFree text -> TextProcessor.cleanText text = text).
Proof.
  intros text. apply cleanText_starFree.
Qed.

Lemma X6_text_without_markers_is_kept_witness :
  TextProcessor.cleanText (lit "Call me Ishmael.") = lit "Call me Ishmael.".
Proof.
  apply (X6_text_without_markers_is_kept (lit "Call me Ishmael."));
    repeat constructor; discriminate.
Defined.

Lemma lazyToStars_reaches (t rest : jsstring) :
  starFree t -> oneLine t ->
  TextProcessor.lazyToStars (t ++ lit "***" ++ rest) = Some rest.
Proof.
  intros Hs Hl. induction Hs as [|c t Hc Hs IH].
  - reflexivity.
  - inversion Hl as [|? ? Hlc Hlt]; subst.
    cbn [app TextProcessor.lazyToStars].
    rewrite stars_need_star by assumption. rewrite Hlc. now apply IH.
Qed.

Lemma markerAt_start (t rest : jsstring) :
  starFree t -> oneLine t ->
  TextProcessor.markerAt "START" (startMarker t ++ rest) = Some rest.
Proof.
  intros Hs Hl. unfold startMarker. rewrite <- !app_assoc.
  pose proof (lazyToStars_reaches t rest Hs Hl) as E.
  cbv - [TextProcessor.lazyToStars lit app] in E.
  cbv - [TextProcessor.lazyToStars]. 
  change (lit "***") with [42; 42; 42]%N in E. cbn [app] in *.
  fold (@app N) in *. rewrite E. reflexivity.
Qed.

Lemma markerAt_end (t rest : jsstring) :
  starFree t -> oneLine t ->
  TextProcessor.markerAt "END" (endMarker t ++ rest) = Some rest.
Proof.
  intros Hs Hl. unfold endMarker. rewrite <- !app_assoc.
  pose proof (lazyToStars_reaches t rest Hs Hl) as E.
  cbv - [TextProcessor.lazyToStars lit app] in E.
  cbv - [TextProcessor.lazyToStars]. 
  change (lit "***") with [42; 42; 42]%N in E. cbn [app] in *.
  fold (@app N) in *. rewrite E. reflexivity.
Qed.

Lemma slice_range {A : Type} (l : list A) (s e : Z) :
  (0 <= s <= e)%Z -> (e <= Z.of_nat (List.length l))%Z ->
  slice l s e = firstn (Z.to_nat (e - s)) (skipn (Z.to_nat s) l).
Proof.
  intros Hs He. unfold slice, relIndex.
  destruct (s <? 0)%Z eqn:E1; [apply Z.ltb_lt in E1; lia|].
  destruct (e <? 0)%Z eqn:E2; [apply Z.ltb_lt in E2; lia|].
  rewrite !Z.min_l by lia. now rewrite Z.max_l by lia.
Qed.

Lemma sliceFrom_app {A : Type} (a b : list A) :
  sliceFrom (a ++ b) (Z.of_nat (List.length a)) = b.
Proof.
  unfold sliceFrom. rewrite slice_range by (try rewrite length_app; lia).
  rewrite Nat2Z.id, skipn_app, skipn_all, Nat.sub_diag. simpl.
  apply firstn_all2. rewrite length_app. lia.
Qed.

Lemma slice_prefix {A : Type} (a b : list A) :
  slice (a ++ b) 0 (Z.of_nat (List.length a)) = a.
Proof.
  rewrite slice_range by (try rewrite length_app; lia).
  rewrite Z.sub_0_r, Nat2Z.id. simpl.
  rewrite firstn_app, Nat.sub_diag, firstn_all. simpl. apply app_nil_r.
Qed.

Lemma firstn_length_diff {A : Type} (a b : list A) :
  firstn (List.length (a ++ b) - List.length b) (a ++ b) = a.
Proof.
  rewrite length_app.
  replace (List.length a + List.length b - List.length b)%nat
    with (List.length a) by lia.
  rewrite firstn_app, Nat.sub_diag, firstn_all. simpl. apply app_nil_r.
Qed.

(** X7.  In a text without carriage return, a Project Gutenberg start
    marker line and end marker line are stripped together with everything
    before the first and after the second: what is tokenized is exactly the
    body between them. *)
Theorem X7_header_and_footer_are_stripped :
  forall pre startTitle body endTitle post : jsstring,
    let text := pre ++ startMarker startTitle ++ body
                    ++ endMarker endTitle ++ post in
    crFree text ->
    starFree pre -> starFree body ->
    starFree startTitle -> oneLine startTitle ->
    starFree endTitle -> oneLine endTitle ->
    TextProcessor.cleanText text = body.
Proof.
  intros pre ta body tb post text Hcr Hpre Hbody Hta Hla Htb Hlb.
  unfold TextProcessor.cleanText. rewrite (replaceCRLF_crFree text Hcr).
  set (R := body ++ endMarker tb ++ post).
  assert (Hstart : TextProcessor.markerAt "START" (startMarker ta ++ R) = Some R)
    by now apply markerAt_start.
  subst text. fold R.
  replace (pre ++ startMarker ta ++ R) with (pre ++ (startMarker ta ++ R))
    by reflexivity.
  rewrite (search_found "START" pre _ R Hpre Hstart 0).
  cbn [TextProcessor.matchIndex TextProcessor.matched].
  rewrite firstn_length_diff. unfold len.
  rewrite <- Nat2Z.inj_add, Nat.add_0_l, <- length_app.
  rewrite app_assoc, sliceFrom_app.
  assert (Hend : TextProcessor.markerAt "END" (endMarker tb ++ post) = Some post)
    by now apply markerAt_end.
  subst R.
  rewrite (search_found "END" body _ post Hbody Hend 0).
  cbn [TextProcessor.matchIndex]. rewrite Nat.add_0_l.
  apply slice_prefix.
Qed.

Lemma X7_header_and_footer_are_stripped_witness :
  TextProcessor.cleanText
    (lit "Produced by volunteers. "
     ++ startMarker (lit " MOBY DICK ")
     ++ lit " Call me Ishmael. "
     ++ endMarker (lit " MOBY DICK ")
     ++ lit " Donations are welcome.")
  = lit " Call me Ishmael. ".
Proof.
  apply (X7_header_and_footer_are_stripped
           (lit "Produced by volunteers. ") (lit " MOBY DICK ")
           (lit " Call me Ishmael. ") (lit " MOBY DICK ")
           (lit " Donations are welcome."));
    repeat constructor; discriminate.
Defined.

Lemma splitWs_through_word (w : jsstring) :
  Forall (fun c => isSpace c = false) w ->
  forall tok s, splitWs false tok (w ++ s) = splitWs false (tok ++ w) s.
Proof.
  induction 1 as [|c w Hc Hw IH]; intros tok s; cbn [app].
  - now rewrite app_nil_r.
  - cbn [splitWs]. rewrite Hc, IH. now rewrite <- app_assoc.
Qed.

Lemma splitWs_join (r : list jsstring) :
  Forall goodWord r ->
  forall w tok,
    goodWord w ->
    splitWs false tok (join (w :: r)) = (tok ++ w) :: r.
Proof.
  induction 1 as [|w2 r Hw2 Hr IH]; intros w tok [Hne Hsp].
  - cbn [join]. rewrite <- (app_nil_r w) at 1.
    rewrite splitWs_through_word by assumption. reflexivity.
  - rewrite join_cons2, splitWs_through_word by assumption.
    cbn [splitWs]. change (isSpace 32) with true. cbv iota. f_equal.
    pose proof (IH w2 [] Hw2) as E. cbn [app] in E.
    transitivity (splitWs false [] (join (w2 :: r))); [|exact E].
    clear E. destruct Hw2 as [Hne2 Hsp2]. destruct w2 as [|a w2']; [congruence|].
    inversion Hsp2; subst.
    destruct r; cbn [join app splitWs];
      match goal with H : isSpace a = false |- _ => now rewrite H end.
Qed.

Lemma goodWord_crFree (w : jsstring) : goodWord w -> crFree w.
Proof.
  intros [_ H]. unfold crFree. eapply Forall_impl; [|exact H].
  intros c Hc ->. discriminate Hc.
Qed.

Lemma join_keeps (P : N -> Prop) (ws : list jsstring) :
  P 32%N -> Forall (Forall P) ws -> Forall P (join ws).
Proof.
  intros H32. induction 1 as [|w r Hw Hr IH]; [constructor|].
  destruct r as [|w2 r2]; [exact Hw|].
  rewrite join_cons2. apply Forall_app. split; auto.
Qed.

Lemma filter_goodWords (l : list jsstring) :
  Forall goodWord l -> filter (fun w => (0 <? len w)%Z) l = l.
Proof.
  induction 1 as [|x l [Hx _] Hl IH]; [reflexivity|].
  cbn [filter]. destruct x; [congruence|]. cbn. now rewrite IH.
Qed.

(** X8.  Tokenizing gives back the words of a joined stream: for words
    that are not empty and hold neither whitespace nor an asterisk,
    [tokenize (join ws)] is [ws]. *)
Theorem X8_tokenize_inverts_join :
  forall ws : list jsstring,
    Forall goodWord ws ->
    Forall starFree ws ->
    TextProcessor.tokenize (join ws) = ws.
Proof.
  intros ws Hg Hs. unfold TextProcessor.tokenize.
  assert (Hstar : starFree (join ws)).
  { apply join_keeps; [discriminate|exact Hs]. }
  assert (Hcr : crFree (join ws)).
  { apply join_keeps; [discriminate|].
    eapply Forall_impl; [|exact Hg]. apply goodWord_crFree. }
  rewrite (proj2 (cleanText_starFree (join ws) Hstar) Hcr).
  destruct Hg as [|w r Hw Hr]; [reflexivity|].
  unfold split. rewrite (splitWs_join r Hr w [] Hw). cbn [app].
  apply filter_goodWords. constructor; auto.
Qed.

Lemma X8_tokenize_inverts_join_witness :
  TextProcessor.tokenize (join foxWords) = foxWords.
Proof.
  apply X8_tokenize_inverts_join; unfold foxWords;
    repeat constructor; discriminate.
Defined.

(* ------------------------------------------------------------------ *)
(** ** The render window, once more *)

Lemma length_localOffsets (ws : list jsstring) :
  forall acc, List.length (Headlines.localOffsets acc ws) = List.length ws.
Proof.
  induction ws as [|w r IH]; intros acc; simpl; auto.
Qed.

Lemma length_slice {A : Type} (l : list A) (s e : Z) :
  (0 <= s <= e)%Z -> (e <= Z.of_nat (List.length l))%Z ->
  List.length (slice l s e) = Z.to_nat (e - s).
Proof.
  intros Hs He. rewrite slice_range by assumption.
  rewrite length_firstn, length_skipn. lia.
Qed.

Lemma nth_error_slice {A : Type} (l : list A) (s e : Z) (i : nat) :
  (0 <= s <= e)%Z -> (e <= Z.of_nat (List.length l))%Z ->
  (i < Z.to_nat (e - s))%nat ->
  nth_error (slice l s e) i = nth_error l (Z.to_nat s + i).
Proof.
  intros Hs He Hi. rewrite slice_range by assumption.
  rewrite nth_error_firstn.
  apply Nat.ltb_lt in Hi. rewrite Hi. apply nth_error_skipn.
Qed.

Lemma updateWindow_shape (content : list jsstring) (c : Z)
  (w0 : Headlines.Window) :
  content <> [] ->
  Headlines.updateWindow content c w0
  = Headlines.mkWindow (Headlines.localOffsets 0 (windowWords content c))
      (windowStart c) (join (windowWords content c)).
Proof.
  intros Hne. destruct content; [congruence|]. reflexivity.
Qed.

Lemma windowWords_bounds (content : list jsstring) (c : Z) :
  (windowStart c <= Z.of_nat (List.length content))%Z ->
  let e := Z.min (Z.of_nat (List.length content))
                 (windowStart c + Headlines.WINDOW_WORDS) in
  (0 <= windowStart c <= e)%Z /\ (e <= Z.of_nat (List.length content))%Z.
Proof.
  unfold windowStart, Headlines.WINDOW_WORDS, Headlines.WINDOW_BACK.
  intros H. cbv zeta. lia.
Qed.

(** X9.  After [updateWindow] around a word index of the book, the window
    starts at [max(0, index - 150)], holds at most 400 words, and the local
    index of every cursor on that word is inside its offset table. *)
Theorem X9_window_holds_its_centre :
  forall (content : list jsstring) (centerWord : Z) (w0 : Headlines.Window)
         (progress : Q),
    (0 <= centerWord < Z.of_nat (List.length content))%Z ->
    Math_floor progress = centerWord ->
    let w := Headlines.updateWindow content centerWord w0 in
    ~ outsideWindow w progress /\
    (List.length (Headlines.windowWordOffsets w) <= 400)%nat /\
    Headlines.activeWindowStartWord w = Z.max 0 (centerWord - 150).
Proof.
  intros content c w0 p Hc Hp w. subst w.
  assert (Hne : content <> []) by (destruct content; simpl in Hc; [lia|discriminate]).
  rewrite (updateWindow_shape content c w0 Hne). unfold outsideWindow.
  cbn [Headlines.windowWordOffsets Headlines.activeWindowStartWord].
  rewrite length_localOffsets. unfold windowWords.
  assert (Hs : (windowStart c <= Z.of_nat (List.length content))%Z)
    by (unfold windowStart, Headlines.WINDOW_BACK; lia).
  destruct (windowWords_bounds content c Hs) as [H1 H2].
  rewrite length_slice by assumption. rewrite Hp.
  unfold windowStart, Headlines.WINDOW_WORDS, Headlines.WINDOW_BACK in *.
  repeat split; lia.
Qed.

Lemma X9_window_holds_its_centre_witness :
  let w := Headlines.updateWindow foxWords 2 Headlines.noWindow in
  ~ outsideWindow w (5 # 2) /\
  (List.length (Headlines.windowWordOffsets w) <= 400)%nat /\
  Headlines.activeWindowStartWord w = Z.max 0 (2 - 150).
Proof.
  apply (X9_window_holds_its_centre foxWords 2 Headlines.noWindow (5 # 2)).
  - vm_compute. split; congruence.
  - reflexivity.
Defined.

Lemma offsets_point (ws : list jsstring) :
  forall acc i word,
    nth_error ws i = Some word ->
    exists k,
      nth_error (Headlines.localOffsets acc ws) i = Some (acc + Z.of_nat k)%Z /\
      firstn (List.length word) (skipn k (join ws)) = word.
Proof.
  induction ws as [|w r IH]; intros acc i word Hi.
  - destruct i; discriminate.
  - destruct i as [|i].
    + injection Hi as ->. exists 0%nat. split; [simpl; f_equal; lia|].
      cbn [skipn]. destruct r as [|w2 r2].
      * apply firstn_all.
      * rewrite join_cons2, firstn_app, Nat.sub_diag, firstn_all.
        simpl. apply app_nil_r.
    + simpl in Hi. destruct r as [|w2 r2]; [destruct i; discriminate|].
      destruct (IH (acc + len w + 1)%Z i word Hi) as (k & Hk & Hw).
      exists (List.length w + 1 + k)%nat. split.
      * cbn [Headlines.localOffsets nth_error] in *. rewrite Hk.
        f_equal. unfold len. lia.
      * rewrite join_cons2, skipn_app.
        rewrite skipn_all2 by lia.
        replace (List.length w + 1 + k - List.length w)%nat with (S k) by lia.
        exact Hw.
Qed.

(** X10.  The offset table of a window addresses its text: the entry of
    each word of the window is the position at which that word is written
    in the window text. *)
Theorem X10_offsets_address_the_text :
  forall (content : list jsstring) (centerWord : Z) (w0 : Headlines.Window)
         (i : nat) (word : jsstring),
    content <> [] ->
    nth_error (windowWords content centerWord) i = Some word ->
    let w := Headlines.updateWindow content centerWord w0 in
    exists o,
      nth_error (Headlines.windowWordOffsets w) i = Some o /\
      (0 <= o)%Z /\
      firstn (List.length word) (skipn (Z.to_nat o) (Headlines.windowText w))
      = word.
Proof.
  intros content c w0 i word Hne Hi w. subst w.
  rewrite (updateWindow_shape content c w0 Hne).
  cbn [Headlines.windowWordOffsets Headlines.windowText].
  destruct (offsets_point _ 0%Z i word Hi) as (k & Hk & Hw).
  exists (Z.of_nat k). repeat split; [exact Hk|lia|].
  now rewrite Nat2Z.id.
Qed.

Lemma X10_offsets_address_the_text_witness :
  let w := Headlines.updateWindow foxWords 0 Headlines.noWindow in
  exists o,
    nth_error (Headlines.windowWordOffsets w) 2 = Some o /\
    (0 <= o)%Z /\
    firstn (List.length (lit "brown"))
           (skipn (Z.to_nat o) (Headlines.windowText w))
    = lit "brown".
Proof.
  apply (X10_offsets_address_the_text foxWords 0 Headlines.noWindow 2
           (lit "brown")).
  - discriminate.
  - reflexivity.
Defined.

Lemma localOffsets_next (ws : list jsstring) :
  forall acc i word o,
    nth_error ws i = Some word ->
    nth_error (Headlines.localOffsets acc ws) i = Some o ->
    (S i < List.length ws)%nat ->
    nth_error (Headlines.localOffsets acc ws) (S i) = Some (o + len word + 1)%Z.
Proof.
  induction ws as [|w r IH]; intros acc i word o Hw Ho Hlt.
  - destruct i; discriminate.
  - destruct i as [|i].
    + injection Hw as ->. injection Ho as <-.
      destruct r as [|w2 r2]; [simpl in Hlt; lia|]. reflexivity.
    + simpl in Hw, Ho, Hlt.
      change (nth_error (Headlines.localOffsets acc (w :: r)) (S (S i)))
        with (nth_error (Headlines.localOffsets (acc + len w + 1) r) (S i)).
      apply IH; auto. lia.
Qed.

Lemma join_nonempty (ws : list jsstring) :
  Forall goodWord ws -> ws <> [] -> join ws <> [].
Proof.
  intros H Hne. destruct H as [|w r [Hw _] Hr]; [congruence|].
  destruct w; [congruence|]. destruct r; discriminate.
Qed.

(** X11.  Inside a window built from tokenized words, on every word but
    the last of the window, the translation follows the cursor through the
    word with the word's own length: it is
    [screenW / 2 - (offset + length * fraction) * charWidth]. *)
Theorem X11_translation_follows_the_word :
  forall (content : list jsstring) (centerWord : Z) (w0 : Headlines.Window)
         (screenW charWidth progress : Q) (word : jsstring) (o : Z),
    Forall goodWord content ->
    let w := Headlines.updateWindow content centerWord w0 in
    let localIdx := (Math_floor progress - windowStart centerWord)%Z in
    (0 <= localIdx)%Z ->
    (S (Z.to_nat localIdx) < List.length (windowWords content centerWord))%nat ->
    nth_error (windowWords content centerWord) (Z.to_nat localIdx) = Some word ->
    nth_error (Headlines.windowWordOffsets w) (Z.to_nat localIdx) = Some o ->
    Headlines.containerStyle w screenW charWidth progress
    = Some (screenW / 2
            - (inject_Z o
               + inject_Z (len word) * (progress - inject_Z (Math_floor progress)))
              * charWidth).
Proof.
  intros content c w0 sw cw p word o Hg w localIdx H0 Hlt Hw Ho.
  assert (Hne : content <> []).
  { intros ->. unfold windowWords, slice in Hlt.
    rewrite skipn_nil, firstn_nil in Hlt. simpl in Hlt. lia. }
  subst w. rewrite (updateWindow_shape content c w0 Hne) in *.
  set (ws := windowWords content c) in *.
  assert (Hgw : Forall goodWord ws) by (apply Forall_slice; exact Hg).
  assert (Hwsne : ws <> []) by (intros E; rewrite E in Hlt; simpl in Hlt; lia).
  unfold Headlines.containerStyle.
  cbn [Headlines.windowWordOffsets Headlines.activeWindowStartWord
       Headlines.windowText] in *.
  rewrite length_localOffsets.
  fold localIdx.
  destruct (Z.of_nat (List.length ws) =? 0)%Z eqn:E1;
    [apply Z.eqb_eq in E1; lia|].
  destruct (len (join ws) =? 0)%Z eqn:E2.
  { apply Z.eqb_eq in E2. unfold len in E2.
    pose proof (join_nonempty ws Hgw Hwsne).
    destruct (join ws); [congruence|simpl in E2; lia]. }
  cbn [orb].
  destruct (localIdx <? 0)%Z eqn:E3; [apply Z.ltb_lt in E3; lia|].
  destruct (Z.of_nat (List.length ws) <=? localIdx)%Z eqn:E4;
    [apply Z.leb_le in E4; lia|].
  cbn [orb]. unfold get. rewrite E3, Ho.
  destruct (localIdx <? Z.of_nat (List.length ws) - 1)%Z eqn:E5;
    [|apply Z.ltb_ge in E5; lia].
  destruct (localIdx + 1 <? 0)%Z eqn:E6; [apply Z.ltb_lt in E6; lia|].
  replace (Z.to_nat (localIdx + 1)) with (S (Z.to_nat localIdx)) by lia.
  rewrite (localOffsets_next ws 0%Z _ word o Hw Ho Hlt).
  replace (o + len word + 1 - o - 1)%Z with (len word) by lia.
  assert (Hlen : leb 1 (inject_Z (len word)) = true).
  { apply leb_true_iff. change 1 with (inject_Z 1). rewrite <- Zle_Qle.
    rewrite Forall_forall in Hgw.
    destruct (Hgw word (nth_error_In _ _ Hw)) as [Hnw _].
    unfold len. destruct word; [congruence|]. simpl List.length. lia. }
  unfold Math_max. rewrite Hlen. reflexivity.
Qed.

Lemma X11_translation_follows_the_word_witness :
  Headlines.containerStyle
    (Headlines.updateWindow foxWords 0 Headlines.noWindow) 400 13 (5 # 2)
  = Some (400 / 2
          - (inject_Z 10
             + inject_Z (len (lit "brown"))
               * ((5 # 2) - inject_Z (Math_floor (5 # 2))))
            * 13).
Proof.
  apply (X11_translation_follows_the_word foxWords 0 Headlines.noWindow
           400 13 (5 # 2) (lit "brown") 10).
  - unfold foxWords. repeat constructor; discriminate.
  - vm_compute. congruence.
  - vm_compute. lia.
  - reflexivity.
  - reflexivity.
Defined.

Lemma leavesSafeWindow_iff (idx start : Z) :
  HeadlinesDrive.leavesSafeWindow idx start = true <->
  (idx < start + 75 \/ start + 325 < idx)%Z.
Proof.
  unfold HeadlinesDrive.leavesSafeWindow, Headlines.WINDOW_WORDS,
    Headlines.WINDOW_BACK.
  rewrite orb_true_iff, !ltb_true_iff.
  assert (E1 : inject_Z start + inject_Z 150 * (5 # 10)
               == inject_Z (start + 75)).
  { rewrite inject_Z_plus. change (inject_Z 150) with 150.
    change (inject_Z 75) with 75. lra. }
  assert (E2 : inject_Z (start + 400) - inject_Z 150 * (5 # 10)
               == inject_Z (start + 325)).
  { rewrite !inject_Z_plus. change (inject_Z 150) with 150.
    change (inject_Z 400) with 400. change (inject_Z 325) with 325. lra. }
  rewrite E1, E2, <- !Zlt_Qlt. reflexivity.
Qed.

Lemma leavesSafeWindow_false_iff (idx start : Z) :
  HeadlinesDrive.leavesSafeWindow idx start = false <->
  (start + 75 <= idx <= start + 325)%Z.
Proof.
  pose proof (leavesSafeWindow_iff idx start) as H.
  destruct (HeadlinesDrive.leavesSafeWindow idx start); split; intros H';
    try discriminate; try reflexivity.
  - destruct H as [H _]. specialize (H eq_refl). lia.
  - destruct (Z_lt_dec idx (start + 75)) as [L|L];
      [destruct H as [_ H]; specialize (H (or_introl L)); discriminate|].
    destruct (Z_lt_dec (start + 325) idx) as [G|G];
      [destruct H as [_ H]; specialize (H (or_intror G)); discriminate|].
    lia.
Qed.

(** X12.  When the reaction recomputes the window at an index, the start it
    remembers is the start of the new window.  From index 150 on, the
    cursor can then go 75 words back and 175 words forward without another
    recomputation; below index 75 the same index asks for a recomputation
    again. *)
Theorem X12_window_recomputation_margin :
  forall (content : list jsstring) (idx : Z) (r : HeadlinesDrive.Renderer),
    HeadlinesDrive.leavesSafeWindow idx (HeadlinesDrive.lastWindowStart r)
    = true ->
    let r' := HeadlinesDrive.windowReaction content idx r in
    (content <> [] ->
     HeadlinesDrive.lastWindowStart r'
     = Headlines.activeWindowStartWord (HeadlinesDrive.window r')) /\
    (150 <= idx ->
     forall j, idx - 75 <= j <= idx + 175 ->
       HeadlinesDrive.leavesSafeWindow j (HeadlinesDrive.lastWindowStart r')
       = false)%Z /\
    (idx < 75 ->
     HeadlinesDrive.leavesSafeWindow idx (HeadlinesDrive.lastWindowStart r')
     = true)%Z.
Proof.
  intros content idx r Hl r'. subst r'.
  unfold HeadlinesDrive.windowReaction. rewrite Hl.
  cbn [HeadlinesDrive.lastWindowStart HeadlinesDrive.window].
  unfold Headlines.WINDOW_BACK. repeat split.
  - intros Hne. rewrite (updateWindow_shape content idx _ Hne).
    reflexivity.
  - intros Hidx j Hj. apply leavesSafeWindow_false_iff. lia.
  - intros Hidx. apply leavesSafeWindow_iff. lia.
Qed.

Lemma X12_window_recomputation_margin_witness :
  let r' := HeadlinesDrive.windowReaction foxWords 500
              (HeadlinesDrive.mkRenderer Headlines.noWindow 0) in
  HeadlinesDrive.leavesSafeWindow 600 (HeadlinesDrive.lastWindowStart r')
  = false.
Proof.
  apply (proj1 (proj2 (X12_window_recomputation_margin foxWords 500
           (HeadlinesDrive.mkRenderer Headlines.noWindow 0) eq_refl)));
    lia.
Defined.

Lemma Math_max_ge (x y : Q) : x <= Math_max x y /\ y <= Math_max x y.
Proof.
  unfold Math_max. destruct (leb x y) eqn:E.
  - apply leb_true_iff in E. split; lra.
  - apply leb_false_iff in E. split; lra.
Qed.

Lemma Math_min_le (x y : Q) : Math_min x y <= x /\ Math_min x y <= y.
Proof.
  unfold Math_min. destruct (leb x y) eqn:E.
  - apply leb_true_iff in E. split; lra.
  - apply leb_false_iff in E. split; lra.
Qed.

(** X13.  A move of the renderer's own gesture keeps the cursor between 0
    and [max(0, N - 1)] for every content length, the empty one included,
    and sets both index mirrors to the floor of the new cursor.  (The
    character width is not 0: the source divides by it.) *)
Theorem X13_renderer_gesture_stays_in_bounds :
  forall (dx charWidth : Q) (s : Reader.State),
    ~ charWidth == 0 ->
    let s' := HeadlinesDrive.onPanResponderMove dx charWidth s in
    0 <= Reader.progress s' /\
    Reader.progress s' <= Qmax 0 (lastIndex s) /\
    Reader.targetIndex s' = Math_floor (Reader.progress s') /\
    Reader.baseIndex s' = Math_floor (Reader.progress s').
Proof.
  intros dx cw s _ s'. subst s'. unfold HeadlinesDrive.onPanResponderMove.
  reader_simpl. fold (lastIndex s).
  set (y := Math_min (Reader.progress s + - dx / cw) (lastIndex s)).
  repeat split.
  - apply Math_max_ge.
  - destruct (Math_min_le (Reader.progress s + - dx / cw) (lastIndex s))
      as [_ Hy]. fold y in Hy.
    unfold Math_max. destruct (leb 0 y) eqn:E.
    + destruct (Q.max_spec 0 (lastIndex s)) as [[H ->]|[H ->]]; lra.
    + destruct (Q.max_spec 0 (lastIndex s)) as [[H ->]|[H ->]]; lra.
Qed.

Lemma X13_renderer_gesture_stays_in_bounds_witness :
  let s' := HeadlinesDrive.onPanResponderMove 500 13 (Reader.initial 0 0) in
  0 <= Reader.progress s' /\
  Reader.progress s' <= Qmax 0 (lastIndex (Reader.initial 0 0)) /\
  Reader.targetIndex s' = Math_floor (Reader.progress s') /\
  Reader.baseIndex s' = Math_floor (Reader.progress s').
Proof.
  apply (X13_renderer_gesture_stays_in_bounds 500 13 (Reader.initial 0 0)).
  intros E. vm_compute in E. discriminate E.
Defined.

(* ------------------------------------------------------------------ *)
(** ** Gestures of the reader screen *)

Lemma moves_keep (moves : list Reader.GestureState) :
  forall s,
    let s' := fold_left (fun st g => Reader.onPanResponderMove g st) moves s in
    Reader.startProgressRef s' = Reader.startProgressRef s /\
    Reader.isTickerMode s' = Reader.isTickerMode s /\
    Reader.contentLength s' = Reader.contentLength s /\
    (moves <> [] -> Reader.animation s' = None).
Proof.
  induction moves as [|g r IH]; intros s; cbn [fold_left].
  - repeat split; congruence.
  - destruct (IH (Reader.onPanResponderMove g s)) as (H1 & H2 & H3 & H4).
    cbv zeta in *. rewrite H1, H2, H3. repeat split.
    intros _. destruct r as [|g' r']; [reflexivity|].
    apply H4. discriminate.
Qed.

Lemma drag_keeps (moves : list Reader.GestureState) (s : Reader.State) :
  Reader.startProgressRef (drag moves s) = Reader.progress s /\
  Reader.isTickerMode (drag moves s) = Reader.isTickerMode s /\
  Reader.contentLength (drag moves s) = Reader.contentLength s /\
  Reader.animation (drag moves s) = None.
Proof.
  unfold drag.
  destruct (moves_keep moves (Reader.onPanResponderGrant s))
    as (H1 & H2 & H3 & H4).
  cbv zeta in *. rewrite H1, H2, H3. repeat split.
  destruct moves as [|g r]; [reflexivity|]. apply H4. discriminate.
Qed.


(** X15.  While a finger is down nothing but the gesture moves the cursor:
    after the grant and any moves, display frames leave the whole state as
    it is, whatever autoplay or animation was running before the touch. *)
Theorem X15_touch_freezes_the_frames :
  forall (decayFrame : Q -> Q * Q -> Q -> Q -> Q * Q * bool)
         (s : Reader.State) (moves : list Reader.GestureState)
         (fis : list Reader.FrameInfo),
    Reader.run decayFrame (drag moves s) (map Reader.Frame fis)
    = drag moves s.
Proof.
  intros decayFrame s moves fis. apply idle_frames.
  - apply drag_keeps.
  - now rewrite drag_pauses.
Qed.

(** X16.  An arrow click of the reader screen pauses and only records a
    target: neither the click nor any display frame after it moves the
    cursor.  With at least one word loaded a target that changed is a word
    index. *)
Theorem X16_arrow_click_leaves_the_cursor :
  forall (decayFrame : Q -> Q * Q -> Q -> Q -> Q * Q * bool)
         (s : Reader.State) (down : bool) (fis : list Reader.FrameInfo),
    Reader.animation s = None ->
    let s1 := Reader.onArrowClick down s in
    Reader.run decayFrame s1 (map Reader.Frame fis) = s1 /\
    Reader.progress s1 = Reader.progress s /\
    ((1 <= Reader.contentLength s)%Z ->
     Reader.targetIndex s1 <> Reader.targetIndex s ->
     (0 <= Reader.targetIndex s1 < Reader.contentLength s)%Z).
Proof.
  intros decayFrame s down fis Ha s1. subst s1.
  unfold Reader.onArrowClick. reader_simpl.
  set (next := if down then (Math_round (Reader.progress s) + 1)%Z
               else (Math_round (Reader.progress s) - 1)%Z).
  set (next1 := if (next <? 0)%Z then 0%Z else next).
  set (next2 := if (Reader.contentLength s <=? next1)%Z
                then (Reader.contentLength s - 1)%Z else next1).
  assert (Hb : (1 <= Reader.contentLength s)%Z ->
               (0 <= next2 < Reader.contentLength s)%Z).
  { intros HN. subst next2 next1.
    destruct (next <? 0)%Z eqn:E1;
      [|apply Z.ltb_ge in E1];
      destruct (Reader.contentLength s <=? _)%Z eqn:E2;
      try apply Z.leb_le in E2; try apply Z.leb_gt in E2; lia. }
  destruct (next2 =? Math_round (Reader.progress s))%Z.
  - split; [apply idle_frames; reader_simpl; auto|].
    split; [reflexivity|]. reader_simpl. congruence.
  - split; [apply idle_frames; reader_simpl; auto|].
    split; [reflexivity|]. reader_simpl. auto.
Qed.

Lemma X16_arrow_click_leaves_the_cursor_witness :
  let s1 := Reader.onArrowClick true (Reader.initial 1000 10) in
  Reader.run stillDecay s1 (map Reader.Frame (repeat (tick 16) 20)) = s1 /\
  Reader.progress s1 = Reader.progress (Reader.initial 1000 10) /\
  ((1 <= Reader.contentLength (Reader.initial 1000 10))%Z ->
   Reader.targetIndex s1 <> Reader.targetIndex (Reader.initial 1000 10) ->
   (0 <= Reader.targetIndex s1
    < Reader.contentLength (Reader.initial 1000 10))%Z).
Proof.
  apply (X16_arrow_click_leaves_the_cursor stillDecay (Reader.initial 1000 10)
           true (repeat (tick 16) 20)).
  reflexivity.
Defined.

(** X17.  In ticker autoplay with at least one word loaded, a tick that
    finds the cursor on or past the last word leaves it on the last word
    and resets the rate to 0; from then on frame ticks change nothing. *)
Theorem X17_ticker_stops_on_the_last_word :
  forall (s : Reader.State) (dt : Q) (fi : Reader.FrameInfo),
    autoplaying true s ->
    0 < Reader.wpm s ->
    (1 <= Reader.contentLength s)%Z ->
    lastIndex s <= Reader.progress s ->
    0 <= dt ->
    let s' := Reader.useFrameCallback (tick dt) s in
    Reader.progress s' == lastIndex s /\
    Reader.wpm s' = 0 /\
    Reader.useFrameCallback fi s' = s'.
Proof.
  intros s dt fi Ha Hw HN Hp Hdt s'. subst s'.
  rewrite (autoplaying_runs true s (tick dt) Ha).
  assert (Hlast : 0 <= lastIndex s).
  { unfold lastIndex. change 0 with (inject_Z 0). rewrite <- Zle_Qle. lia. }
  set (d := orElse (Reader.timeSincePreviousFrame (tick dt)) 16).
  assert (Hd : 0 <= d).
  { subst d. cbn [tick Reader.timeSincePreviousFrame]. unfold orElse.
    destruct (isZero dt); lra. }
  assert (Hinc : 0 <= Reader.wpm s / 60000 * Qmin d 50).
  { apply Qmult_le_0_compat.
    - apply Qle_shift_div_l; lra.
    - destruct (Q.min_spec d 50) as [[_ ->]|[_ ->]]; lra. }
  pose proof (tickerFrame_progress (tick dt) s) as Hprog. fold d in Hprog.
  destruct (tickerFrame_wpm (tick dt) s) as [Hstop _]. fold d in Hstop.
  set (x := Reader.progress s + Reader.wpm s / 60000 * Qmin d 50) in *.
  assert (Hx : lastIndex s <= Qmax x 0).
  { destruct (Qmax_cases x 0) as [[H2 E2]|[H2 E2]]; rewrite E2; subst x; lra. }
  assert (Hwpm := Hstop Hx).
  repeat split.
  - rewrite Hprog.
    destruct (clamp_cases x 0 (lastIndex s)) as [[H3 ->]|[H3 E3]];
      [reflexivity|lra].
  - exact Hwpm.
  - apply paused_frame_callback. now rewrite Hwpm.
Qed.

Lemma X17_ticker_stops_on_the_last_word_witness :
  let s := Reader.togglePlay
             (Reader.toggleTickerMode (Reader.initial 1000 999)) in
  let s' := Reader.useFrameCallback (tick 16) s in
  Reader.progress s' == lastIndex s /\
  Reader.wpm s' = 0 /\
  Reader.useFrameCallback (tick 16) s' = s'.
Proof.
  apply (X17_ticker_stops_on_the_last_word
           (Reader.togglePlay
              (Reader.toggleTickerMode (Reader.initial 1000 999)))
           16 (tick 16)).
  - repeat split. intros E. vm_compute in E. discriminate E.
  - vm_compute. congruence.
  - vm_compute. congruence.
  - vm_compute. congruence.
  - vm_compute. congruence.
Defined.

(* ------------------------------------------------------------------ *)
(** ** A fast release: decay, then snap *)

Lemma decay_settles (decayFrame : Q -> Q * Q -> Q -> Q -> Q * Q * bool)
  (fis : list Reader.FrameInfo) :
  forall s v lo hi x rest,
    Reader.animation s = Some (Reader.ReleaseDecay v lo hi) ->
    isZero (Reader.wpm s) = true ->
    decayEnds decayFrame v lo hi (Reader.progress s) fis = Some (x, rest) ->
    150 <= totalElapsed rest ->
    let s' := Reader.run decayFrame s (map Reader.Frame fis) in
    Reader.progress s' = inject_Z (Math_round x) /\
    Reader.isInteracting s' = false /\
    Reader.animation s' = None.
Proof.
  induction fis as [|fi r IH]; intros s v lo hi x rest Ha Hw He Ht;
    cbn [decayEnds] in He; [discriminate He|].
  cbv zeta.
  assert (Hrun : Reader.run decayFrame s (map Reader.Frame (fi :: r))
                 = Reader.run decayFrame (Reader.frame decayFrame fi s)
                     (map Reader.Frame r)) by reflexivity.
  rewrite Hrun. unfold Reader.frame, Reader.animationFrame. rewrite Ha.
  fold (elapsed fi).
  destruct (decayFrame v (lo, hi) (Reader.progress s) (elapsed fi))
    as [[x' v'] finished].
  destruct finished.
  - injection He as -> ->.
    rewrite paused_frame_callback by (reader_simpl; assumption).
    destruct (snap_settles decayFrame rest
                (Reader.snapToNearest (Reader.animate x None s))
                x (Math_round x) 0) as (P & I & A & _);
      try (reader_simpl; auto; lra).
  - rewrite paused_frame_callback by (reader_simpl; assumption).
    apply (IH _ v' lo hi x rest); reader_simpl; auto.
Qed.

(** X18.  A gesture released with an exit velocity of absolute value 0.5
    or more starts a decay clamped to [0, N - 1]; when the decay finishes
    on a value x the snap starts from there, and once the frames after that
    add up to 150 ms the cursor is exactly Math.round(x) and the interaction
    is over. *)
Theorem X18_fast_release_decays_then_snaps :
  forall (decayFrame : Q -> Q * Q -> Q -> Q -> Q * Q * bool)
         (s0 : Reader.State) (moves : list Reader.GestureState)
         (g : Reader.GestureState) (fis rest : list Reader.FrameInfo)
         (x : Q),
    let s := drag moves s0 in
    1 # 2 <= Qabs (Reader.releaseVelocity g s) ->
    decayEnds decayFrame (Reader.releaseVelocity g s) 0 (lastIndex s)
      (Reader.progress s) fis = Some (x, rest) ->
    150 <= totalElapsed rest ->
    let s' := Reader.run decayFrame (Reader.onPanResponderRelease g s)
                (map Reader.Frame fis) in
    Reader.progress s' = inject_Z (Math_round x) /\
    Qabs (Reader.progress s' - x) <= 1 # 2 /\
    Reader.isInteracting s' = false /\
    Reader.animation s' = None.
Proof.
  intros decayFrame s0 moves g fis rest x s Hv He Ht s'.
  assert (E : ltb (Math_abs (Reader.releaseVelocity g s)) (5 # 10) = false).
  { apply ltb_false_iff. unfold Math_abs. lra. }
  destruct (decay_settles decayFrame fis
              (Reader.onPanResponderRelease g s)
              (Reader.releaseVelocity g s) 0 (lastIndex s) x rest)
    as (P & I & A).
  - unfold Reader.onPanResponderRelease. rewrite E. reflexivity.
  - unfold Reader.onPanResponderRelease. rewrite E. reader_simpl.
    subst s. now rewrite drag_pauses.
  - unfold Reader.onPanResponderRelease. rewrite E. reader_simpl. exact He.
  - exact Ht.
  - fold s' in P, I, A. repeat split; auto.
    rewrite P. apply Math_round_nearest.
Qed.

Lemma X18_fast_release_decays_then_snaps_witness :
  let s := drag [Reader.mkGesture 0 (- (130)) 0 0] (Reader.initial 1000 0) in
  let s' := Reader.run stillDecay
              (Reader.onPanResponderRelease (Reader.mkGesture 0 0 0 1) s)
              (map Reader.Frame (repeat (tick 16) 11)) in
  Reader.progress s' = inject_Z (Math_round (Reader.progress s)) /\
  Qabs (Reader.progress s' - Reader.progress s) <= 1 # 2 /\
  Reader.isInteracting s' = false /\
  Reader.animation s' = None.
Proof.
  apply (X18_fast_release_decays_then_snaps stillDecay
           (Reader.initial 1000 0) [Reader.mkGesture 0 (- (130)) 0 0]
           (Reader.mkGesture 0 0 0 1) (repeat (tick 16) 11)
           (repeat (tick 16) 10)).
  - vm_compute. congruence.
  - reflexivity.
  - vm_compute. congruence.
Defined.

(* ------------------------------------------------------------------ *)
(** ** The mirror index, the slots around it and the saved position *)

Lemma In_indicesFrom (count : nat) :
  forall i n j,
    In j (ReaderDerived.indicesFrom i count n) <->
    (i <= j < i + Z.of_nat count /\ 0 <= j < n)%Z.
Proof.
  induction count as [|k IH]; intros i n j;
    cbn [ReaderDerived.indicesFrom].
  - split; [intros []|lia].
  - rewrite in_app_iff, IH.
    destruct ((0 <=? i)%Z && (i <? n)%Z) eqn:E.
    + apply andb_true_iff in E as [E1 E2].
      apply Z.leb_le in E1. apply Z.ltb_lt in E2.
      cbn [In]. lia.
    + apply andb_false_iff in E.
      cbn [In]. destruct E as [E|E];
        [apply Z.leb_gt in E|apply Z.ltb_ge in E]; lia.
Qed.

(** X19.  The slots that the column view keeps mounted are exactly the word
    indices within 5 of the mirror index (60 in ticker mode) that exist in
    the text; there are at most 11 of them (121 in ticker mode). *)
Theorem X19_mounted_slots :
  forall (baseIndex contentLength : Z) (isTickerMode : bool),
    let range := if isTickerMode then 60%Z else 5%Z in
    let indices :=
      ReaderDerived.activeWindowIndices baseIndex contentLength isTickerMode in
    (forall j, In j indices <->
               (Z.abs (j - baseIndex) <= range /\ 0 <= j < contentLength)%Z) /\
    (Z.of_nat (List.length indices) <= 2 * range + 1)%Z.
Proof.
  intros base n ticker range indices. subst indices.
  unfold ReaderDerived.activeWindowIndices. fold range.
  assert (Hr : (0 <= range)%Z) by (subst range; destruct ticker; lia).
  split.
  - intros j. rewrite In_indicesFrom. lia.
  - assert (H : forall count i,
               (List.length (ReaderDerived.indicesFrom i count n)
                <= count)%nat).
    { induction count as [|k IH]; intros i;
        cbn [ReaderDerived.indicesFrom]; [simpl; lia|].
      rewrite length_app. specialize (IH (i + 1)%Z).
      destruct ((0 <=? i)%Z && (i <? n)%Z); simpl; lia. }
    specialize (H (Z.to_nat (2 * range + 1)) (base - range)%Z). lia.
Qed.

(** X20.  When the rounded cursor changes, the reaction leaves the mirror
    index at most 1 word away from it (50 in ticker mode), by keeping the
    mirror or by moving it onto the rounded cursor; the word under the
    cursor, if it exists, is then among the mounted slots.  The cursor
    itself is not written. *)
Theorem X20_mirror_follows_the_cursor :
  forall (s : Reader.State) (current : Z) (previous : option Z),
    previous <> Some current ->
    let s' := ReaderDerived.progressReaction current previous s in
    (Z.abs (current - Reader.baseIndex s')
     <= (if Reader.isTickerMode s then 50 else 1))%Z /\
    (Reader.baseIndex s' = Reader.baseIndex s \/
     Reader.baseIndex s' = current) /\
    Reader.progress s' = Reader.progress s /\
    ((0 <= current < Reader.contentLength s)%Z ->
     In current
        (ReaderDerived.activeWindowIndices (Reader.baseIndex s')
           (Reader.contentLength s') (Reader.isTickerMode s'))).
Proof.
  intros s current previous Hp s'. subst s'.
  unfold ReaderDerived.progressReaction.
  assert (Hc : match previous with
               | Some p => negb (current =? p)%Z
               | None => true
               end = true).
  { destruct previous as [p|]; [|reflexivity].
    apply negb_true_iff, Z.eqb_neq. congruence. }
  rewrite Hc.
  unfold ReaderDerived.activeWindowIndices.
  destruct (Reader.isTickerMode s) eqn:Et;
    match goal with
    | |- context [(?a <? ?b)%Z] =>
        destruct (a <? b)%Z eqn:E;
          [apply Z.ltb_lt in E|apply Z.ltb_ge in E]
    end; reader_simpl; rewrite ?Et;
    (split; [lia|]); (split; [auto|]); (split; [reflexivity|]);
    intros Hb; apply In_indicesFrom; lia.
Qed.

Lemma X20_mirror_follows_the_cursor_witness :
  let s' := ReaderDerived.progressReaction 7 (Some 6%Z)
              (Reader.initial 1000 0) in
  (Z.abs (7 - Reader.baseIndex s')
   <= (if Reader.isTickerMode (Reader.initial 1000 0) then 50 else 1))%Z /\
  (Reader.baseIndex s' = Reader.baseIndex (Reader.initial 1000 0) \/
   Reader.baseIndex s' = 7%Z) /\
  Reader.progress s' = Reader.progress (Reader.initial 1000 0) /\
  ((0 <= 7 < Reader.contentLength (Reader.initial 1000 0))%Z ->
   In 7%Z
      (ReaderDerived.activeWindowIndices (Reader.baseIndex s')
         (Reader.contentLength s') (Reader.isTickerMode s'))).
Proof.
  apply (X20_mirror_follows_the_cursor (Reader.initial 1000 0) 7 (Some 6%Z)).
  discriminate.
Defined.

Lemma Math_round_bounds (x : Q) (lo hi : Z) :
  inject_Z lo <= x -> x <= inject_Z hi ->
  (lo <= Math_round x <= hi)%Z.
Proof.
  intros Hlo Hhi. unfold Math_round.
  pose proof (Qfloor_le (x + (1 # 2))) as H1.
  pose proof (Qlt_floor (x + (1 # 2))) as H2.
  rewrite inject_Z_plus in H2. change (inject_Z 1) with 1 in H2.
  split.
  - assert (H : inject_Z lo < inject_Z (Qfloor (x + (1 # 2)) + 1)).
    { rewrite inject_Z_plus. change (inject_Z 1) with 1. lra. }
    rewrite <- Zlt_Qlt in H. lia.
  - assert (H : inject_Z (Qfloor (x + (1 # 2))) < inject_Z (hi + 1)).
    { rewrite inject_Z_plus. change (inject_Z 1) with 1. lra. }
    rewrite <- Zlt_Qlt in H. lia.
Qed.

(** X21.  With at least one word loaded and the cursor within [0, N - 1],
    the record that is saved holds a word index of the text and a
    percentage in [0, 100) which is 100 times the index over N. *)
Theorem X21_saved_position_is_in_the_text :
  forall (bookId : Z) (title txtUrl : jsstring) (now : Z) (s : Reader.State),
    (1 <= Reader.contentLength s)%Z ->
    0 <= Reader.progress s -> Reader.progress s <= lastIndex s ->
    let b := ReaderDerived.saveCurrentProgress bookId title txtUrl now s in
    (0 <= Library.currentWordIndex b < Library.totalWords b)%Z /\
    exists q,
      Library.progressPercentage b = Some q /\
      0 <= q /\ q < 100 /\
      q * inject_Z (Library.totalWords b)
      == 100 * inject_Z (Library.currentWordIndex b).
Proof.
  intros bookId title txtUrl now s HN Hlo Hhi b. subst b.
  unfold ReaderDerived.saveCurrentProgress.
  cbn [Library.currentWordIndex Library.totalWords Library.progressPercentage].
  destruct (Math_round_bounds (Reader.progress s) 0
              (Reader.contentLength s - 1) Hlo Hhi) as [H1 H2].
  split; [lia|].
  destruct (Reader.contentLength s =? 0)%Z eqn:E;
    [apply Z.eqb_eq in E; lia|].
  eexists. split; [reflexivity|].
  set (i := Math_round (Reader.progress s)) in *.
  set (n := Reader.contentLength s) in *.
  assert (Hn : 0 < inject_Z n).
  { change 0 with (inject_Z 0). rewrite <- Zlt_Qlt. lia. }
  assert (Hi : 0 <= inject_Z i).
  { change 0 with (inject_Z 0). rewrite <- Zle_Qle. lia. }
  assert (Hin : inject_Z i < inject_Z n).
  { rewrite <- Zlt_Qlt. lia. }
  assert (Hq0 : 0 <= inject_Z i / inject_Z n).
  { apply Qle_shift_div_l; lra. }
  assert (Hq1 : inject_Z i / inject_Z n < 1).
  { apply Qlt_shift_div_r; lra. }
  split; [lra|]. split; [lra|].
  field. lra.
Qed.

Lemma X21_saved_position_is_in_the_text_witness :
  let b := ReaderDerived.saveCurrentProgress 7 (lit "Candide") (lit "url") 0
             (Reader.initial 1000 250) in
  (0 <= Library.currentWordIndex b < Library.totalWords b)%Z /\
  exists q,
    Library.progressPercentage b = Some q /\
    0 <= q /\ q < 100 /\
    q * inject_Z (Library.totalWords b)
    == 100 * inject_Z (Library.currentWordIndex b).
Proof.
  apply (X21_saved_position_is_in_the_text 7 (lit "Candide") (lit "url") 0
           (Reader.initial 1000 250)); vm_compute; congruence.
Defined.

Lemma ascending_unique (cs : list TextProcessor.Chapter) :
  ascending cs ->
  forall a b, In a cs -> In b cs ->
    TextProcessor.index a = TextProcessor.index b -> a = b.
Proof.
  unfold ascending. induction 1 as [|c l Hl IH Hc]; intros a b Ha Hb E.
  - destruct Ha.
  - rewrite Forall_forall in Hc.
    destruct Ha as [<-|Ha], Hb as [<-|Hb]; auto.
    + specialize (Hc b Hb). lia.
    + specialize (Hc a Ha). lia.
Qed.

(** X22.  Jumping to a chapter of the detected list puts the cursor on the
    chapter's first word, a position within [0, max(0, N - 1)], pauses, and
    makes that chapter the current chapter; display frames after the jump
    change nothing. *)
Theorem X22_jump_lands_on_the_chapter :
  forall (decayFrame : Q -> Q * Q -> Q -> Q -> Q * Q * bool)
         (up : jsstring -> jsstring) (ws : list jsstring)
         (c : TextProcessor.Chapter) (s : Reader.State)
         (fis : list Reader.FrameInfo),
    In c (TextProcessor.detectChapters up ws) ->
    Reader.contentLength s = Z.of_nat (List.length ws) ->
    let i := Z.of_nat (TextProcessor.index c) in
    let s' := Reader.jumpToChapter i s in
    Reader.progress s' = inject_Z i /\
    (0 <= i <= Z.max 0 (Reader.contentLength s' - 1))%Z /\
    ReaderDerived.currentChapter (Reader.baseIndex s')
      (TextProcessor.detectChapters up ws) = Some c /\
    Reader.run decayFrame s' (map Reader.Frame fis) = s'.
Proof.
  intros decayFrame up ws c s fis Hin HN i s'.
  destruct (detectChapters_ordered up ws) as (Hne & Hasc & Hrange).
  cbv zeta in Hne, Hasc, Hrange.
  split; [reflexivity|]. split.
  { subst s'. unfold Reader.jumpToChapter. reader_simpl. rewrite HN.
    specialize (Hrange c Hin). subst i. lia. }
  split.
  - subst s'. unfold Reader.jumpToChapter. reader_simpl.
    unfold ReaderDerived.currentChapter.
    destruct (TextProcessor.detectChapters up ws) as [|c0 l] eqn:E;
      [congruence|].
    destruct (currentChapterFrom_spec i (c0 :: l) Hasc None)
      as [[_ Hall]|(d & -> & Hd & Hle & Hmax)].
    + specialize (Hall c Hin). subst i. lia.
    + f_equal. apply (ascending_unique (c0 :: l) Hasc); auto.
      specialize (Hmax c Hin). subst i. lia.
  - subst s'. apply idle_frames; unfold Reader.jumpToChapter; reader_simpl;
      reflexivity.
Qed.

Lemma X22_jump_lands_on_the_chapter_witness :
  let ws := [lit "Preface"; lit "CHAPTER"; lit "1"; lit "Hello"] in
  let c := TextProcessor.mkChapter (lit "CHAPTER 1") 1 in
  let s' := Reader.jumpToChapter 1 (Reader.initial 4 0) in
  Reader.progress s' = inject_Z 1 /\
  (0 <= 1 <= Z.max 0 (Reader.contentLength s' - 1))%Z /\
  ReaderDerived.currentChapter (Reader.baseIndex s')
    (TextProcessor.detectChapters TextProcessor.asciiToUpperCase ws)
  = Some c /\
  Reader.run stillDecay s' (map Reader.Frame (repeat (tick 16) 5)) = s'.
Proof.
  apply (X22_jump_lands_on_the_chapter stillDecay
           TextProcessor.asciiToUpperCase
           [lit "Preface"; lit "CHAPTER"; lit "1"; lit "Hello"]
           (TextProcessor.mkChapter (lit "CHAPTER 1") 1)
           (Reader.initial 4 0) (repeat (tick 16) 5)).
  - vm_compute. left. reflexivity.
  - reflexivity.
Defined.

(* ------------------------------------------------------------------ *)
(** ** Narration: voice, rate and chunks *)

Lemma orUndefined_cases {A : Type} (a b : option A) (P : option A -> Prop) :
  (forall x, a = Some x -> P a) -> (a = None -> P b) ->
  P (TTSVoice.orUndefined a b).
Proof.
  intros H1 H2. destruct a as [x|]; simpl; [apply (H1 x)|apply H2];
    reflexivity.
Qed.

Lemma hd_error_In {A : Type} (l : list A) (x : A) :
  hd_error l = Some x -> In x l.
Proof. destruct l; simpl; [discriminate|]. intros [= ->]. now left. Qed.

Lemma getVoice_from_pool (lower : jsstring -> jsstring)
  (voices : list TTSVoice.Voice) (g : TTSVoice.Gender) :
  let candidates := filter TTSVoice.isFrench voices in
  let pool := match candidates with [] => voices | _ => candidates end in
  match TTSVoice.getVoice lower voices g with
  | Some v => In v pool
  | None => pool = []
  end.
Proof.
  intros candidates pool. unfold TTSVoice.getVoice.
  fold candidates. fold pool.
  assert (Hhd : match hd_error pool with
                | Some v => In v pool
                | None => pool = []
                end).
  { destruct pool; simpl; auto. }
  destruct g.
  - apply orUndefined_cases.
    + intros x Hx. rewrite Hx. apply find_some in Hx. tauto.
    + intros _. exact Hhd.
  - apply orUndefined_cases.
    + intros x Hx. rewrite Hx. apply find_some in Hx. tauto.
    + intros _. apply orUndefined_cases.
      * intros x Hx. rewrite Hx. apply find_some in Hx. tauto.
      * intros _. exact Hhd.
Qed.

(** X23.  The voice chosen for narration is one of the installed voices;
    it is a French one (language containing [fr] or name containing
    [French]) whenever a French voice is installed; and no voice is chosen
    only when none is installed. *)
Theorem X23_voice_is_installed_and_french_if_any :
  forall (toLowerCase : jsstring -> jsstring)
         (systemVoices : list TTSVoice.Voice) (voiceGender : TTSVoice.Gender),
    match TTSVoice.getVoice toLowerCase systemVoices voiceGender with
    | Some v =>
        In v systemVoices /\
        ((exists f, In f systemVoices /\ TTSVoice.isFrench f = true) ->
         TTSVoice.isFrench v = true)
    | None => systemVoices = []
    end.
Proof.
  intros lower voices g.
  pose proof (getVoice_from_pool lower voices g) as H. cbv zeta in H.
  destruct (TTSVoice.getVoice lower voices g) as [v|].
  - destruct (filter TTSVoice.isFrench voices) as [|c l] eqn:E.
    + split; [exact H|].
      intros (f & Hf & Hfr).
      assert (Hin : In f (filter TTSVoice.isFrench voices))
        by (apply filter_In; auto).
      rewrite E in Hin. destruct Hin.
    + rewrite <- E in H. apply filter_In in H. split; tauto.
  - destruct (filter TTSVoice.isFrench voices) as [|c l] eqn:E;
      [exact H|discriminate H].
Qed.

(** X24.  The speech rate handed to the engine is always within
    [0.5, 2]; it is the effective rate over 200 when that rate is within
    [100, 400], where the effective rate is the playing rate if positive
    and the saved rate otherwise. *)
Theorem X24_speech_rate_is_clamped :
  forall (wpm savedWpm : Q),
    let effective := if ltb 0 wpm then wpm else savedWpm in
    let rate := TTSVoice.speechRate wpm savedWpm in
    1 # 2 <= rate /\ rate <= 2 /\
    (100 <= effective -> effective <= 400 -> rate == effective / 200) /\
    (effective <= 100 -> rate == 1 # 2) /\
    (400 <= effective -> rate == 2).
Proof.
  intros wpm saved effective rate. subst rate.
  unfold TTSVoice.speechRate. fold effective.
  generalize effective as e. clear. intros e.
  assert (Hdiv : e / 200 == e * (1 # 200)) by (field; lra).
  unfold Math_max, Math_min.
  destruct (leb 2 (e / 200)) eqn:E1;
    [apply leb_true_iff in E1|apply leb_false_iff in E1];
    match goal with
    | |- context [leb (5 # 10) ?x] =>
        destruct (leb (5 # 10) x) eqn:E2;
          [apply leb_true_iff in E2|apply leb_false_iff in E2]
    end;
    repeat split; intros; lra.
Qed.

Lemma chunk_length {A : Type} (l : list A) (start : Z) :
  (0 <= start < Z.of_nat (List.length l))%Z ->
  Z.of_nat (List.length (slice l start (start + ReaderTTS.chunkSize)))
  = Z.min ReaderTTS.chunkSize (Z.of_nat (List.length l) - start).
Proof.
  intros H. unfold slice, relIndex, ReaderTTS.chunkSize.
  destruct (start <? 0)%Z eqn:E1; [apply Z.ltb_lt in E1; lia|].
  destruct (start + 100 <? 0)%Z eqn:E2; [apply Z.ltb_lt in E2; lia|].
  rewrite length_firstn, length_skipn. lia.
Qed.

Lemma startSpeaking_start (s : ReaderTTS.State) (u : ReaderTTS.Utterance) :
  ReaderTTS.startSpeaking s = Some u ->
  ReaderTTS.ttsEnabled s = true /\
  (ReaderTTS.startIndex u < Z.of_nat (List.length (ReaderTTS.content s)))%Z.
Proof.
  unfold ReaderTTS.startSpeaking.
  destruct (Z.of_nat (List.length (ReaderTTS.content s)) =? 0)%Z;
    [discriminate|].
  destruct (ReaderTTS.ttsEnabled s); [|discriminate]. cbn [negb orb].
  destruct (Z.of_nat (List.length (ReaderTTS.content s))
            <=? Math_round (ReaderTTS.progress s))%Z eqn:E; [discriminate|].
  apply Z.leb_gt in E. intros [= <-]. cbn [ReaderTTS.startIndex]. auto.
Qed.

Lemma Math_round_nonneg (x : Q) : 0 <= x -> (0 <= Math_round x)%Z.
Proof.
  intros H. unfold Math_round.
  pose proof (Qlt_floor (x + (1 # 2))) as H2.
  rewrite inject_Z_plus in H2. change (inject_Z 1) with 1 in H2.
  assert (H3 : inject_Z 0 < inject_Z (Qfloor (x + (1 # 2)) + 1)).
  { rewrite inject_Z_plus. change (inject_Z 1) with 1.
    change (inject_Z 0) with 0. lra. }
  rewrite <- Zlt_Qlt in H3. lia.
Qed.

Lemma chunk_words {A : Type} (l : list A) (start : Z) :
  (0 <= start < Z.of_nat (List.length l))%Z ->
  slice l start (start + ReaderTTS.chunkSize)
  = firstn (Z.to_nat (Z.min ReaderTTS.chunkSize
                            (Z.of_nat (List.length l) - start)))
           (skipn (Z.to_nat start) l).
Proof.
  intros H. unfold slice, relIndex, ReaderTTS.chunkSize.
  destruct (start <? 0)%Z eqn:E1; [apply Z.ltb_lt in E1; lia|].
  destruct (start + 100 <? 0)%Z eqn:E2; [apply Z.ltb_lt in E2; lia|].
  f_equal; [|f_equal]; lia.
Qed.

(** X25.  A narration that is enabled, with the cursor at or above 0 and
    its rounding [start] before the end of the text, does start: it speaks
    the [min(100, N - start)] words from [start] on, at least one, joined by
    single spaces; when the chunk is done the next one is requested exactly
    when words remain after it.  A narration that is disabled, or whose
    text is empty, or whose rounded cursor is at or past the end, does not
    start. *)
Theorem X25_chunks_cover_the_text :
  forall s : ReaderTTS.State,
    let N := Z.of_nat (List.length (ReaderTTS.content s)) in
    let start := Math_round (ReaderTTS.progress s) in
    let k := Z.min 100 (N - start) in
    (ReaderTTS.ttsEnabled s = true ->
     0 <= ReaderTTS.progress s ->
     (start < N)%Z ->
     exists u,
       ReaderTTS.startSpeaking s = Some u /\
       ReaderTTS.startIndex u = start /\
       (1 <= k <= 100)%Z /\
       ReaderTTS.chunkWords s u
       = firstn (Z.to_nat k) (skipn (Z.to_nat start) (ReaderTTS.content s)) /\
       Z.of_nat (List.length (ReaderTTS.chunkWords s u)) = k /\
       ReaderTTS.textToRead u
       = join (firstn (Z.to_nat k)
                      (skipn (Z.to_nat start) (ReaderTTS.content s))) /\
       (TTSVoice.onDoneRestarts u s = true <-> (start + k < N)%Z))
    /\
    (ReaderTTS.ttsEnabled s = false \/ ReaderTTS.content s = [] \/
     (N <= start)%Z ->
     ReaderTTS.startSpeaking s = None).
Proof.
  intros s N start k. split.
  - intros Hen Hp Hlt.
    assert (H0 : (0 <= start)%Z) by (now apply Math_round_nonneg).
    assert (Hs : ReaderTTS.startSpeaking s
                 = Some (ReaderTTS.mkUtterance start
                           (join (slice (ReaderTTS.content s) start
                                    (start + ReaderTTS.chunkSize))))).
    { unfold ReaderTTS.startSpeaking. fold N. fold start. rewrite Hen.
      destruct (N =? 0)%Z eqn:E1; [apply Z.eqb_eq in E1; lia|].
      cbn [negb orb].
      destruct (N <=? start)%Z eqn:E2; [apply Z.leb_le in E2; lia|].
      reflexivity. }
    eexists. split; [exact Hs|].
    unfold ReaderTTS.chunkWords, TTSVoice.onDoneRestarts.
    cbn [ReaderTTS.startIndex ReaderTTS.textToRead].
    pose proof (chunk_words (ReaderTTS.content s) start (conj H0 Hlt)) as Hw.
    fold N in Hw. unfold ReaderTTS.chunkSize in Hw at 2. fold k in Hw.
    pose proof (chunk_length (ReaderTTS.content s) start (conj H0 Hlt))
      as Hl.
    fold N in Hl. unfold ReaderTTS.chunkSize in Hl at 2. fold k in Hl.
    split; [reflexivity|]. split; [subst k; lia|].
    split; [exact Hw|]. split; [exact Hl|]. split; [now rewrite Hw|].
    rewrite Hen. cbn [andb]. fold N. unfold ReaderTTS.chunkSize.
    rewrite Z.ltb_lt. subst k. lia.
  - intros H. unfold ReaderTTS.startSpeaking. fold N. fold start.
    destruct (N =? 0)%Z eqn:E1; [reflexivity|].
    destruct (ReaderTTS.ttsEnabled s) eqn:E2; [|reflexivity].
    cbn [negb orb].
    destruct (N <=? start)%Z eqn:E3; [reflexivity|].
    apply Z.eqb_neq in E1. apply Z.leb_gt in E3.
    destruct H as [H|[H|H]]; [discriminate H| |lia].
    subst N. rewrite H in E1. simpl in E1. lia.
Qed.

Lemma X25_chunks_cover_the_text_witness :
  let s := ReaderTTS.mkState 1 false foxWords true in
  exists u,
    ReaderTTS.startSpeaking s = Some u /\
    ReaderTTS.startIndex u = 1%Z /\
    (1 <= 3 <= 100)%Z /\
    ReaderTTS.chunkWords s u = [lit "quick"; lit "brown"; lit "fox"] /\
    Z.of_nat (List.length (ReaderTTS.chunkWords s u)) = 3%Z /\
    ReaderTTS.textToRead u = lit "quick brown fox" /\
    (TTSVoice.onDoneRestarts u s = true <-> (1 + 3 < 4)%Z).
Proof.
  apply (proj1 (X25_chunks_cover_the_text
                  (ReaderTTS.mkState 1 false foxWords true))).
  - reflexivity.
  - vm_compute. congruence.
  - vm_compute. reflexivity.
Defined.

Lemma scanOffsets_range (charIndex : Z) (offsets : list Z) :
  forall i idx,
    let r := ReaderTTS.scanOffsets charIndex i idx offsets in
    r = idx \/ (i <= r < i + List.length offsets)%nat.
Proof.
  induction offsets as [|o l IH]; intros i idx; cbn [ReaderTTS.scanOffsets].
  - now left.
  - destruct (charIndex <? o)%Z; [now left|].
    right. destruct (IH (S i) i) as [->|H]; simpl; lia.
Qed.

(** X26.  For a narration started with the cursor at or above 0 over a text
    of tokens, every boundary event that arrives while no gesture holds the
    cursor, whatever character offset it reports (negative or beyond the
    chunk included) and in whatever state the earlier events have left,
    moves the cursor to a word of the chunk being spoken, hence to a word
    of the text: an integer from the chunk's start to its last word. *)
Theorem X26_narration_stays_in_the_chunk :
  forall (s0 : ReaderTTS.State) (u : ReaderTTS.Utterance),
    Forall goodWord (ReaderTTS.content s0) ->
    0 <= ReaderTTS.progress s0 ->
    ReaderTTS.startSpeaking s0 = Some u ->
    forall (s : ReaderTTS.State) (events : list Z) (charIndex : Z),
      ReaderTTS.isInteracting s = false ->
      exists j,
        ReaderTTS.progress
          (fold_left (fun st c => ReaderTTS.onBoundary u c st)
                     (events ++ [charIndex]) s)
        = inject_Z j /\
        (ReaderTTS.startIndex u <= j
         < ReaderTTS.startIndex u
           + Z.of_nat (List.length (ReaderTTS.chunkWords s0 u)))%Z /\
        (0 <= j < Z.of_nat (List.length (ReaderTTS.content s0)))%Z.
Proof.
  intros s0 u Hgood Hp Hu s events charIndex Hi.
  destruct (startSpeaking_chunk s0 u Hu) as [Hstart Htext].
  destruct (startSpeaking_start s0 u Hu) as [_ Hlt].
  assert (H0 : (0 <= ReaderTTS.startIndex u)%Z).
  { rewrite Hstart. now apply Math_round_nonneg. }
  pose proof (chunk_length (ReaderTTS.content s0) (ReaderTTS.startIndex u)
                (conj H0 Hlt)) as Hlen.
  fold (ReaderTTS.chunkWords s0 u) in Hlen.
  unfold ReaderTTS.chunkSize in Hlen.
  rewrite boundaries_last.
  rewrite (onBoundary_refines u charIndex _ (ReaderTTS.chunkWords s0 u));
    auto; [|now apply Forall_slice|now rewrite boundaries_flag].
  eexists. split; [reflexivity|].
  unfold ReaderTTS.specWordOffset.
  pose proof (scanOffsets_range charIndex
                (Headlines.localOffsets 0 (ReaderTTS.chunkWords s0 u)) 0 0)
    as Hr.
  cbv zeta in Hr. rewrite length_localOffsets in Hr.
  lia.
Qed.

Lemma X26_narration_stays_in_the_chunk_witness :
  let s0 := ReaderTTS.mkState 1 false foxWords true in
  let u := ReaderTTS.mkUtterance 1 (lit "quick brown fox") in
  exists j,
    ReaderTTS.progress
      (fold_left (fun st c => ReaderTTS.onBoundary u c st)
                 ([6; - (3)] ++ [1000])%Z
                 (ReaderTTS.mkState 40 false [] false))
    = inject_Z j /\
    (ReaderTTS.startIndex u <= j
     < ReaderTTS.startIndex u
       + Z.of_nat (List.length (ReaderTTS.chunkWords s0 u)))%Z /\
    (0 <= j < Z.of_nat (List.length (ReaderTTS.content s0)))%Z.
Proof.
  apply (X26_narration_stays_in_the_chunk
           (ReaderTTS.mkState 1 false foxWords true)
           (ReaderTTS.mkUtterance 1 (lit "quick brown fox"))).
  - repeat constructor; vm_compute; try congruence; repeat constructor;
      congruence.
  - vm_compute. congruence.
  - reflexivity.
  - reflexivity.
Defined.

(* ------------------------------------------------------------------ *)
(** ** The narrated screen: an arrow click moves by one word *)

Ltac tts_simpl :=
  cbn [TTSPlayback.progress TTSPlayback.isInteracting
       TTSPlayback.isManualTransition TTSPlayback.isPlaying
       TTSPlayback.contentLength TTSPlayback.waitTimer
       TTSPlayback.targetIndex TTSPlayback.moveStartTimestamp
       TTSPlayback.startPosition TTSPlayback.wpm
       TTSPlayback.setProgress TTSPlayback.setManual
       TTSPlayback.setTargetIndex TTSPlayback.setWaitTimer
       TTSPlayback.stop TTSPlayback.startMove
       TTSPlayback.timestamp TTSPlayback.timeSincePreviousFrame
       andb negb] in *.

Lemma arrow_click_state (down : bool) (s : TTSPlayback.State) :
  let current := Math_round (TTSPlayback.progress s) in
  let next := if down then (current + 1)%Z else (current - 1)%Z in
  (0 <= next < TTSPlayback.contentLength s)%Z ->
  TTSPlayback.onArrowClick down s
  = TTSPlayback.setManual true (- (1))
      (TTSPlayback.setTargetIndex next (TTSPlayback.stop s)).
Proof.
  intros current next H. unfold TTSPlayback.onArrowClick. tts_simpl.
  fold current. fold next.
  destruct (next <? 0)%Z eqn:E1; [apply Z.ltb_lt in E1; lia|].
  destruct (TTSPlayback.contentLength s <=? next)%Z eqn:E2;
    [apply Z.leb_le in E2; lia|].
  destruct (next =? current)%Z eqn:E3; [|reflexivity].
  apply Z.eqb_eq in E3. subst next. destruct down; lia.
Qed.

Lemma move_fraction (elapsed : Q) :
  (leb 1 (elapsed / TTSPlayback.MOVE_DURATION) = true <-> 160 <= elapsed).
Proof.
  unfold TTSPlayback.MOVE_DURATION. rewrite leb_true_iff.
  assert (E : elapsed / 160 == elapsed * (1 # 160)) by (field; lra).
  rewrite E. split; intros H; lra.
Qed.

Lemma manual_frame_running (ease : Q -> Q) (ticker : bool)
  (f : TTSPlayback.FrameInfo) (s : TTSPlayback.State) :
  TTSPlayback.isPlaying s = false ->
  TTSPlayback.isInteracting s = false ->
  TTSPlayback.isManualTransition s = true ->
  Qeq_bool (TTSPlayback.moveStartTimestamp s) (- (1)) = false ->
  TTSPlayback.useFrameCallback ease ticker f s
  = if leb 1 ((TTSPlayback.timestamp f - TTSPlayback.moveStartTimestamp s)
              / TTSPlayback.MOVE_DURATION)
    then TTSPlayback.setManual false (- (1))
           (TTSPlayback.setProgress (inject_Z (TTSPlayback.targetIndex s)) s)
    else TTSPlayback.setProgress
           (TTSPlayback.startPosition s
            + (inject_Z (TTSPlayback.targetIndex s)
               - TTSPlayback.startPosition s)
              * ease ((TTSPlayback.timestamp f
                       - TTSPlayback.moveStartTimestamp s)
                      / TTSPlayback.MOVE_DURATION)) s.
Proof.
  intros Hp Hi Hm Hq. unfold TTSPlayback.useFrameCallback.
  rewrite Hp, Hi, Hm. cbn [andb negb].
  unfold TTSPlayback.manualFrame. rewrite Hq. reflexivity.
Qed.

Lemma manual_frames_running (ease : Q -> Q) (ticker : bool)
  (d : TTSPlayback.FrameInfo) (mids : list TTSPlayback.FrameInfo) :
  forall s,
    TTSPlayback.isPlaying s = false ->
    TTSPlayback.isInteracting s = false ->
    TTSPlayback.isManualTransition s = true ->
    Qeq_bool (TTSPlayback.moveStartTimestamp s) (- (1)) = false ->
    Forall (fun f => TTSPlayback.timestamp f
                     - TTSPlayback.moveStartTimestamp s < 160) mids ->
    let s' := playFrames ease ticker mids s in
    TTSPlayback.isPlaying s' = false /\
    TTSPlayback.isInteracting s' = false /\
    TTSPlayback.isManualTransition s' = true /\
    TTSPlayback.moveStartTimestamp s' = TTSPlayback.moveStartTimestamp s /\
    TTSPlayback.targetIndex s' = TTSPlayback.targetIndex s /\
    TTSPlayback.wpm s' = TTSPlayback.wpm s /\
    TTSPlayback.startPosition s' = TTSPlayback.startPosition s /\
    TTSPlayback.progress s'
    = match mids with
      | [] => TTSPlayback.progress s
      | _ =>
          TTSPlayback.startPosition s
          + (inject_Z (TTSPlayback.targetIndex s)
             - TTSPlayback.startPosition s)
            * ease ((TTSPlayback.timestamp (last mids d)
                     - TTSPlayback.moveStartTimestamp s)
                    / TTSPlayback.MOVE_DURATION)
      end.
Proof.
  induction mids as [|f r IH]; intros s Hp Hi Hm Hq Hall; cbv zeta.
  - unfold playFrames. cbn [fold_left]. repeat split; assumption.
  - assert (Hrun : playFrames ease ticker (f :: r) s
                   = playFrames ease ticker r
                       (TTSPlayback.useFrameCallback ease ticker f s))
      by reflexivity.
    rewrite Hrun. clear Hrun.
    inversion Hall as [|f' r' Hf Hr]; subst.
    rewrite (manual_frame_running ease ticker f s Hp Hi Hm Hq).
    destruct (leb 1 ((TTSPlayback.timestamp f
                      - TTSPlayback.moveStartTimestamp s)
                     / TTSPlayback.MOVE_DURATION)) eqn:E.
    + apply move_fraction in E. lra.
    + match goal with
      | |- context [playFrames ease ticker r ?st] =>
          destruct (IH st) as (P & I & M & T & G & W & S & X);
            [tts_simpl; auto ..|]
      end.
      cbv zeta in P, I, M, T, G, W, S, X. tts_simpl.
      repeat split; auto.
      rewrite X. destruct r as [|f2 r2]; reflexivity.
Qed.

(** X27.  On the narrated screen, while no gesture is interacting, an arrow
    click on a cursor whose neighbour in that direction exists stops
    playback and starts a transition timed by the frame timestamps (the
    first of which is not the sentinel -1).  After the first frame and any
    frames less than 160 ms after it the transition is still running, with
    the cursor at [c + (neighbour - c) * ease(t / 160)], where [c] is the
    cursor at the click and [t] the time of the latest frame since the
    first.  The first frame 160 ms or more after the first puts the cursor
    exactly on the neighbouring word and ends the transition; frames after
    that change nothing. *)
Theorem X27_arrow_click_moves_one_word :
  forall (ease : Q -> Q) (isTickerMode : bool) (s : TTSPlayback.State)
         (down : bool) (f0 : TTSPlayback.FrameInfo)
         (mids : list TTSPlayback.FrameInfo),
    let current := Math_round (TTSPlayback.progress s) in
    let next := if down then (current + 1)%Z else (current - 1)%Z in
    TTSPlayback.isInteracting s = false ->
    (0 <= next < TTSPlayback.contentLength s)%Z ->
    ~ TTSPlayback.timestamp f0 == - (1) ->
    Forall (fun f => TTSPlayback.timestamp f - TTSPlayback.timestamp f0 < 160)
           mids ->
    let click := TTSPlayback.onArrowClick down s in
    let sm := playFrames ease isTickerMode (f0 :: mids) click in
    (TTSPlayback.progress click = TTSPlayback.progress s /\
     TTSPlayback.isPlaying click = false /\
     TTSPlayback.isManualTransition sm = true /\
     TTSPlayback.targetIndex sm = next /\
     TTSPlayback.progress sm
     = TTSPlayback.progress s
       + (inject_Z next - TTSPlayback.progress s)
         * ease ((TTSPlayback.timestamp (last mids f0)
                  - TTSPlayback.timestamp f0) / 160))
    /\
    (forall (fl : TTSPlayback.FrameInfo) (rest : list TTSPlayback.FrameInfo),
       160 <= TTSPlayback.timestamp fl - TTSPlayback.timestamp f0 ->
       let s' := playFrames ease isTickerMode (f0 :: mids ++ fl :: rest)
                   click in
       TTSPlayback.progress s' = inject_Z next /\
       TTSPlayback.isManualTransition s' = false /\
       TTSPlayback.isPlaying s' = false /\
       TTSPlayback.wpm s' = 0 /\
       s' = playFrames ease isTickerMode (f0 :: mids ++ [fl]) click).
Proof.
  intros ease ticker s down f0 mids current next Hi Hn Ht Hmids click sm.
  subst sm click. rewrite (arrow_click_state down s Hn).
  fold current. fold next.
  unfold playFrames. cbn [fold_left].
  set (s1 := TTSPlayback.useFrameCallback ease ticker f0 _).
  assert (Hq : Qeq_bool (TTSPlayback.timestamp f0) (- (1)) = false).
  { destruct (Qeq_bool (TTSPlayback.timestamp f0) (- (1))) eqn:E; auto.
    apply Qeq_bool_eq in E. contradiction. }
  assert (H1 : TTSPlayback.isPlaying s1 = false /\
               TTSPlayback.isInteracting s1 = false /\
               TTSPlayback.isManualTransition s1 = true /\
               TTSPlayback.moveStartTimestamp s1 = TTSPlayback.timestamp f0 /\
               TTSPlayback.targetIndex s1 = next /\
               TTSPlayback.wpm s1 = 0 /\
               TTSPlayback.startPosition s1 = TTSPlayback.progress s /\
               TTSPlayback.progress s1
               = TTSPlayback.progress s
                 + (inject_Z next - TTSPlayback.progress s)
                   * ease ((TTSPlayback.timestamp f0
                            - TTSPlayback.timestamp f0) / 160)).
  { subst s1. unfold TTSPlayback.useFrameCallback. tts_simpl.
    rewrite Hi. cbn [andb negb]. unfold TTSPlayback.manualFrame. tts_simpl.
    change (Qeq_bool (- (1)) (- (1))) with true. cbv iota. tts_simpl.
    destruct (leb 1 ((TTSPlayback.timestamp f0 - TTSPlayback.timestamp f0)
                     / TTSPlayback.MOVE_DURATION)) eqn:E.
    - apply move_fraction in E. lra.
    - tts_simpl. repeat split; auto. }
  destruct H1 as (P1 & I1 & M1 & T1 & G1 & W1 & S1 & X1).
  destruct (manual_frames_running ease ticker f0 mids s1 P1 I1 M1)
    as (P2 & I2 & M2 & T2 & G2 & W2 & S2 & X2).
  { now rewrite T1. }
  { now rewrite T1. }
  change (fold_left
            (fun st fi => TTSPlayback.useFrameCallback ease ticker fi st)
            mids s1)
    with (playFrames ease ticker mids s1).
  set (s2 := playFrames ease ticker mids s1) in *.
  split.
  - tts_simpl. split; [reflexivity|]. split; [reflexivity|].
    split; [exact M2|]. split; [now rewrite G2|].
    rewrite X2. destruct mids as [|m r].
    + exact X1.
    + rewrite S1, G1, T1. reflexivity.
  - intros fl rest Hfl. cbv zeta.
    rewrite !fold_left_app. cbn [fold_left].
    change (fold_left
              (fun st fi => TTSPlayback.useFrameCallback ease ticker fi st)
              mids s1)
      with s2.
    rewrite (manual_frame_running ease ticker fl s2 P2 I2 M2)
      by (now rewrite T2, T1).
    assert (E : leb 1 ((TTSPlayback.timestamp fl
                        - TTSPlayback.moveStartTimestamp s2)
                       / TTSPlayback.MOVE_DURATION) = true).
    { apply move_fraction. now rewrite T2, T1. }
    rewrite E.
    assert (Hrest : forall st,
              TTSPlayback.isPlaying st = false ->
              TTSPlayback.isManualTransition st = false ->
              fold_left
                (fun st fi => TTSPlayback.useFrameCallback ease ticker fi st)
                rest st = st).
    { induction rest as [|f r IH]; intros st Hp Hm; [reflexivity|].
      cbn [fold_left]. unfold TTSPlayback.useFrameCallback at 2.
      rewrite Hp, Hm. cbn [andb]. now apply IH. }
    rewrite Hrest by (tts_simpl; auto).
    tts_simpl. rewrite G2, G1, W2, W1, P2. repeat split; auto.
Qed.

Lemma X27_arrow_click_moves_one_word_witness :
  let s := TTSPlayback.mkState 5 false false true 1000 0 5 (- (1)) 0 300 in
  let click := TTSPlayback.onArrowClick true s in
  let f0 := TTSPlayback.mkFrame 1000 None in
  let mids := [TTSPlayback.mkFrame 1016 (Some 16);
               TTSPlayback.mkFrame 1100 (Some 84)] in
  let sm := playFrames (fun t => t) false (f0 :: mids) click in
  (TTSPlayback.progress click = TTSPlayback.progress s /\
   TTSPlayback.isPlaying click = false /\
   TTSPlayback.isManualTransition sm = true /\
   TTSPlayback.targetIndex sm = 6%Z /\
   TTSPlayback.progress sm
   = TTSPlayback.progress s
     + (inject_Z 6 - TTSPlayback.progress s)
       * ((TTSPlayback.timestamp (last mids f0)
           - TTSPlayback.timestamp f0) / 160))
  /\
  (forall (fl : TTSPlayback.FrameInfo) (rest : list TTSPlayback.FrameInfo),
     160 <= TTSPlayback.timestamp fl - TTSPlayback.timestamp f0 ->
     let s' := playFrames (fun t => t) false (f0 :: mids ++ fl :: rest)
                 click in
     TTSPlayback.progress s' = inject_Z 6 /\
     TTSPlayback.isManualTransition s' = false /\
     TTSPlayback.isPlaying s' = false /\
     TTSPlayback.wpm s' = 0 /\
     s' = playFrames (fun t => t) false (f0 :: mids ++ [fl]) click).
Proof.
  apply (X27_arrow_click_moves_one_word (fun t => t) false
           (TTSPlayback.mkState 5 false false true 1000 0 5 (- (1)) 0 300)
           true (TTSPlayback.mkFrame 1000 None)
           [TTSPlayback.mkFrame 1016 (Some 16);
            TTSPlayback.mkFrame 1100 (Some 84)]).
  - reflexivity.
  - vm_compute. split; congruence.
  - vm_compute. congruence.
  - repeat constructor; vm_compute; congruence.
Defined.

(* ------------------------------------------------------------------ *)
(** ** The first narrated screen: offset table and autoplay *)

Lemma scanOffsets_last (charIdx : Z) (offsets : list Z) :
  forall (pre : list Z) (idx : nat),
    let r := ReaderTTS.scanOffsets charIdx (List.length pre) idx offsets in
    (r = idx /\ forall o, hd_error offsets = Some o -> (charIdx < o)%Z)
    \/
    ((List.length pre <= r)%nat /\
     exists o,
       nth_error (pre ++ offsets) r = Some o /\ (o <= charIdx)%Z /\
       forall o', nth_error (pre ++ offsets) (S r) = Some o' ->
                  (charIdx < o')%Z).
Proof.
  induction offsets as [|o l IH]; intros pre idx;
    cbn [ReaderTTS.scanOffsets].
  - left. split; [reflexivity|]. intros o H. discriminate H.
  - destruct (charIdx <? o)%Z eqn:E.
    + apply Z.ltb_lt in E. left. split; [reflexivity|].
      intros o' [= <-]. exact E.
    + apply Z.ltb_ge in E. right.
      specialize (IH (pre ++ [o]) (List.length pre)).
      rewrite length_app in IH. cbn [List.length] in IH.
      rewrite Nat.add_1_r in IH. cbv zeta in IH.
      rewrite <- app_assoc in IH. cbn [app] in IH.
      destruct IH as [[-> Hhd]|(Hle & o1 & Hn & Ho1 & Hnext)].
      * split; [lia|]. exists o.
        rewrite nth_error_app2 by lia. rewrite Nat.sub_diag.
        split; [reflexivity|]. split; [exact E|].
        intros o'. rewrite nth_error_app2 by lia.
        replace (S (List.length pre) - List.length pre)%nat with 1%nat by lia.
        cbn [nth_error]. destruct l as [|o2 l2]; [discriminate|].
        cbn [nth_error]. intros H. apply Hhd. exact H.
      * split; [lia|]. exists o1. auto.
Qed.

Lemma sliceFrom_skipn {A : Type} (l : list A) (start : Z) :
  (0 <= start <= Z.of_nat (List.length l))%Z ->
  sliceFrom l start = skipn (Z.to_nat start) l.
Proof.
  intros H. unfold sliceFrom. rewrite slice_range by lia.
  apply firstn_all2. rewrite length_skipn. lia.
Qed.

Lemma early_boundaries_keep (start : Z) (events : list Z) :
  forall s,
    let s' := fold_left (fun st c => EarlyReader.onBoundary start c st)
                        events s in
    EarlyReader.isInteracting s' = EarlyReader.isInteracting s /\
    EarlyReader.sliceMap s' = EarlyReader.sliceMap s.
Proof.
  induction events as [|c r IH]; intros s; cbv zeta; cbn [fold_left];
    [auto|].
  destruct (IH (EarlyReader.onBoundary start c s)) as [H1 H2].
  cbv zeta in H1, H2. rewrite H1, H2.
  unfold EarlyReader.onBoundary.
  destruct (EarlyReader.isInteracting s) eqn:E; auto.
Qed.

(** X28.  In the first narrated screen, a narration started with the cursor
    at or above 0 and its floor [start] before the end of the text leaves
    the cursor where it is and records, for the words from [start] on, the
    position at which each is written in the spoken text.  Every boundary
    event that then arrives while no gesture is interacting, at a character
    offset of 0 or more and in whatever state the earlier events have left,
    moves the cursor to the last of these words that starts at or before
    the offset: its successor, if any, starts after it.  The cursor stays on
    a word of the text. *)
Theorem X28_boundary_finds_the_spoken_word :
  forall s : EarlyReader.State,
    let N := Z.of_nat (List.length (EarlyReader.content s)) in
    let start := Math_floor (EarlyReader.progress s) in
    let words := skipn (Z.to_nat start) (EarlyReader.content s) in
    0 <= EarlyReader.progress s ->
    (start < N)%Z ->
    exists s1,
      EarlyReader.startSpeaking s = (s1, Some start) /\
      EarlyReader.progress s1 = EarlyReader.progress s /\
      EarlyReader.sliceMap s1 = Headlines.localOffsets 0 words /\
      (forall (i : nat) (word : jsstring),
         nth_error words i = Some word ->
         exists k : nat,
           nth_error (EarlyReader.sliceMap s1) i = Some (Z.of_nat k) /\
           firstn (List.length word) (skipn k (join words)) = word) /\
      (forall (s2 : EarlyReader.State) (events : list Z) (charIdx : Z),
         EarlyReader.sliceMap s2 = EarlyReader.sliceMap s1 ->
         EarlyReader.isInteracting s2 = false ->
         (0 <= charIdx)%Z ->
         exists idx : nat,
           EarlyReader.progress
             (fold_left (fun st c => EarlyReader.onBoundary start c st)
                        (events ++ [charIdx]) s2)
           = inject_Z (start + Z.of_nat idx) /\
           (0 <= start + Z.of_nat idx < N)%Z /\
           (exists o, nth_error (EarlyReader.sliceMap s1) idx = Some o /\
                      (o <= charIdx)%Z) /\
           (forall o', nth_error (EarlyReader.sliceMap s1) (S idx) = Some o' ->
                       (charIdx < o')%Z)).
Proof.
  intros s N start words Hp Hlt.
  assert (H0 : (0 <= start)%Z).
  { subst start. unfold Math_floor.
    rewrite <- (Qfloor_Z 0). now apply Qfloor_resp_le. }
  assert (Hw : sliceFrom (EarlyReader.content s) start = words).
  { apply sliceFrom_skipn. fold N. lia. }
  assert (Hs : EarlyReader.startSpeaking s
               = (EarlyReader.setSliceMap (Headlines.localOffsets 0 words) s,
                  Some start)).
  { assert (Hne : EarlyReader.content s <> []).
    { intros E. unfold N in Hlt. rewrite E in Hlt. simpl in Hlt. lia. }
    unfold EarlyReader.startSpeaking. fold N. fold start. rewrite Hw.
    destruct (EarlyReader.content s) as [|w r]; [congruence|].
    destruct (N <=? start)%Z eqn:E; [apply Z.leb_le in E; lia|].
    reflexivity. }
  eexists. split; [exact Hs|].
  cbn [EarlyReader.progress EarlyReader.sliceMap EarlyReader.setSliceMap].
  split; [reflexivity|]. split; [reflexivity|]. split.
  - intros i word Hi.
    destruct (offsets_point words 0 i word Hi) as (k & Hk & Hword).
    exists k. split; [exact Hk|exact Hword].
  - intros s2 events charIdx Hmap Hi Hc.
    rewrite fold_left_app. cbn [fold_left].
    destruct (early_boundaries_keep start events s2) as [Hi' Hmap'].
    cbv zeta in Hi', Hmap'.
    set (s3 := fold_left (fun st c => EarlyReader.onBoundary start c st)
                         events s2) in *.
    unfold EarlyReader.onBoundary. rewrite Hi', Hi, Hmap', Hmap.
    cbn [EarlyReader.progress EarlyReader.setProgress].
    assert (Hlen : List.length words = Z.to_nat (N - start)).
    { subst words. rewrite length_skipn. lia. }
    destruct (scanOffsets_last charIdx (Headlines.localOffsets 0 words) [] 0)
      as [[_ Hhd]|(_ & o & Hn & Ho & Hnext)].
    + exfalso. destruct words as [|w r]; [simpl in Hlen; lia|].
      specialize (Hhd 0%Z eq_refl). lia.
    + cbn [app List.length] in Hn, Hnext.
      set (idx := ReaderTTS.scanOffsets charIdx 0 0
                    (Headlines.localOffsets 0 words)) in *.
      exists idx. split; [reflexivity|].
      assert (Hidx : (idx < List.length words)%nat).
      { rewrite <- (length_localOffsets words 0).
        apply nth_error_Some. congruence. }
      split; [lia|]. split; [exists o; auto|exact Hnext].
Qed.

Lemma X28_boundary_finds_the_spoken_word_witness :
  let s := EarlyReader.mkState (3 # 2) false 4 300 true foxWords [] in
  exists s1,
    EarlyReader.startSpeaking s = (s1, Some 1%Z) /\
    EarlyReader.progress s1 = EarlyReader.progress s /\
    EarlyReader.sliceMap s1
    = Headlines.localOffsets 0 [lit "quick"; lit "brown"; lit "fox"] /\
    (forall (i : nat) (word : jsstring),
       nth_error [lit "quick"; lit "brown"; lit "fox"] i = Some word ->
       exists k : nat,
         nth_error (EarlyReader.sliceMap s1) i = Some (Z.of_nat k) /\
         firstn (List.length word)
                (skipn k (join [lit "quick"; lit "brown"; lit "fox"]))
         = word) /\
    (forall (s2 : EarlyReader.State) (events : list Z) (charIdx : Z),
       EarlyReader.sliceMap s2 = EarlyReader.sliceMap s1 ->
       EarlyReader.isInteracting s2 = false ->
       (0 <= charIdx)%Z ->
       exists idx : nat,
         EarlyReader.progress
           (fold_left (fun st c => EarlyReader.onBoundary 1 c st)
                      (events ++ [charIdx]) s2)
         = inject_Z (1 + Z.of_nat idx) /\
         (0 <= 1 + Z.of_nat idx < 4)%Z /\
         (exists o, nth_error (EarlyReader.sliceMap s1) idx = Some o /\
                    (o <= charIdx)%Z) /\
         (forall o', nth_error (EarlyReader.sliceMap s1) (S idx) = Some o' ->
                     (charIdx < o')%Z)).
Proof.
  apply (X28_boundary_finds_the_spoken_word
           (EarlyReader.mkState (3 # 2) false 4 300 true foxWords [])).
  - vm_compute. congruence.
  - vm_compute. reflexivity.
Defined.

Lemma early_frame (dt : option Q) (s : EarlyReader.State) :
  EarlyReader.progress s < inject_Z (EarlyReader.contentLength s - 1) ->
  let s' := EarlyReader.useFrameCallback dt s in
  EarlyReader.progress s' < inject_Z (EarlyReader.contentLength s - 1) /\
  (EarlyReader.wpm s' = EarlyReader.wpm s \/ EarlyReader.wpm s' = 0) /\
  EarlyReader.contentLength s' = EarlyReader.contentLength s.
Proof.
  intros Hs. cbv zeta. unfold EarlyReader.useFrameCallback.
  destruct (ltb 0 (EarlyReader.wpm s)
            && (0 <? EarlyReader.contentLength s)%Z
            && negb (EarlyReader.isInteracting s)
            && negb (EarlyReader.ttsEnabled s)); [|auto].
  destruct (ltb (EarlyReader.progress s
                 + EarlyReader.wpm s / 60000 * orElse dt 16)
                (inject_Z (EarlyReader.contentLength s - 1))) eqn:E.
  - apply ltb_true_iff in E. cbn. auto.
  - cbn. auto.
Qed.

(** X29.  Autoplay of the first narrated screen never brings the cursor
    onto the last word: from a cursor below N - 1, after any display
    frames the cursor is still below N - 1, and the rate is either what it
    was or 0 (the step that would reach the last word pauses instead of
    moving). *)
Theorem X29_early_autoplay_stops_short :
  forall (frames : list (option Q)) (s : EarlyReader.State),
    EarlyReader.progress s < inject_Z (EarlyReader.contentLength s - 1) ->
    let s' := fold_left
                (fun st dt => EarlyReader.useFrameCallback dt st) frames s in
    EarlyReader.progress s' < inject_Z (EarlyReader.contentLength s - 1) /\
    (EarlyReader.wpm s' = EarlyReader.wpm s \/ EarlyReader.wpm s' = 0) /\
    EarlyReader.contentLength s' = EarlyReader.contentLength s.
Proof.
  induction frames as [|dt r IH]; intros s Hs; cbv zeta; cbn [fold_left].
  - auto.
  - destruct (early_frame dt s Hs) as (A & B & C). cbv zeta in A, B, C.
    destruct (IH (EarlyReader.useFrameCallback dt s)) as (A' & B' & C').
    { now rewrite C. }
    cbv zeta in A', B', C'. rewrite C in A', C'.
    split; [exact A'|]. split; [|exact C'].
    destruct B' as [->| ->]; auto.
Qed.

Lemma X29_early_autoplay_stops_short_witness :
  let s := EarlyReader.mkState 2 false 4 300 false foxWords [] in
  let s' := fold_left
              (fun st dt => EarlyReader.useFrameCallback dt st)
              (repeat (Some 50) 10) s in
  EarlyReader.progress s' < inject_Z (EarlyReader.contentLength s - 1) /\
  (EarlyReader.wpm s' = EarlyReader.wpm s \/ EarlyReader.wpm s' = 0) /\
  EarlyReader.contentLength s' = EarlyReader.contentLength s.
Proof.
  apply (X29_early_autoplay_stops_short (repeat (Some 50) 10)
           (EarlyReader.mkState 2 false 4 300 false foxWords [])).
  vm_compute. congruence.
Defined.
